(** * Scavenger Mine coordinator: a shallow embedding of the Python miners

    The development follows the Python sources of the repository
    (py_miner.py, py_miner1.py, fullmanualinput.py,
    chayvottungaddresstheolist.py and fullauto&workerrandom.py):

    - Python values, exceptions and the builtins the code relies on
      ([int(s, 16)], [str.strip], UTF-8 encoding and decoding);
    - the difficulty verifier [hash_meets_difficulty];
    - the preimage builder [build_preimage];
    - the hash oracle client ([_ensure_socket], [_send_pre_and_recv_hash]);
    - the worker's batch loop and its submission phase, in the variants
      the repository contains;
    - the orchestrator: nonce-range partitioning and challenge installation.

    Conventions.  A Python [str] is the list of its code points; [bytes]
    is a list of [byte]; Python integers are unbounded, hence [Z] with no
    wrap-around.  A call that may raise returns a [result]; a
    [try/except Exception] becomes a match on it.  Sleeps are recorded in
    milliseconds.  Whatever a function reads from the outside world (the
    network, the clock, the random generator, other threads) is an explicit
    argument describing what the world answers. *)

From Stdlib Require Import ZArith NArith Strings.Byte Ascii String List Lia Bool.
From stdpp Require Import base option list list_numbers gmap strings pretty.
From Equations Require Import Equations.

Local Open Scope Z_scope.

(* ===================================================================== *)
(** * Python values *)
(* ===================================================================== *)

(** A Python string: the sequence of its Unicode code points. *)
Abbreviation pystr := (list N).

(** Literals of the source are written with [lit]. *)
Definition lit (s : string) : pystr :=
  map N_of_ascii (list_ascii_of_string s).

(** The JSON-shaped values the miners handle. *)
#[warnings="-register-all"]
Inductive pyval : Type :=
  | PyNone
  | PyInt (n : Z)
  | PyStr (s : pystr)
  | PyDict (d : gmap pystr pyval).

(** The exceptions that occur, all subclasses of [Exception]. *)
Inductive exn : Type :=
  | TypeError
  | ValueError
  | KeyError
  | ZeroDivisionError
  | AttributeError
  | UnicodeError
  | ConnectionError
  | OSError.

Inductive result (A : Type) : Type :=
  | Ok (a : A)
  | Raise (e : exn).
Arguments Ok {A} a.
Arguments Raise {A} e.

(** Sequencing: an exception propagates.  With this instance the
    notation [x ← r; k] reads as the Python statement sequence. *)
Global Instance result_bind : MBind result := fun A B k r =>
  match r with
  | Ok a => k a
  | Raise e => Raise e
  end.
Global Instance result_ret : MRet result := fun A a => Ok a.

(** [not v] *)
Definition py_not (v : pyval) : bool :=
  match v with
  | PyNone => true
  | PyInt n => n =? 0
  | PyStr s => match s with [] => true | _ => false end
  | PyDict d => bool_decide (d = ∅)
  end.

(** [len(v)] *)
Definition py_len (v : pyval) : result Z :=
  match v with
  | PyStr s => Ok (Z.of_nat (length s))
  | PyDict d => Ok (Z.of_nat (size d))
  | PyNone | PyInt _ => Raise TypeError
  end.

(** [v[0:n]] *)
Definition py_prefix (v : pyval) (n : nat) : result pyval :=
  match v with
  | PyStr s => Ok (PyStr (take n s))
  | _ => Raise TypeError
  end.

(** [str(v)] and the default [format(v)] used by f-strings.  The [repr]
    of a dictionary is not modelled: it is left as its braces only, and
    no statement below is about it. *)
Definition py_str (v : pyval) : pystr :=
  match v with
  | PyNone => lit "None"
  | PyInt n => lit (pretty n)
  | PyStr s => s
  | PyDict _ => lit "{...}"
  end.

(* ===================================================================== *)
(** * The builtin [int(x, 16)] *)
(* ===================================================================== *)

Module PyLong.

Local Open Scope N_scope.

(** [Py_ISSPACE]: the C-locale white space of pyctype. *)
Definition Py_ISSPACE (c : N) : bool :=
  ((9 <=? c) && (c <=? 13)) || (c =? 32).

(** [Py_UNICODE_ISSPACE]: what [str.isspace] and [str.strip] use. *)
Definition Py_UNICODE_ISSPACE (c : N) : bool :=
  ((0x09 <=? c) && (c <=? 0x0D)) || ((0x1C <=? c) && (c <=? 0x20))
  || (c =? 0x85) || (c =? 0xA0) || (c =? 0x1680)
  || ((0x2000 <=? c) && (c <=? 0x200A))
  || (c =? 0x2028) || (c =? 0x2029) || (c =? 0x202F)
  || (c =? 0x205F) || (c =? 0x3000).

(** The code points of the digit zero of every decimal-digit run of
    Unicode 14.0 (the database of CPython 3.11); each run is ten
    consecutive code points. *)
Definition decimal_zeros : list N :=
  [ 0x30; 0x660; 0x6f0; 0x7c0; 0x966; 0x9e6; 0xa66; 0xae6; 0xb66; 0xbe6;
    0xc66; 0xce6; 0xd66; 0xde6; 0xe50; 0xed0; 0xf20; 0x1040; 0x1090;
    0x17e0; 0x1810; 0x1946; 0x19d0; 0x1a80; 0x1a90; 0x1b50; 0x1bb0;
    0x1c40; 0x1c50; 0xa620; 0xa8d0; 0xa900; 0xa9d0; 0xa9f0; 0xaa50;
    0xabf0; 0xff10; 0x104a0; 0x10d30; 0x11066; 0x110f0; 0x11136;
    0x111d0; 0x112f0; 0x11450; 0x114d0; 0x11650; 0x116c0; 0x11730;
    0x118e0; 0x11950; 0x11c50; 0x11d50; 0x11da0; 0x16a60; 0x16ac0;
    0x16b50; 0x1d7ce; 0x1d7d8; 0x1d7e2; 0x1d7ec; 0x1d7f6; 0x1e140;
    0x1e2f0; 0x1e950; 0x1fbf0 ].

(** [Py_UNICODE_TODECIMAL] *)
Definition Py_UNICODE_TODECIMAL (c : N) : option N :=
  match List.find (fun z => (z <=? c) && (c <? z + 10)) decimal_zeros with
  | Some z => Some (c - z)
  | None => None
  end.

(** [_PyUnicode_TransformDecimalAndSpaceToASCII]: an ASCII string is
    returned as it is; otherwise spaces become [' '], decimal digits
    their ASCII digit, and the first other non-ASCII character becomes
    ['?'] and ends the output. *)
Fixpoint transform_loop (s : pystr) : list N :=
  match s with
  | [] => []
  | ch :: r =>
      if ch <? 127 then ch :: transform_loop r
      else if Py_UNICODE_ISSPACE ch then 32 :: transform_loop r
      else match Py_UNICODE_TODECIMAL ch with
           | Some d => (48 + d) :: transform_loop r
           | None => [63]
           end
  end.

Definition TransformDecimalAndSpaceToASCII (s : pystr) : list N :=
  if forallb (fun c => c <? 128) s then s else transform_loop s.

(** [_PyLong_DigitValue] *)
Definition DigitValue (c : N) : N :=
  if (48 <=? c) && (c <=? 57) then c - 48
  else if (97 <=? c) && (c <=? 122) then c - 87
  else if (65 <=? c) && (c <=? 90) then c - 55
  else 37.

(** [long_from_binary_base]: digits with single underscores between
    them.  Yields the value, the number of digits and the unread rest,
    or [None] on a doubled or trailing underscore. *)
Fixpoint scan_digits (base : N) (prev_us : bool) (digits : nat) (acc : Z)
    (s : list N) : option (Z * nat * list N) :=
  match s with
  | [] => if prev_us then None else Some (acc, digits, [])
  | c :: r =>
      if c =? 95 then
        if prev_us then None else scan_digits base true digits acc r
      else if DigitValue c <? base then
        scan_digits base false (S digits)
          (acc * Z.of_N base + Z.of_N (DigitValue c))%Z r
      else if prev_us then None else Some (acc, digits, s)
  end.

Fixpoint skip_space (s : list N) : list N :=
  match s with
  | c :: r => if Py_ISSPACE c then skip_space r else s
  | [] => []
  end.

Definition skip_sign (s : list N) : bool * list N :=
  match s with
  | c :: r =>
      if c =? 43 then (false, r)
      else if c =? 45 then (true, r)
      else (false, s)
  | [] => (false, [])
  end.

(** For base 16 a ["0x"] or ["0X"] prefix is skipped, and one
    underscore after it. *)
Definition skip_prefix16 (s : list N) : list N :=
  match s with
  | c0 :: c1 :: r =>
      if (c0 =? 48) && ((c1 =? 120) || (c1 =? 88)) then
        match r with
        | u :: r' => if u =? 95 then r' else r
        | [] => r
        end
      else s
  | _ => s
  end.

Definition starts_with_underscore (s : list N) : bool :=
  match s with
  | c :: _ => c =? 95
  | [] => false
  end.

(** [PyLong_FromString(str, &end, 16)] together with the check of
    [PyLong_FromUnicodeObject] that the whole string was consumed. *)
Definition PyLong_FromString16 (s : list N) : option Z :=
  let '(neg, s2) := skip_sign (skip_space s) in
  let s3 := skip_prefix16 s2 in
  if starts_with_underscore s3 then None
  else
    match scan_digits 16 false 0 0%Z s3 with
    | None => None
    | Some (v, digits, rest) =>
        match digits with
        | O => None
        | S _ =>
            match skip_space rest with
            | [] => Some (if neg then (- v)%Z else v)
            | _ :: _ => None
            end
        end
    end.

Definition parse16 (s : pystr) : option Z :=
  PyLong_FromString16 (TransformDecimalAndSpaceToASCII s).

End PyLong.

(** A hexadecimal digit, [0-9a-fA-F], and the number a string of such
    digits denotes. *)
Definition is_hex_digit (c : N) : bool :=
  (((48 <=? c) && (c <=? 57)) || ((97 <=? c) && (c <=? 102))
   || ((65 <=? c) && (c <=? 70)))%N.

Definition hex_value (s : pystr) : Z :=
  fold_left (fun acc c => acc * 16 + Z.of_N (PyLong.DigitValue c)) s 0.

(** [int(x, 16)]: a [TypeError] for a non-string, a [ValueError] for an
    invalid literal. *)
Definition py_int16 (x : pyval) : result Z :=
  match x with
  | PyStr s =>
      match PyLong.parse16 s with
      | Some n => Ok n
      | None => Raise ValueError
      end
  | _ => Raise TypeError
  end.

(* ===================================================================== *)
(** * Difficulty verifier (py_miner.py, [hash_meets_difficulty]) *)
(* ===================================================================== *)

Definition hash_meets_difficulty (hash_hex difficulty_hex : pyval)
    : result bool :=
  if py_not hash_hex then Ok false
  else
    n ← py_len hash_hex;
    if n <? 8 then Ok false
    else
      match (p ← py_prefix hash_hex 8;
             left4 ← py_int16 p;
             mask ← py_int16 difficulty_hex;
             Ok (left4, mask)) with
      | Raise _ => Ok false
      | Ok (left4, mask) =>
          Ok (Z.land left4 (Z.land (Z.lnot mask) 0xFFFFFFFF) =? 0)
      end.

(* ===================================================================== *)
(** * [str.strip], UTF-8 *)
(* ===================================================================== *)

Fixpoint lstrip (s : pystr) : pystr :=
  match s with
  | c :: r => if PyLong.Py_UNICODE_ISSPACE c then lstrip r else s
  | [] => []
  end.

Definition rstrip (s : pystr) : pystr := rev (lstrip (rev s)).

(** [s.strip()] *)
Definition strip (s : pystr) : pystr := rstrip (lstrip s).

Module Utf8.

Local Open Scope N_scope.

Definition within (lo hi b : N) : bool := (lo <=? b) && (b <=? hi).
Definition cont (b : N) : bool := within 0x80 0xBF b.

(** Strict decoding: no overlong forms, no surrogates, nothing above
    U+10FFFF, no truncated sequence. *)
Fixpoint decode_points (bs : list N) : option pystr :=
  match bs with
  | [] => Some []
  | b0 :: r0 =>
      if b0 <? 0x80 then cons b0 <$> decode_points r0
      else if within 0xC2 0xDF b0 then
        match r0 with
        | b1 :: r1 =>
            if cont b1
            then cons ((b0 - 0xC0) * 64 + (b1 - 0x80)) <$> decode_points r1
            else None
        | _ => None
        end
      else if within 0xE0 0xEF b0 then
        match r0 with
        | b1 :: b2 :: r2 =>
            if within (if b0 =? 0xE0 then 0xA0 else 0x80)
                      (if b0 =? 0xED then 0x9F else 0xBF) b1 && cont b2
            then cons ((b0 - 0xE0) * 4096 + (b1 - 0x80) * 64 + (b2 - 0x80))
                   <$> decode_points r2
            else None
        | _ => None
        end
      else if within 0xF0 0xF4 b0 then
        match r0 with
        | b1 :: b2 :: b3 :: r3 =>
            if within (if b0 =? 0xF0 then 0x90 else 0x80)
                      (if b0 =? 0xF4 then 0x8F else 0xBF) b1
               && cont b2 && cont b3
            then cons ((b0 - 0xF0) * 262144 + (b1 - 0x80) * 4096
                       + (b2 - 0x80) * 64 + (b3 - 0x80))
                   <$> decode_points r3
            else None
        | _ => None
        end
      else None
  end.

(** [b.decode("utf-8")] *)
Definition decode (bs : list byte) : result pystr :=
  match decode_points (map Byte.to_N bs) with
  | Some s => Ok s
  | None => Raise UnicodeError
  end.

Definition encode_point (c : N) : option (list N) :=
  if c <? 0x80 then Some [c]
  else if c <? 0x800 then Some [0xC0 + c / 64; 0x80 + c mod 64]
  else if c <? 0x10000 then
    if within 0xD800 0xDFFF c then None
    else Some [0xE0 + c / 4096; 0x80 + (c / 64) mod 64; 0x80 + c mod 64]
  else if c <? 0x110000 then
    Some [0xF0 + c / 262144; 0x80 + (c / 4096) mod 64;
          0x80 + (c / 64) mod 64; 0x80 + c mod 64]
  else None.

Fixpoint encode_points (s : pystr) : option (list N) :=
  match s with
  | [] => Some []
  | c :: r =>
      match encode_point c, encode_points r with
      | Some b, Some bs => Some (b ++ bs)
      | _, _ => None
      end
  end.

Definition byte_of_N (n : N) : byte :=
  match Byte.of_N n with Some b => b | None => x00 end.

(** [s.encode("utf-8")]: a lone surrogate cannot be encoded. *)
Definition encode (s : pystr) : result (list byte) :=
  match encode_points s with
  | Some bs => Ok (map byte_of_N bs)
  | None => Raise UnicodeError
  end.

End Utf8.

(* ===================================================================== *)
(** * Preimage builder (py_miner.py, [build_preimage]) *)
(* ===================================================================== *)

(** [d[k]] on a dictionary *)
Definition dict_getitem (d : gmap pystr pyval) (k : pystr) : result pyval :=
  match d !! k with
  | Some v => Ok v
  | None => Raise KeyError
  end.

(** [d.get(k, dflt)] *)
Definition dict_get (d : gmap pystr pyval) (k : pystr) (dflt : pyval) : pyval :=
  default dflt (d !! k).

(** ["".join(parts)]: every item must be a [str]. *)
Fixpoint py_join (parts : list pyval) : result pystr :=
  match parts with
  | [] => Ok []
  | PyStr s :: r => rest ← py_join r; Ok (s ++ rest)
  | _ :: _ => Raise TypeError
  end.

Definition build_preimage (nonce_hex address : pystr)
    (challenge : gmap pystr pyval) : result pystr :=
  challenge_id ← dict_getitem challenge (lit "challenge_id");
  difficulty ← dict_getitem challenge (lit "difficulty");
  no_pre_mine ← dict_getitem challenge (lit "no_pre_mine");
  latest_submission ← dict_getitem challenge (lit "latest_submission");
  let parts :=
    [ PyStr nonce_hex;
      PyStr address;
      challenge_id;
      difficulty;
      no_pre_mine;
      latest_submission;
      PyStr (py_str (dict_get challenge (lit "no_pre_mine_hour") (PyStr []))) ]
  in
  py_join parts.

(** [rom = challenge.get("no_pre_mine", ""); pre_with_rom = f"{rom}|{pre}"]
    of [Worker.run]. *)
Definition pre_with_rom (challenge : gmap pystr pyval) (pre : pystr) : pystr :=
  let rom := dict_get challenge (lit "no_pre_mine") (PyStr []) in
  py_str rom ++ lit "|" ++ pre.

(** [hex64_nonce]: ["{:016x}".format(random.getrandbits(64))].  The
    argument is the entropy the generator draws. *)
Definition hexchar (d : Z) : N :=
  if d <? 10 then Z.to_N (48 + d) else Z.to_N (87 + d).

Fixpoint hex_digits (width : nat) (v : Z) : pystr :=
  match width with
  | O => []
  | S k => hex_digits k (v / 16) ++ [hexchar (v mod 16)]
  end.

Definition getrandbits64 (entropy : Z) : Z := entropy mod 2 ^ 64.

Definition hex64_nonce (entropy : Z) : pystr :=
  hex_digits 16 (getrandbits64 entropy).

(* ===================================================================== *)
(** * The world a worker runs in *)
(* ===================================================================== *)

(** What one [recv(4096)] yields: bytes (none when the peer closed the
    stream) or an exception. *)
Inductive recv_outcome : Type :=
  | RecvBytes (b : list byte)
  | RecvFails.

(** What the network does during one oracle query: whether a connection
    attempt succeeds, whether [sendall] succeeds, and the successive
    outcomes of [recv].  When the script has no outcome left the socket
    times out ([SOCKET_TIMEOUT]), which raises. *)
Record net_script : Type := NetScript {
  connect_ok : bool;
  send_ok : bool;
  recvs : list recv_outcome
}.

(** What the remote service does with one POST: a response with a status
    code, or no response at all ([requests] raises). *)
Inductive http_outcome : Type :=
  | HttpStatus (code : Z)
  | HttpFails.

(** Observable actions, in the order they happen.  [EvQuery] is a ghost
    event: it records the request given to the oracle client and what the
    call returned to [run]. *)
Inductive event : Type :=
  | EvConnect (ok : bool)
  | EvSendall (conn : nat) (data : list byte)
  | EvRecv (conn : nat) (got : recv_outcome)
  | EvClose (conn : nat)
  | EvSleep (ms : Z)
  | EvQuery (request : pystr) (response : option pystr)
  | EvAddHashes (n : Z)
  | EvIncSolutions
  | EvPost (address : pystr) (challenge_id : pyval) (nonce : pystr)
           (outcome : http_outcome)
  | EvLogError (address : pystr) (challenge_id : pyval) (nonce : pystr)
  | EvStopSet.

(** The state one worker sees: its own socket ([self.sock], with the
    number of connections it has opened so far naming each connection),
    the global [stats] counters, the global [stop_event], and the trace. *)
Record wstate : Type := WState {
  sock : option nat;
  opened : nat;
  hashes : Z;
  solutions : Z;
  stop_event : bool;
  trace : list event
}.

Definition initial_state : wstate :=
  {| sock := None; opened := 0; hashes := 0; solutions := 0;
     stop_event := false; trace := [] |}.

(** Stateful code that may raise: the state survives the exception. *)
Definition io (A : Type) : Type := wstate -> wstate * result A.

Global Instance io_ret : MRet io := fun A a st => (st, Ok a).
Global Instance io_bind : MBind io := fun A B k m st =>
  match m st with
  | (st1, Ok a) => k a st1
  | (st1, Raise e) => (st1, Raise e)
  end.

Definition raise {A} (e : exn) : io A := fun st => (st, Raise e).
Definition lift {A} (r : result A) : io A := fun st => (st, r).

(** [try: body  except Exception: handler] *)
Definition try_except {A} (body : io A) (handler : io A) : io A := fun st =>
  match body st with
  | (st1, Ok a) => (st1, Ok a)
  | (st1, Raise _) => handler st1
  end.

Definition emit (e : event) : io unit := fun st =>
  ({| sock := sock st; opened := opened st; hashes := hashes st;
      solutions := solutions st; stop_event := stop_event st;
      trace := trace st ++ [e] |}, Ok tt).

Definition get_sock : io (option nat) := fun st => (st, Ok (sock st)).

Definition set_sock (s : option nat) : io unit := fun st =>
  ({| sock := s; opened := opened st; hashes := hashes st;
      solutions := solutions st; stop_event := stop_event st;
      trace := trace st |}, Ok tt).

(** [time.sleep] *)
Definition sleep (ms : Z) : io unit := emit (EvSleep ms).

(** [stats.add_hashes(n)] *)
Definition add_hashes (n : Z) : io unit := fun st =>
  ({| sock := sock st; opened := opened st; hashes := hashes st + n;
      solutions := solutions st; stop_event := stop_event st;
      trace := trace st ++ [EvAddHashes n] |}, Ok tt).

(** [stats.inc_solutions()] *)
Definition inc_solutions : io unit := fun st =>
  ({| sock := sock st; opened := opened st; hashes := hashes st;
      solutions := solutions st + 1; stop_event := stop_event st;
      trace := trace st ++ [EvIncSolutions] |}, Ok tt).

(** [stop_event.set()] *)
Definition stop_event_set : io unit := fun st =>
  ({| sock := sock st; opened := opened st; hashes := hashes st;
      solutions := solutions st; stop_event := true;
      trace := trace st ++ [EvStopSet] |}, Ok tt).

(** [stop_event.is_set()].  The event is shared: [by_others] tells
    whether another thread has set it since this worker last looked. *)
Definition stop_event_is_set (by_others : bool) : io bool := fun st =>
  let flag := stop_event st || by_others in
  ({| sock := sock st; opened := opened st; hashes := hashes st;
      solutions := solutions st; stop_event := flag;
      trace := trace st |}, Ok flag).

(* ===================================================================== *)
(** * Hash oracle client (py_miner.py, class [Worker]) *)
(* ===================================================================== *)

Definition NEWLINE : byte := x0a.

(** [b.find(b"\n") != -1] *)
Definition has_newline (b : list byte) : bool :=
  existsb (Byte.eqb NEWLINE) b.

(** [buf.split(b"\n", 1)[0]] *)
Fixpoint before_newline (buf : list byte) : list byte :=
  match buf with
  | [] => []
  | c :: r => if Byte.eqb NEWLINE c then [] else c :: before_newline r
  end.

Definition _ensure_socket (net : net_script) : io bool :=
  s ← get_sock;
  match s with
  | Some _ => mret true
  | None =>
      if connect_ok net then
        fun st =>
          ({| sock := Some (opened st); opened := S (opened st);
              hashes := hashes st; solutions := solutions st;
              stop_event := stop_event st;
              trace := trace st ++ [EvConnect true] |}, Ok true)
      else
        _ ← emit (EvConnect false);
        _ ← set_sock None;
        mret false
  end.

(** [self.sock.sendall(data)] *)
Definition sendall (data : list byte) (net : net_script) : io unit :=
  s ← get_sock;
  match s with
  | None => raise AttributeError
  | Some c =>
      _ ← emit (EvSendall c data);
      if send_ok net then mret tt else raise OSError
  end.

(** The [while True] loop of [_send_pre_and_recv_hash]. *)
Fixpoint recv_loop (conn : nat) (script : list recv_outcome)
    (buf : list byte) : io (list byte) :=
  match script with
  | [] => raise OSError
  | got :: rest =>
      _ ← emit (EvRecv conn got);
      match got with
      | RecvFails => raise OSError
      | RecvBytes b =>
          match b with
          | [] => raise ConnectionError
          | _ :: _ =>
              let buf := buf ++ b in
              if has_newline b then mret buf
              else recv_loop conn rest buf
          end
      end
  end.

(** [self.sock.close()] inside its own [try/except: pass] *)
Definition close_quietly : io unit :=
  s ← get_sock;
  match s with
  | Some c => emit (EvClose c)
  | None => mret tt
  end.

(** The [try] block of [_send_pre_and_recv_hash]. *)
Definition query_body (preimage : pystr) (net : net_script)
    : io (option pystr) :=
  let data := preimage ++ lit (String "010"%char EmptyString) in
  bytes ← lift (Utf8.encode data);
  _ ← sendall bytes net;
  s ← get_sock;
  buf ← recv_loop (default O s) (recvs net) [];
  line ← lift (Utf8.decode (before_newline buf));
  mret (Some (strip line)).

(** Its [except Exception] block. *)
Definition drop_socket : io (option pystr) :=
  _ ← close_quietly;
  _ ← set_sock None;
  mret None.

Definition _send_pre_and_recv_hash (preimage : pystr) (net : net_script)
    : io (option pystr) :=
  ok ← _ensure_socket net;
  if negb ok then
    _ ← sleep 100;
    mret None
  else
    try_except (query_body preimage net) drop_socket.

(* ===================================================================== *)
(** * Search worker ([Worker.run]) *)
(* ===================================================================== *)

Definition NONCE_BATCH : nat := 1024.

(** What the world answers during one iteration of the batch loop:
    whether another thread has set the stop event, whether the deadline
    check [latest_ts and time.time() > latest_ts] holds, the entropy of
    [hex64_nonce], the network during the oracle query, and the outcome
    of the k-th POST of a submission. *)
Record iter_env : Type := IterEnv {
  ext_stop : bool;
  expired : bool;
  entropy : Z;
  net : net_script;
  posts : nat -> http_outcome
}.

Inductive ctl : Type := Continue | Break.

(** [post_solution]; the versions after py_miner.py also record the
    failure in the error log.  It catches every exception itself. *)
Definition post_solution (log_errors : bool) (address : pystr)
    (challenge_id : pyval) (nonce : pystr) (answer : http_outcome)
    : io (option Z) :=
  _ ← emit (EvPost address challenge_id nonce answer);
  match answer with
  | HttpStatus code => mret (Some code)
  | HttpFails =>
      _ ← (if log_errors then emit (EvLogError address challenge_id nonce)
           else mret tt);
      mret None
  end.

(** [sc == 201] *)
Definition is_201 (sc : option Z) : bool :=
  match sc with
  | Some code => code =? 201
  | None => false
  end.

Section BatchLoop.

(** What a worker does with a verified find when [submit_on_find] is
    set; the sources differ in this block only. *)
Variable submit_phase :
  pystr -> pyval -> pystr -> (nat -> http_outcome) -> io unit.

Variable address : pystr.
Variable submit_on_find : bool.
Variable challenge : gmap pystr pyval.
Variables difficulty challenge_id : pyval.

(** The body of [for _ in range(NONCE_BATCH)]. *)
Definition batch_body (env : iter_env) : io ctl :=
  stopped ← stop_event_is_set (ext_stop env);
  if stopped : bool then mret Break
  else if expired env then mret Break
  else
    let nonce := hex64_nonce (entropy env) in
    pre ← lift (build_preimage nonce address challenge);
    let request := pre_with_rom challenge pre in
    hash_hex ← _send_pre_and_recv_hash request (net env);
    _ ← emit (EvQuery request hash_hex);
    match hash_hex with
    | None =>
        _ ← sleep 10;
        mret Continue
    | Some h =>
        _ ← add_hashes 1;
        found ← lift (hash_meets_difficulty (PyStr h) difficulty);
        if found : bool then
          _ ← inc_solutions;
          _ ← (if submit_on_find
               then submit_phase address challenge_id nonce (posts env)
               else mret tt);
          _ ← sleep 500;
          mret Break
        else mret Continue
    end.

(** [n] iterations are left; the next one is the [i]-th. *)
Fixpoint batch_loop (n i : nat) (envs : nat -> iter_env) : io unit :=
  match n with
  | O => mret tt
  | S k =>
      c ← batch_body (envs i);
      match c with
      | Break => mret tt
      | Continue => batch_loop k (S i) envs
      end
  end.

End BatchLoop.

(** [k in c] *)
Fixpoint is_infix (k s : pystr) : bool :=
  bool_decide (take (length k) s = k)
  || match s with
     | [] => false
     | _ :: r => is_infix k r
     end.

Definition py_in (k : pystr) (c : pyval) : result bool :=
  match c with
  | PyDict d => Ok (bool_decide (is_Some (d !! k)))
  | PyStr s => Ok (is_infix k s)
  | PyNone | PyInt _ => Raise TypeError
  end.

(** [c[k]] with a string key *)
Definition py_getitem (c : pyval) (k : pystr) : result pyval :=
  match c with
  | PyDict d => dict_getitem d k
  | _ => Raise TypeError
  end.

Section Round.

Variable submit_phase :
  pystr -> pyval -> pystr -> (nat -> http_outcome) -> io unit.
Variable address : pystr.
Variable submit_on_find : bool.

(** One turn of [while not stop_event.is_set()], after the test of the
    loop: [current] is what [challenge_getter] returns.  The deadline
    is parsed here in the source; the model takes the outcome of each
    deadline check from the world.  (The worker of
    chayvottungaddresstheolist.py saves the current challenge to a CSV
    file before its first turn; files are outside the model.) *)
Definition run_round (current : pyval) (envs : nat -> iter_env) : io unit :=
  match current with
  | PyNone => sleep 500
  | _ =>
      active ← lift (py_in (lit "latest_submission") current);
      if negb active then sleep 500
      else
        difficulty ← lift (py_getitem current (lit "difficulty"));
        challenge_id ← lift (py_getitem current (lit "challenge_id"));
        _ ← lift (py_getitem current (lit "latest_submission"));
        match current with
        | PyDict challenge =>
            _ ← batch_loop submit_phase address submit_on_find challenge
                  difficulty challenge_id NONCE_BATCH 0 envs;
            sleep 1
        | _ => raise TypeError
        end
  end.

(** [run], the loop [while not stop_event.is_set()]: the rounds the
    world schedules, each with the challenge the getter returns,
    whether another thread set the stop event before the test of the
    loop, and the answers of its batch.  In
    chayvottungaddresstheolist.py the loop comes after a call of
    [self._fetch_and_save_challenge()] (a GET of the challenge and a
    line added to the CSV file), which is not part of this function. *)
Fixpoint run (rounds : list (bool * pyval * (nat -> iter_env))) : io unit :=
  match rounds with
  | [] => mret tt
  | (by_others, current, envs) :: rest =>
      stopped ← stop_event_is_set by_others;
      if stopped : bool then mret tt
      else
        _ ← run_round current envs;
        run rest
  end.

End Round.

(** ** The submission phase, per source file *)

(** py_miner.py: one POST, and the search goes on. *)
Module PyMiner.

Definition submit_phase (address : pystr) (challenge_id : pyval)
    (nonce : pystr) (posts : nat -> http_outcome) : io unit :=
  _ ← post_solution false address challenge_id nonce (posts O);
  mret tt.

End PyMiner.

(** py_miner1.py and fullmanualinput.py: one POST, stop on 201. *)
Module PyMiner1.

Definition submit_phase (address : pystr) (challenge_id : pyval)
    (nonce : pystr) (posts : nat -> http_outcome) : io unit :=
  sc ← post_solution true address challenge_id nonce (posts O);
  if is_201 sc then stop_event_set else mret tt.

End PyMiner1.

(** chayvottungaddresstheolist.py: up to three POSTs. *)
Module ChayVot.

(** The [try] block of the loop up to the assignment of [sc]: the new
    status, or nothing when the call raised. *)
Definition try_post (address : pystr) (challenge_id : pyval)
    (nonce : pystr) (answer : http_outcome) (st : wstate)
    : wstate * option (option Z) :=
  match post_solution true address challenge_id nonce answer st with
  | (st1, Ok sc1) => (st1, Some sc1)
  | (st1, Raise _) => (st1, None)
  end.

(** [while attempts < 3: ...]; [posts k] answers the k-th POST. *)
Equations submit_loop (address : pystr) (challenge_id : pyval)
    (nonce : pystr) (posts : nat -> http_outcome)
    (attempts : nat) (sc : option Z) (st : wstate)
    : wstate * option Z by wf (3 - attempts)%nat lt :=
  submit_loop address challenge_id nonce posts attempts sc st
    with le_lt_dec 3 attempts := {
    | left _ => (st, sc)
    | right _ =>
        match try_post address challenge_id nonce (posts attempts) st with
        | (st1, Some sc1) =>
            if is_201 sc1 then (fst (stop_event_set st1), sc1)
            else
              submit_loop address challenge_id nonce posts (S attempts) sc1
                (fst (sleep 1000 st1))
        | (st1, None) =>
            submit_loop address challenge_id nonce posts (S attempts) sc
              (fst (sleep 1000 st1))
        end }.
Next Obligation. lia. Qed.
Next Obligation. lia. Qed.

Definition submit_phase (address : pystr) (challenge_id : pyval)
    (nonce : pystr) (posts : nat -> http_outcome) : io unit := fun st =>
  let '(st1, sc) := submit_loop address challenge_id nonce posts 0 None st in
  if negb (is_201 sc) then stop_event_set st1 else (st1, Ok tt).

End ChayVot.

(* ===================================================================== *)
(** * Orchestrator *)
(* ===================================================================== *)

(** [v == "literal"] *)
Definition py_eq_lit (v : pyval) (s : string) : bool :=
  match v with
  | PyStr t => bool_decide (t = lit s)
  | _ => false
  end.

(** [all(k in c for k in keys)] *)
Fixpoint all_in (keys : list pystr) (c : pyval) : result bool :=
  match keys with
  | [] => Ok true
  | k :: rest =>
      b ← py_in k c;
      if b : bool then all_in rest c else Ok false
  end.

(** [sc != 200] *)
Definition is_200 (sc : option Z) : bool :=
  match sc with
  | Some code => code =? 200
  | None => false
  end.

(** py_miner.py.  The Challenge State is [self.current_challenge];
    [sc] and [resp] are what [safe_get_challenge] returned. *)
Module Orchestrator.

Definition required5 : list pystr :=
  [ lit "challenge_id"; lit "difficulty"; lit "no_pre_mine";
    lit "latest_submission"; lit "no_pre_mine_hour" ].

Definition required4 : list pystr :=
  [ lit "challenge_id"; lit "difficulty"; lit "no_pre_mine";
    lit "latest_submission" ].

(** [self.current_challenge.get("challenge_id") if
    self.current_challenge else None] *)
Definition current_id (current : pyval) : result pyval :=
  if py_not current then Ok PyNone
  else
    match current with
    | PyDict d => Ok (dict_get d (lit "challenge_id") PyNone)
    | _ => Raise AttributeError
    end.

(** Returns the new Challenge State and the value returned (or the
    exception that escapes).  The message printed for a new challenge
    id looks up keys that were just checked; only the lookup inside
    the comparison can raise, when [ch] is not a dictionary. *)
Definition refresh_challenge (sc : option Z) (resp : pyval)
    (current : pyval) : pyval * result bool :=
  match resp with
  | PyDict r =>
      if negb (is_200 sc) then (current, Ok false)
      else
        let code := dict_get r (lit "code") PyNone in
        if py_eq_lit code "before" || py_eq_lit code "after"
        then (PyNone, Ok false)
        else if negb (py_eq_lit code "active") then (PyNone, Ok false)
        else
          let ch := dict_get r (lit "challenge") (PyDict ∅) in
          match all_in required5 ch with
          | Raise e => (current, Raise e)
          | Ok false => (current, Ok false)
          | Ok true =>
              match (_ ← current_id current;
                     py_getitem ch (lit "challenge_id")) with
              | Raise e => (current, Raise e)
              | Ok _ => (ch, Ok true)
              end
          end
  | _ => (current, Ok false)
  end.

(** [run] up to [self.current_challenge = ch]: [Ok true] when the
    challenge was installed (the workers start next), [Ok false] when
    [run] returned early. *)
Definition run_startup (sc : option Z) (resp : pyval) (current : pyval)
    : pyval * result bool :=
  match resp with
  | PyDict r =>
      if negb (is_200 sc) then (current, Ok false)
      else if negb (py_eq_lit (dict_get r (lit "code") PyNone) "active")
      then (current, Ok false)
      else
        let ch := dict_get r (lit "challenge") (PyDict ∅) in
        match all_in required4 ch with
        | Raise e => (current, Raise e)
        | Ok false => (current, Ok false)
        | Ok true =>
            match (_ ← py_getitem ch (lit "challenge_id");
                   _ ← py_getitem ch (lit "difficulty");
                   py_getitem ch (lit "latest_submission")) with
            | Raise e => (current, Raise e)
            | Ok _ => (ch, Ok true)
            end
        end
  | _ => (current, Ok false)
  end.

End Orchestrator.

(** fullauto&workerrandom.py *)
Module FullAuto.

Definition TOTAL_NONCE_SPACE : Z := 2 ^ 64.

(** [random.randint(a, b)] for [a <= b], from the entropy drawn. *)
Definition randint (a b entropy : Z) : Z := a + entropy mod (b - a + 1).

(** The range given to worker [i]: [(start_nonce, end_nonce)]. *)
Definition worker_range (workers_count i entropy : Z) : Z * Z :=
  let chunk_size := TOTAL_NONCE_SPACE / workers_count in
  let start_nonce := i * chunk_size in
  let end_nonce :=
    if i =? workers_count - 1 then TOTAL_NONCE_SPACE
    else (i + 1) * chunk_size in
  let random_offset := randint 0 (chunk_size / 100) entropy in
  (start_nonce + random_offset, end_nonce).

(** [start_workers]: the ranges of the workers created, in order.
    [ThreadPoolExecutor] refuses a worker count below one. *)
Definition start_workers (workers_count : Z) (entropy : Z -> Z)
    : result (list (Z * Z)) :=
  if workers_count <=? 0 then Raise ValueError
  else
    Ok (map (fun i => worker_range workers_count i (entropy i))
            (seqZ 0 workers_count)).

(** [x] is one of the nonces of the range. *)
Definition in_range (x : Z) (r : Z * Z) : Prop := fst r <= x < snd r.

(** The class [Stats] of this file has these methods and no other. *)
Definition Stats_methods : list string :=
  [ "add_hashes"; "inc_solutions"; "snapshot"; "reset" ]%string.

Definition stats_call (method : string) (action : io unit) : io unit :=
  if bool_decide (method ∈ Stats_methods) then action
  else raise AttributeError.

(** The receive loop of [call_daemon_with_range]:
    [while not stop_event.is_set(): chunk = sock.recv(4096) ...].  Each
    turn comes with whether another thread has set the stop event; a
    script that runs out stands for the connection being reset. *)
Fixpoint recv_response (conn : nat) (script : list (bool * recv_outcome))
    (response_data : list byte) : io (list byte) :=
  match script with
  | [] => raise OSError
  | (by_others, got) :: rest =>
      stopped ← stop_event_is_set by_others;
      if stopped : bool then mret response_data
      else
        _ ← emit (EvRecv conn got);
        match got with
        | RecvFails => raise OSError
        | RecvBytes [] => mret response_data
        | RecvBytes chunk =>
            _ ← stats_call "increment_hashes" (add_hashes 1000);
            recv_response conn rest (response_data ++ chunk)
        end
  end.

Section CallDaemon.

(** [json.dumps] of the request and [json.loads] of the response. *)
Variable request_bytes : list byte.
Variable json_loads : list byte -> result pyval.

(** The socket is local to the call; [None] is Python's [None]. *)
Definition call_daemon_with_range (connects sends : bool)
    (script : list (bool * recv_outcome)) : io (option pyval) :=
  try_except
    (conn ← (fun st => (st, Ok (opened st)));
     _ ← emit (EvConnect connects);
     _ ← (if connects then mret tt else raise OSError);
     _ ← emit (EvSendall conn (request_bytes ++ [NEWLINE]));
     _ ← (if sends then mret tt else raise OSError);
     response_data ← recv_response conn script [];
     _ ← emit (EvClose conn);
     match response_data with
     | [] => mret None
     | _ :: _ => v ← lift (json_loads response_data); mret (Some v)
     end)
    (mret None).

End CallDaemon.

End FullAuto.

(** The three submission phases by source file. *)
Inductive source_file : Type :=
  | py_miner          (* py_miner.py *)
  | py_miner1         (* py_miner1.py, fullmanualinput.py *)
  | chayvot.          (* chayvottungaddresstheolist.py *)

Definition submit_phase_of (f : source_file)
    : pystr -> pyval -> pystr -> (nat -> http_outcome) -> io unit :=
  match f with
  | py_miner => PyMiner.submit_phase
  | py_miner1 => PyMiner1.submit_phase
  | chayvot => ChayVot.submit_phase
  end.

(* ===================================================================== *)
(** * Reading traces *)
(* ===================================================================== *)

(** Events that neither query the oracle nor touch the hash counter. *)
Definition neutral (e : event) : bool :=
  match e with
  | EvQuery _ _ | EvAddHashes _ => false
  | _ => true
  end.

(** The number of oracle queries that returned a line. *)
Fixpoint answered (evs : list event) : nat :=
  match evs with
  | [] => O
  | EvQuery _ (Some _) :: rest => S (answered rest)
  | _ :: rest => answered rest
  end.

(** The counting discipline: a query that returned a line is followed at
    once by [add_hashes(1)], a query that returned nothing is followed at
    once by the 10 ms backoff, and the counter is touched nowhere else. *)
Fixpoint counting_ok (evs : list event) : bool :=
  match evs with
  | [] => true
  | EvQuery _ (Some _) :: rest =>
      match rest with
      | EvAddHashes 1 :: rest' => counting_ok rest'
      | _ => false
      end
  | EvQuery _ None :: rest =>
      match rest with
      | EvSleep 10 :: rest' => counting_ok rest'
      | _ => false
      end
  | EvAddHashes _ :: _ => false
  | _ :: rest => counting_ok rest
  end.

(** The number of POSTs. *)
Fixpoint count_posts (evs : list event) : nat :=
  match evs with
  | [] => O
  | EvPost _ _ _ _ :: rest => S (count_posts rest)
  | _ :: rest => count_posts rest
  end.

(** [outcome] is the accepted answer, status 201. *)
Definition accepted (o : http_outcome) : bool :=
  match o with
  | HttpStatus code => code =? 201
  | HttpFails => false
  end.

(** The retry policy of chayvottungaddresstheolist.py in words: POST;
    on status 201 set the stop event and end; on anything else (another
    status, or no response, which is also logged) sleep one second and go
    on with the next answer. *)
Fixpoint retry_events (address : pystr) (challenge_id : pyval)
    (nonce : pystr) (outcomes : list http_outcome) : list event :=
  match outcomes with
  | [] => []
  | o :: rest =>
      EvPost address challenge_id nonce o ::
      (if accepted o then [EvStopSet]
       else
         (match o with
          | HttpFails => [EvLogError address challenge_id nonce]
          | HttpStatus _ => []
          end) ++ EvSleep 1000 :: retry_events address challenge_id nonce rest)
  end.

(** What follows the return of the oracle client in [batch_body]. *)
Definition after_query
    (submit_phase : pystr -> pyval -> pystr -> (nat -> http_outcome) -> io unit)
    (address : pystr) (submit_on_find : bool) (difficulty challenge_id : pyval)
    (env : iter_env) (nonce request : pystr) (hash_hex : option pystr)
    : io ctl :=
  _ ← emit (EvQuery request hash_hex);
  match hash_hex with
  | None =>
      _ ← sleep 10;
      mret Continue
  | Some h =>
      _ ← add_hashes 1;
      found ← lift (hash_meets_difficulty (PyStr h) difficulty);
      if found : bool then
        _ ← inc_solutions;
        _ ← (if submit_on_find
             then submit_phase address challenge_id nonce (posts env)
             else mret tt);
        _ ← sleep 500;
        mret Break
      else mret Continue
  end.

(** A chunk that does not end the read loop: not empty, no newline. *)
Definition partial_chunk (b : list byte) : Prop :=
  b <> [] /\ has_newline b = false.

(** The exchange that yields [line]: the request can be encoded and is
    sent, the daemon's chunks are not empty and have no newline until
    one has, and what was received before the first newline decodes to a
    string that [line] is the trimmed form of. *)
Definition answers (preimage : pystr) (net : net_script) (line : pystr)
    : Prop :=
  exists (data : list byte) (pre : list (list byte)) (last : list byte)
         (rest : list recv_outcome) (s : pystr),
    Utf8.encode (preimage ++ [10%N]) = Ok data
    /\ send_ok net = true
    /\ recvs net = map RecvBytes pre ++ RecvBytes last :: rest
    /\ Forall partial_chunk pre
    /\ has_newline last = true
    /\ Utf8.decode (before_newline (concat pre ++ last)) = Ok s
    /\ line = strip s.

(** The state once [_ensure_socket] has opened a connection. *)
Definition connected (st : wstate) : wstate :=
  {| sock := Some (opened st); opened := S (opened st);
     hashes := hashes st; solutions := solutions st;
     stop_event := stop_event st;
     trace := trace st ++ [EvConnect true] |}.

(* ===================================================================== *)
(** * Frames *)
(* ===================================================================== *)

(** [framed R m]: whatever the state, running [m] takes it to a state
    related to it by [R]. *)
Definition framed {A} (R : relation wstate) (m : io A) : Prop :=
  forall st, R st (fst (m st)).

(** The hash counter is left alone and only neutral events are added. *)
Definition quiet_rel : relation wstate := fun st st' =>
  hashes st' = hashes st /\
  exists evs, trace st' = trace st ++ evs /\ forallb neutral evs = true.

(** The events added follow the counting discipline and the hash counter
    grows by the number of answered queries. *)
Definition counted_rel : relation wstate := fun st st' =>
  exists evs,
    trace st' = trace st ++ evs /\
    counting_ok evs = true /\
    hashes st' = hashes st + Z.of_nat (answered evs).

(** The socket of the worker is left alone. *)
Definition sock_rel : relation wstate := fun st st' =>
  sock st' = sock st /\ opened st' = opened st.

Abbreviation quiet := (framed quiet_rel).
Abbreviation counted := (framed counted_rel).
Abbreviation keeps_sock := (framed sock_rel).

(** The ranges leave no nonce of the space out. *)
Definition covers (ranges : list (Z * Z)) : Prop :=
  forall x, 0 <= x < FullAuto.TOTAL_NONCE_SPACE ->
            exists r, r ∈ ranges /\ FullAuto.in_range x r.

(** Every key of [keys] is in the dictionary. *)
Definition has_keys (keys : list pystr) (d : gmap pystr pyval) : Prop :=
  forall k, k ∈ keys -> is_Some (d !! k).

(** ** Sample inputs *)

(** An active challenge with empty values and no [no_pre_mine_hour]. *)
Definition bare_challenge : gmap pystr pyval :=
  list_to_map
    [ (lit "challenge_id", PyStr []);
      (lit "difficulty", PyStr []);
      (lit "no_pre_mine", PyStr []);
      (lit "latest_submission", PyStr []) ].

Definition active_response (ch : gmap pystr pyval) : pyval :=
  PyDict (list_to_map [ (lit "code", PyStr (lit "active"));
                        (lit "challenge", PyDict ch) ]).

Definition sample_challenge : gmap pystr pyval :=
  list_to_map
    [ (lit "challenge_id", PyStr (lit "**D07C10"));
      (lit "difficulty", PyStr (lit "000FFFFF"));
      (lit "no_pre_mine", PyStr (lit "e8a195800b"));
      (lit "latest_submission", PyStr (lit "2025-10-19T08:59:59.000Z"));
      (lit "no_pre_mine_hour", PyStr (lit "509681483")) ].

(** The daemon answers [line] and then the newline, in two reads. *)
Definition answering (line : list byte) : net_script :=
  {| connect_ok := true; send_ok := true;
     recvs := [RecvBytes line; RecvBytes [NEWLINE]] |}.

Definition unreachable : net_script :=
  {| connect_ok := false; send_ok := false; recvs := [] |}.

(* ===================================================================== *)
(** * Further utilities of the sources *)
(* ===================================================================== *)

(** A digit as ["{:x}"] prints it: [0-9a-f]. *)
Definition is_lower_hex (c : N) : bool :=
  (((48 <=? c) && (c <=? 57)) || ((97 <=? c) && (c <=? 102)))%N.

(** [s.lstrip(chars)], [s.rstrip(chars)] and [s.strip(chars)]: the
    characters of [chars] are removed from the ends. *)
Fixpoint lstrip_chars (chars s : pystr) : pystr :=
  match s with
  | c :: r => if bool_decide (c ∈ chars) then lstrip_chars chars r else s
  | [] => []
  end.

Definition rstrip_chars (chars s : pystr) : pystr :=
  rev (lstrip_chars chars (rev s)).

Definition strip_chars (chars s : pystr) : pystr :=
  rstrip_chars chars (lstrip_chars chars s).


(* ===================================================================== *)
(** * Reading traces: the worker *)
(* ===================================================================== *)

(** The events of an exchange with the daemon: sending, receiving,
    closing, backing off; with the connection attempts they are the
    events of the oracle client. *)
Definition exchange (e : event) : bool :=
  match e with
  | EvSendall _ _ | EvRecv _ _ | EvClose _ | EvSleep _ => true
  | _ => false
  end.

Definition wire (e : event) : bool :=
  match e with
  | EvConnect _ => true
  | _ => exchange e
  end.

(** The events of the submission of [nonce] for [address] and
    [challenge_id]: the POSTs and the error-log entries carry these
    three, the sleeps are the one-second retry delay. *)
Definition submission_event (address : pystr) (challenge_id : pyval)
    (nonce : pystr) (e : event) : Prop :=
  match e with
  | EvPost a c n _ => a = address /\ c = challenge_id /\ n = nonce
  | EvLogError a c n => a = address /\ c = challenge_id /\ n = nonce
  | EvSleep ms => ms = 1000
  | EvStopSet => True
  | _ => False
  end.

(** Events a worker that does not submit never adds. *)
Definition submits (e : event) : bool :=
  match e with
  | EvPost _ _ _ _ | EvLogError _ _ _ | EvStopSet => true
  | _ => false
  end.

(** The number of verified finds, of oracle queries, of connection
    attempts, and of queries that returned nothing. *)
Fixpoint finds (evs : list event) : nat :=
  match evs with
  | [] => O
  | EvIncSolutions :: rest => S (finds rest)
  | _ :: rest => finds rest
  end.

Fixpoint queries (evs : list event) : nat :=
  match evs with
  | [] => O
  | EvQuery _ _ :: rest => S (queries rest)
  | _ :: rest => queries rest
  end.

Fixpoint connects (evs : list event) : nat :=
  match evs with
  | [] => O
  | EvConnect _ :: rest => S (connects rest)
  | _ :: rest => connects rest
  end.

Fixpoint unanswered (evs : list event) : nat :=
  match evs with
  | [] => O
  | EvQuery _ None :: rest => S (unanswered rest)
  | _ :: rest => unanswered rest
  end.

(** The most POSTs one find leads to. *)
Definition max_posts (f : source_file) : nat :=
  match f with
  | chayvot => 3
  | py_miner | py_miner1 => 1
  end.

(** [adds P]: the events added all satisfy [P]. *)
Definition adds (P : event -> Prop) : relation wstate := fun st st' =>
  exists evs, trace st' = trace st ++ evs /\ Forall P evs.

(** The stop event, once set, stays set. *)
Definition stop_kept : relation wstate := fun st st' =>
  stop_event st = true -> stop_event st' = true.

(** Whether the worker has no socket, as a number. *)
Definition no_sock (st : wstate) : nat :=
  match sock st with
  | Some _ => O
  | None => 1
  end.

(** The worker attempts a connection only when it has none: at its
    first query and after a query that returned nothing. *)
Definition conn_rel : relation wstate := fun st st' =>
  exists evs,
    trace st' = trace st ++ evs
    /\ (connects evs + no_sock st' <= no_sock st + unanswered evs)%nat.

(** The solutions counter is left alone. *)
Definition same_solutions : relation wstate := fun st st' =>
  solutions st' = solutions st.

(** [respects R P]: the relation [R] on states is a preorder that every
    primitive action of a worker goes along with, as long as the events
    it adds satisfy [P]. *)
Class respects (R : relation wstate) (P : event -> Prop) : Prop := {
  respects_preorder :: PreOrder R;
  respects_emit : forall e, P e -> framed R (emit e);
  respects_set_sock : forall s, framed R (set_sock s);
  respects_add_hashes : forall n, P (EvAddHashes n) -> framed R (add_hashes n);
  respects_inc_solutions : P EvIncSolutions -> framed R inc_solutions;
  respects_stop_event_set : P EvStopSet -> framed R stop_event_set;
  respects_stop_event_is_set : forall b, framed R (stop_event_is_set b);
  respects_connected : P (EvConnect true) -> forall st, R st (connected st)
}.

(** What the submission phase of each source adds to the trace, given
    the answers to its POSTs. *)
Definition submit_events (f : source_file) (address : pystr)
    (challenge_id : pyval) (nonce : pystr) (posts : nat -> http_outcome)
    : list event :=
  match f with
  | py_miner => [EvPost address challenge_id nonce (posts O)]
  | py_miner1 =>
      EvPost address challenge_id nonce (posts O) ::
      match posts O with
      | HttpFails => [EvLogError address challenge_id nonce]
      | HttpStatus code => if code =? 201 then [EvStopSet] else []
      end
  | chayvot =>
      let outcomes := [posts 0%nat; posts 1%nat; posts 2%nat] in
      retry_events address challenge_id nonce outcomes
      ++ (if existsb accepted outcomes then [] else [EvStopSet])
  end.

Definition is_stop_set (e : event) : bool :=
  match e with
  | EvStopSet => true
  | _ => false
  end.

Definition is_sleep (e : event) : bool :=
  match e with
  | EvSleep _ => true
  | _ => false
  end.

(** After the worker has set the stop event it only sleeps. *)
Fixpoint sleeps_after_stop (evs : list event) : bool :=
  match evs with
  | [] => true
  | EvStopSet :: rest => forallb is_sleep rest
  | _ :: rest => sleeps_after_stop rest
  end.

(** The events of the iteration of the batch loop that finds a nonce:
    the answered query, the two counters, the submission if the worker
    submits, and the half-second sleep. *)
Definition find_events (f : source_file) (address : pystr)
    (submit_on_find : bool) (challenge : gmap pystr pyval)
    (challenge_id : pyval) (env : iter_env) (pre h : pystr) : list event :=
  [EvQuery (pre_with_rom challenge pre) (Some h); EvAddHashes 1;
   EvIncSolutions]
  ++ (if submit_on_find
      then submit_events f address challenge_id
             (hex64_nonce (entropy env)) (posts env)
      else [])
  ++ [EvSleep 500].

(** A stretch of the trace with no find and no submission. *)
Definition plain (evs : list event) : Prop :=
  finds evs = O /\ Forall (fun e => submits e = false) evs.
(* ===================================================================== *)
(** * The range worker of fullauto&workerrandom.py ([Worker.run]) *)
(* ===================================================================== *)

Module RangeWorker.

Section Run.

(** [json.dumps(request).encode()] for the current challenge (every
value of [pyval] can be serialised), [json.loads], and what
[submit_solution] does with a challenge and a nonce. *)
Variable request_bytes : pyval -> list byte.
Variable json_loads : list byte -> result pyval.
Variable submit_solution : pyval -> pyval -> io unit.
Variable submit_on_find : bool.

(** What the daemon does during one call: whether the connection and
the send succeed, and the reads. *)
Definition daemon : Type := bool * bool * list (bool * recv_outcome).

(** The [try] block of the loop. *)
Definition attempt_body (challenge : pyval) (d : daemon) : io ctl :=
let '(connects, sends, script) := d in
response ← FullAuto.call_daemon_with_range (request_bytes challenge)
           json_loads connects sends script;
match response with
| None => mret Continue
| Some v =>
  if py_not v then mret Continue
  else
    has_nonce ← lift (py_in (lit "nonce") v);
    if has_nonce : bool then
      nonce_found ← lift (py_getitem v (lit "nonce"));
      _ ← FullAuto.stats_call "increment_solutions" inc_solutions;
      _ ← (if submit_on_find
           then submit_solution challenge nonce_found
           else mret tt);
      mret Break
    else mret Continue
end.

(** [try: ... except Exception: time.sleep(0.5)] *)
Definition attempt (challenge : pyval) (d : daemon) : io ctl :=
try_except (attempt_body challenge d) (_ ← sleep 500; mret Continue).

(** [while not stop_event.is_set(): ...], over the turns the world
schedules: whether another thread has set the stop event, what the
challenge getter returns, what the daemon does. *)
Fixpoint run (rounds : list (bool * pyval * daemon)) : io unit :=
match rounds with
| [] => mret tt
| (by_others, challenge, d) :: rest =>
  stopped ← stop_event_is_set by_others;
  if stopped : bool then mret tt
  else if py_not challenge then
    _ ← sleep 100;
    run rest
  else
    c ← attempt challenge d;
    match c with
    | Break => mret tt
    | Continue => run rest
    end
end.

End Run.

End RangeWorker.
(* ===================================================================== *)
(** * Challenges from a CSV file *)
(* ===================================================================== *)

(** What a function that may call [sys.exit] comes to. *)
Inductive outcome (A : Type) : Type :=
  | Returns (a : A)
  | Exits (code : Z).
Arguments Returns {A} a.
Arguments Exits {A} code.

(** [read_challenges_from_csv(csv_file)] of fullmanualinput.py, the
    version built on [csv.reader].  The file is given by the rows the
    reader yields, or by nothing when opening or reading it raises. *)
Module CsvReader.

(** [row[i].strip() if len(row) > i else dflt] *)
Definition field (row : list pystr) (i : nat) (dflt : pystr) : pystr :=
match row !! i with
| Some s => strip s
| None => dflt
end.

Definition row_challenge (row : list pystr) : gmap pystr pyval :=
list_to_map
  [ (lit "challenge_id", PyStr (field row 0 []));
    (lit "difficulty", PyStr (field row 1 []));
    (lit "no_pre_mine", PyStr (field row 2 []));
    (lit "no_pre_mine_hour", PyStr (field row 3 []));
    (lit "latest_submission",
     PyStr (field row 4 (lit "2099-12-31T23:59:59.000Z"))) ].

(** [challenge[k]] as a condition *)
Definition truthy (challenge : gmap pystr pyval) (k : pystr) : result bool :=
v ← dict_getitem challenge k;
Ok (negb (py_not v)).

(** [challenge["challenge_id"] and challenge["difficulty"] and
  challenge["no_pre_mine"]] *)
Definition valid (challenge : gmap pystr pyval) : result bool :=
a ← truthy challenge (lit "challenge_id");
if a : bool then
  b ← truthy challenge (lit "difficulty");
  if b : bool then truthy challenge (lit "no_pre_mine") else Ok false
else Ok false.

(** The [for row in reader] loop. *)
Fixpoint load_rows (rows : list (list pystr))
  : result (list (gmap pystr pyval)) :=
match rows with
| [] => Ok []
| row :: rest =>
    if (length row <? 5)%nat then load_rows rest
    else
      let challenge := row_challenge row in
      ok ← valid challenge;
      challenges ← load_rows rest;
      Ok (if ok : bool then challenge :: challenges else challenges)
end.

(** [next(reader)] raises [StopIteration] on a file without a line;
  every exception ends in [sys.exit(1)]. *)
Definition read_challenges_from_csv (file : option (list (list pystr)))
  : outcome (list (gmap pystr pyval)) :=
match file with
| None => Exits 1
| Some [] => Exits 1
| Some (header :: rows) =>
    match load_rows rows with
    | Ok challenges => Returns challenges
    | Raise _ => Exits 1
    end
end.

End CsvReader.

(** A challenge a row of the file was accepted for: the five fields
    are trimmed strings, the first three are not empty, and the preimage
    can be built. *)
Definition loaded (c : gmap pystr pyval) : Prop :=
  exists challenge_id difficulty no_pre_mine no_pre_mine_hour
         latest_submission,
    c !! lit "challenge_id" = Some (PyStr challenge_id)
    /\ c !! lit "difficulty" = Some (PyStr difficulty)
    /\ c !! lit "no_pre_mine" = Some (PyStr no_pre_mine)
    /\ c !! lit "no_pre_mine_hour" = Some (PyStr no_pre_mine_hour)
    /\ c !! lit "latest_submission" = Some (PyStr latest_submission)
    /\ challenge_id <> [] /\ difficulty <> [] /\ no_pre_mine <> []
    /\ Forall (fun s => strip s = s)
         [challenge_id; difficulty; no_pre_mine; no_pre_mine_hour;
          latest_submission]
    /\ forall nonce address,
         build_preimage nonce address c
         = Ok (nonce ++ address ++ challenge_id ++ difficulty
               ++ no_pre_mine ++ latest_submission ++ no_pre_mine_hour).

(** [read_challenges_from_csv(file_path, console)] of
    chayvottungaddresstheolist.py and fullauto&workerrandom.py, the
    version built on [csv.DictReader], and
    [remove_challenge_from_csv].  A row is given by the items of the
    dictionary the reader yields, in order; the key is [None] for the
    fields a row has beyond the header. *)
Module CsvDictReader.

(** What [k.strip(...)] trims the keys of: the double and the single
  quote, the byte-order mark U+FEFF and the space. *)
Definition KEY_TRIM : pystr := [34; 39; 0xFEFF; 32]%N.

(** [for k, v in row.items(): cleaned_row[k.strip(...)] = v] *)
Fixpoint clean_row (items : list (option pystr * pyval))
  (cleaned_row : gmap pystr pyval) : result (gmap pystr pyval) :=
match items with
| [] => Ok cleaned_row
| (Some k, v) :: rest =>
    clean_row rest (<[strip_chars KEY_TRIM k := v]> cleaned_row)
| (None, _) :: _ => Raise AttributeError
end.

Fixpoint clean_rows (rows : list (list (option pystr * pyval)))
  : result (list (gmap pystr pyval)) :=
match rows with
| [] => Ok []
| row :: rest =>
    cleaned_row ← clean_row row ∅;
    challenges ← clean_rows rest;
    Ok (cleaned_row :: challenges)
end.

(** An exception is logged and raised again; an empty result is a
  [ValueError]. *)
Definition read_challenges_from_csv
  (file : result (list (list (option pystr * pyval))))
  : result (list (gmap pystr pyval)) :=
rows ← file;
challenges ← clean_rows rows;
match challenges with
| [] => Raise ValueError
| _ :: _ => Ok challenges
end.

(** What [read_challenges_from_csv] makes of a row: the keys are
  trimmed, each value is a value of the row under the key it had
  before trimming, and of two items whose keys are trimmed to the same
  key the later one is kept. *)
Definition cleaned (items : list (option pystr * pyval))
  (c : gmap pystr pyval) : Prop :=
clean_row items ∅ = Ok c
/\ (forall k', is_Some (c !! k') ->
      strip_chars KEY_TRIM k' = k'
      /\ forall a, head k' = Some a \/ last k' = Some a -> a ∉ KEY_TRIM)
/\ (forall k' v, c !! k' = Some v ->
      exists k, In (Some k, v) items /\ strip_chars KEY_TRIM k = k')
/\ (forall before k v after,
      items = before ++ (Some k, v) :: after ->
      (forall k0 v0, In (Some k0, v0) after ->
                     strip_chars KEY_TRIM k0 <> strip_chars KEY_TRIM k) ->
      c !! strip_chars KEY_TRIM k = Some v).

(** [(r.get('challenge_id') or '').strip()] *)
Definition stripped_id (r : gmap pystr pyval) : result pystr :=
let v := dict_get r (lit "challenge_id") PyNone in
match (if py_not v then PyStr [] else v) with
| PyStr s => Ok (strip s)
| _ => Raise AttributeError
end.

(** Whether the row is one to remove. *)
Definition matches (challenge_id : pystr) (r : gmap pystr pyval) : bool :=
match stripped_id r with
| Ok id => bool_decide (id = challenge_id)
| Raise _ => false
end.

(** [[r for r in rows if (...).strip() != challenge_id]] *)
Fixpoint filter_rows (challenge_id : pystr) (rows : list (gmap pystr pyval))
  : result (list (gmap pystr pyval)) :=
match rows with
| [] => Ok []
| r :: rest =>
    id ← stripped_id r;
    filtered ← filter_rows challenge_id rest;
    Ok (if bool_decide (id = challenge_id) then filtered else r :: filtered)
end.

Definition fieldnames : list pystr :=
[ lit "challenge_id"; lit "difficulty"; lit "no_pre_mine";
  lit "no_pre_mine_hour"; lit "latest_submission" ].

(** [{k: (r.get(k) if r.get(k) is not None else '') for k in fieldnames}],
  as the list of its values. *)
Definition written_row (r : gmap pystr pyval) : list pyval :=
map (fun k => match dict_get r k PyNone with
              | PyNone => PyStr []
              | v => v
              end) fieldnames.

(** The rows written back under the header (nothing when the file is
  left as it was) and the value returned.  [written] tells whether
  writing the temporary file and replacing the file succeed. *)
Definition remove_challenge_from_csv (file : result (list (gmap pystr pyval)))
  (challenge_id : pystr) (written : bool)
  : option (list (list pyval)) * bool :=
match (rows ← file; filtered ← filter_rows challenge_id rows;
       Ok (rows, filtered)) with
| Raise _ => (None, false)
| Ok (rows, filtered) =>
    let removed := (length rows - length filtered)%nat in
    if written
    then (Some (map written_row filtered), (0 <? removed)%nat)
    else (None, false)
end.

End CsvDictReader.
(* ===================================================================== *)
(** * The builtins on sample inputs *)
(* ===================================================================== *)

Example int16_samples :
  map (fun s => py_int16 (PyStr (lit s)))
    ["ff"; " ff "; "0x_ff"; "0x__ff"; "_ff"; "ff_"; "f_f"; "0x"; "0X1f";
     "-ff"; "- ff"; "-0x1"; "0x-1"; ""; "0b1"; "0o7"; "0_0"; "00x1"]%string
  = [Ok 255; Ok 255; Ok 255; Raise ValueError; Raise ValueError;
     Raise ValueError; Ok 255; Raise ValueError; Ok 31; Ok (-255);
     Raise ValueError; Ok (-1); Raise ValueError; Raise ValueError;
     Ok 177; Raise ValueError; Ok 0; Raise ValueError].
Proof. vm_compute. reflexivity. Qed.

Example int16_unicode :
  map (fun s => py_int16 (PyStr s))
    [[0x1C; 102; 102]; [0x85; 102; 102]; [0xA0; 102; 102];
     [0xFF11; 0xFF12]; [0x663; 102]; [102; 0]; [102; 102; 0x3000];
     [0xB2]; [49; 127]]%N
  = [Raise ValueError; Ok 255; Ok 255; Ok 18; Ok 63; Raise ValueError;
     Ok 255; Raise ValueError; Raise ValueError].
Proof. vm_compute. reflexivity. Qed.

Example utf8_samples :
  Utf8.decode [x68; xc3; xa9; xe2; x82; xac; xf0; x9f; x98; x80]
    = Ok [104; 233; 0x20ac; 0x1f600]%N
  /\ Utf8.encode [104; 233; 0x20ac; 0x1f600]%N
    = Ok [x68; xc3; xa9; xe2; x82; xac; xf0; x9f; x98; x80]
  /\ Utf8.decode [xc0; x80] = Raise UnicodeError
  /\ Utf8.decode [xed; xa0; x80] = Raise UnicodeError
  /\ Utf8.decode [xe2; x82] = Raise UnicodeError
  /\ Utf8.encode [0xD800]%N = Raise UnicodeError.
Proof. vm_compute. repeat split. Qed.

Example strip_sample :
  strip ([32; 9] ++ lit "ab c" ++ [13; 10; 0x3000])%N = lit "ab c".
Proof. vm_compute. reflexivity. Qed.

Example hex64_nonce_samples :
  hex64_nonce 255 = lit "00000000000000ff"
  /\ hex64_nonce (-1) = lit "ffffffffffffffff"
  /\ hex64_nonce (2 ^ 64 + 0xABC) = lit "0000000000000abc".
Proof. vm_compute. repeat split. Qed.

(* ===================================================================== *)
(** * Properties of the difficulty verifier *)
(* ===================================================================== *)

Section Verifier.

(** The verifier on a string of at least eight characters: the two
    conversions of the [try] block decide alone. *)
Lemma hash_meets_difficulty_long (h : pystr) (d : pyval) :
  (8 <= length h)%nat ->
  hash_meets_difficulty (PyStr h) d =
    match py_int16 (PyStr (take 8 h)), py_int16 d with
    | Ok left4, Ok mask =>
        Ok (Z.land left4 (Z.land (Z.lnot mask) 0xFFFFFFFF) =? 0)
    | _, _ => Ok false
    end.
Proof.
  intros Hlen. unfold hash_meets_difficulty.
  destruct h as [|c h']; [simpl in Hlen; lia|].
  cbn [py_not py_len mbind result_bind].
  destruct (Z.ltb_spec (Z.of_nat (length (c :: h'))) 8) as [Hlt|_]; [lia|].
  cbn [py_prefix mbind result_bind].
  destruct (py_int16 (PyStr (take 8 (c :: h')))) as [l|e]; cbn; [|reflexivity].
  destruct (py_int16 d) as [m|e]; reflexivity.
Qed.

Lemma hash_meets_difficulty_short (h : pystr) (d : pyval) :
  (length h < 8)%nat -> hash_meets_difficulty (PyStr h) d = Ok false.
Proof.
  intros Hlen. unfold hash_meets_difficulty.
  destruct h as [|c h']; [reflexivity|].
  cbn [py_not py_len mbind result_bind].
  destruct (Z.ltb_spec (Z.of_nat (length (c :: h'))) 8) as [_|Hge];
    [reflexivity|lia].
Qed.

Lemma hash_meets_difficulty_None (d : pyval) :
  hash_meets_difficulty PyNone d = Ok false.
Proof. reflexivity. Qed.

(** On a string the verifier returns a boolean, whatever the
    difficulty value is. *)
Lemma hash_meets_difficulty_total (h : pystr) (d : pyval) :
  exists b, hash_meets_difficulty (PyStr h) d = Ok b.
Proof.
  destruct (le_lt_dec 8 (length h)) as [Hge|Hlt].
  - rewrite hash_meets_difficulty_long by exact Hge.
    destruct (py_int16 (PyStr (take 8 h))); [|eauto].
    destruct (py_int16 d); eauto.
  - rewrite hash_meets_difficulty_short by exact Hlt. eauto.
Qed.

(** ** The mask modulo 2^32 *)

Lemma lnot_land_ones (m : Z) :
  Z.land (Z.lnot m) 0xFFFFFFFF = 2 ^ 32 - 1 - m mod 2 ^ 32.
Proof.
  change 0xFFFFFFFF with (Z.ones 32).
  rewrite Z.land_ones by lia.
  unfold Z.lnot. symmetry.
  apply (Z.mod_unique_pos _ _ (- (m / 2 ^ 32) - 1)).
  - pose proof (Z.mod_pos_bound m (2 ^ 32) ltac:(lia)). lia.
  - pose proof (Z.div_mod m (2 ^ 32) ltac:(lia)). lia.
Qed.

Lemma mask_congruent (m1 m2 : Z) :
  m1 mod 2 ^ 32 = m2 mod 2 ^ 32 ->
  Z.land (Z.lnot m1) 0xFFFFFFFF = Z.land (Z.lnot m2) 0xFFFFFFFF.
Proof. intros H. rewrite !lnot_land_ones, H. reflexivity. Qed.

Lemma mask_all_ones (m : Z) :
  m mod 2 ^ 32 = 2 ^ 32 - 1 -> Z.land (Z.lnot m) 0xFFFFFFFF = 0.
Proof. intros H. rewrite lnot_land_ones, H. lia. Qed.

(** ** Strings of hexadecimal digits are literals of [int(_, 16)] *)

Ltac n_cases :=
  repeat match goal with
    | |- context [N.leb ?a ?b] => destruct (N.leb_spec a b)
    | |- context [N.ltb ?a ?b] => destruct (N.ltb_spec a b)
    | |- context [N.eqb ?a ?b] => destruct (N.eqb_spec a b)
    | H : context [N.leb ?a ?b] |- _ => destruct (N.leb_spec a b)
    | H : context [N.ltb ?a ?b] |- _ => destruct (N.ltb_spec a b)
    end;
  cbn in *; try congruence; try lia.

Lemma hex_digit_facts (c : N) :
  is_hex_digit c = true ->
  (c <? 128)%N = true /\ (c =? 95)%N = false /\
  (PyLong.DigitValue c <? 16)%N = true /\
  PyLong.Py_ISSPACE c = false /\ (c =? 43)%N = false /\
  (c =? 45)%N = false /\ (c =? 120)%N = false /\ (c =? 88)%N = false.
Proof.
  unfold is_hex_digit, PyLong.DigitValue, PyLong.Py_ISSPACE. intros H.
  repeat split; n_cases.
Qed.

Lemma scan_hex_digits (s : pystr) (n : nat) (acc : Z) :
  forallb is_hex_digit s = true ->
  PyLong.scan_digits 16 false n acc s =
    Some (fold_left (fun a c => a * 16 + Z.of_N (PyLong.DigitValue c)) s acc,
          (n + length s)%nat, []).
Proof.
  revert n acc. induction s as [|c s IH]; intros n acc Hs; cbn.
  - f_equal. f_equal. f_equal. lia.
  - cbn in Hs. apply andb_true_iff in Hs as [Hc Hs].
    destruct (hex_digit_facts c Hc) as (_ & Hu & Hd & _).
    rewrite Hu, Hd, IH by exact Hs.
    f_equal. f_equal. f_equal. lia.
Qed.

Lemma parse16_hex_digits (s : pystr) :
  s <> [] -> forallb is_hex_digit s = true ->
  py_int16 (PyStr s) = Ok (hex_value s).
Proof.
  intros Hne Hs. unfold py_int16, PyLong.parse16.
  assert (Hascii : forallb (fun c => (c <? 128)%N) s = true).
  { clear Hne. induction s as [|c s IH]; [reflexivity|]. cbn in *.
    apply andb_true_iff in Hs as [Hc Hs].
    destruct (hex_digit_facts c Hc) as (-> & _). cbn. auto. }
  unfold PyLong.TransformDecimalAndSpaceToASCII. rewrite Hascii.
  destruct s as [|c s]; [congruence|].
  pose proof Hs as Hall. cbn in Hs.
  apply andb_true_iff in Hs as [Hc Hs].
  destruct (hex_digit_facts c Hc) as (_ & Hu & _ & Hsp & Hplus & Hminus & _).
  unfold PyLong.PyLong_FromString16.
  cbn [PyLong.skip_space]. rewrite Hsp.
  cbn [PyLong.skip_sign]. rewrite Hplus, Hminus.
  assert (Hpre : PyLong.skip_prefix16 (c :: s) = c :: s).
  { destruct s as [|c1 s]; [reflexivity|]. cbn in Hs.
    apply andb_true_iff in Hs as [Hc1 _].
    destruct (hex_digit_facts c1 Hc1) as (_ & _ & _ & _ & _ & _ & Hx & HX).
    cbn. rewrite Hx, HX. cbn. rewrite andb_false_r. reflexivity. }
  rewrite Hpre. cbn [PyLong.starts_with_underscore]. rewrite Hu.
  rewrite scan_hex_digits by exact Hall.
  cbn [length Nat.add PyLong.skip_space]. reflexivity.
Qed.

Lemma hex_value_bounds (s : pystr) :
  forallb is_hex_digit s = true ->
  0 <= hex_value s < 16 ^ Z.of_nat (length s).
Proof.
  unfold hex_value. intros Hs.
  enough (H : forall acc k, 0 <= acc < 16 ^ k -> 0 <= k ->
    0 <= fold_left (fun a c => a * 16 + Z.of_N (PyLong.DigitValue c)) s acc
      < 16 ^ (k + Z.of_nat (length s))).
  { apply (H 0 0); lia. }
  induction s as [|c s IH]; intros acc k Hacc Hk; cbn [fold_left length].
  - rewrite Z.add_0_r. exact Hacc.
  - cbn in Hs. apply andb_true_iff in Hs as [Hc Hs].
    destruct (hex_digit_facts c Hc) as (_ & _ & Hd & _).
    apply N.ltb_lt in Hd.
    replace (k + Z.of_nat (S (length s))) with ((k + 1) + Z.of_nat (length s))
      by lia.
    apply IH; [exact Hs| |lia].
    rewrite Z.pow_add_r, Z.pow_1_r by lia. lia.
Qed.

End Verifier.

(* ===================================================================== *)
(** * The verifier: what the specification says *)
(* ===================================================================== *)

(** C1 (as the code has it).  For a hash whose first eight characters
    convert with [int(_, 16)] to [left4] and a difficulty that converts
    to [mask], [hash_meets_difficulty] returns whether
    [left4 & (~mask & 0xFFFFFFFF)] is zero.  With the mask ["ffff0000"]
    the low sixteen bits of the prefix must be zero: the prefixes
    [0000abcd] and [0001abcd] are both refused, [abcd0000] is accepted. *)
Theorem hash_meets_difficulty_mask_test
    (h rest : pystr) (d : pyval) (left4 mask : Z) :
  (8 <= length h)%nat ->
  py_int16 (PyStr (take 8 h)) = Ok left4 ->
  py_int16 d = Ok mask ->
  hash_meets_difficulty (PyStr h) d
    = Ok (Z.land left4 (Z.land (Z.lnot mask) 0xFFFFFFFF) =? 0)
  /\ hash_meets_difficulty (PyStr (lit "0000abcd" ++ rest))
       (PyStr (lit "ffff0000")) = Ok false
  /\ hash_meets_difficulty (PyStr (lit "0001abcd" ++ rest))
       (PyStr (lit "ffff0000")) = Ok false
  /\ hash_meets_difficulty (PyStr (lit "abcd0000" ++ rest))
       (PyStr (lit "ffff0000")) = Ok true.
Proof.
  intros Hlen Hh Hd. split.
  - rewrite hash_meets_difficulty_long by exact Hlen.
    rewrite Hh, Hd. reflexivity.
  - repeat split;
      (rewrite hash_meets_difficulty_long
         by (rewrite length_app; cbn; lia));
      vm_compute; reflexivity.
Qed.

Lemma hash_meets_difficulty_mask_test_witness :
  hash_meets_difficulty (PyStr (lit "ab00cd009a1b")) (PyStr (lit "ff00ff00"))
    = Ok true.
Proof.
  destruct (hash_meets_difficulty_mask_test
              (lit "ab00cd009a1b") [] (PyStr (lit "ff00ff00"))
              0xab00cd00 0xff00ff00) as [H _].
  - cbn. lia.
  - vm_compute. reflexivity.
  - vm_compute. reflexivity.
  - rewrite H. reflexivity.
Defined.

(** With the mask ["ffff0000"] a hash that starts with [0000abcd],
    which the specification expects to be accepted, is refused. *)
Lemma mask_ffff0000_refuses_0000abcd :
  hash_meets_difficulty
    (PyStr (lit "0000abcd5e6f70819293a4b5c6d7e8f9"))
    (PyStr (lit "ffff0000")) = Ok false.
Proof. vm_compute. reflexivity. Qed.

(** C7.  On [None], on a string shorter than eight characters, on a
    string whose first eight characters are no hexadecimal literal, and
    on every difficulty that [int(_, 16)] refuses (no string, empty, not
    hexadecimal), [hash_meets_difficulty] returns [False]; it raises
    nothing. *)
Theorem hash_meets_difficulty_malformed (hash_hex difficulty_hex : pyval) :
  hash_hex = PyNone
  \/ (exists h, hash_hex = PyStr h /\
        ((length h < 8)%nat
         \/ (exists e, py_int16 (PyStr (take 8 h)) = Raise e)
         \/ (exists e, py_int16 difficulty_hex = Raise e))) ->
  hash_meets_difficulty hash_hex difficulty_hex = Ok false.
Proof.
  intros [-> | (h & -> & Hbad)]; [reflexivity|].
  destruct (le_lt_dec 8 (length h)) as [Hge|Hlt].
  - rewrite hash_meets_difficulty_long by exact Hge.
    destruct Hbad as [Hlt | [[e He] | [e He]]]; [lia| |].
    + rewrite He. reflexivity.
    + rewrite He. destruct (py_int16 (PyStr (take 8 h))); reflexivity.
  - apply hash_meets_difficulty_short, Hlt.
Qed.

Lemma hash_meets_difficulty_malformed_witness :
  hash_meets_difficulty (PyStr (lit "0000zzzz00000000")) (PyStr (lit "ffffffff"))
    = Ok false
  /\ hash_meets_difficulty (PyStr (lit "0000000000000000")) PyNone = Ok false
  /\ hash_meets_difficulty (PyStr (lit "0000000000000000")) (PyStr []) = Ok false
  /\ hash_meets_difficulty (PyStr (lit "0000000")) (PyStr (lit "ffffffff"))
    = Ok false
  /\ hash_meets_difficulty (PyStr []) (PyStr (lit "ffffffff")) = Ok false.
Proof.
  split; [|split; [|split; [|split]]];
    apply hash_meets_difficulty_malformed; right.
  - exists (lit "0000zzzz00000000"). split; [reflexivity|].
    right; left. exists ValueError. vm_compute. reflexivity.
  - exists (lit "0000000000000000"). split; [reflexivity|].
    right; right. exists TypeError. reflexivity.
  - exists (lit "0000000000000000"). split; [reflexivity|].
    right; right. exists ValueError. vm_compute. reflexivity.
  - exists (lit "0000000"). split; [reflexivity|]. left. cbn. lia.
  - exists []. split; [reflexivity|]. left. cbn. lia.
Defined.

(** C10.  The result depends on the first eight characters of the hash
    only and on the difficulty value modulo 2^32 only; a difficulty of
    hexadecimal digits is converted whatever its length; and a
    difficulty whose low 32 bits are all ones accepts every hash whose
    prefix converts. *)
Theorem hash_meets_difficulty_low_bits :
  (forall (h1 h2 : pystr) (d : pyval),
      (8 <= length h1)%nat -> (8 <= length h2)%nat ->
      take 8 h1 = take 8 h2 ->
      hash_meets_difficulty (PyStr h1) d = hash_meets_difficulty (PyStr h2) d)
  /\ (forall (h : pystr) (d1 d2 : pyval) (m1 m2 : Z),
      py_int16 d1 = Ok m1 -> py_int16 d2 = Ok m2 ->
      m1 mod 2 ^ 32 = m2 mod 2 ^ 32 ->
      hash_meets_difficulty (PyStr h) d1 = hash_meets_difficulty (PyStr h) d2)
  /\ (forall (d : pystr),
      d <> [] -> forallb is_hex_digit d = true ->
      py_int16 (PyStr d) = Ok (hex_value d))
  /\ (forall (h : pystr) (d : pyval) (left4 m : Z),
      (8 <= length h)%nat ->
      py_int16 (PyStr (take 8 h)) = Ok left4 ->
      py_int16 d = Ok m ->
      m mod 2 ^ 32 = 2 ^ 32 - 1 ->
      hash_meets_difficulty (PyStr h) d = Ok true).
Proof.
  repeat split.
  - intros h1 h2 d H1 H2 Heq.
    rewrite !hash_meets_difficulty_long, Heq by assumption. reflexivity.
  - intros h d1 d2 m1 m2 Hd1 Hd2 Hm.
    destruct (le_lt_dec 8 (length h)) as [Hge|Hlt].
    + rewrite !hash_meets_difficulty_long, Hd1, Hd2 by assumption.
      rewrite (mask_congruent m1 m2 Hm). reflexivity.
    + rewrite !hash_meets_difficulty_short by assumption. reflexivity.
  - intros d Hne Hd. apply parse16_hex_digits; assumption.
  - intros h d left4 m Hlen Hh Hd Hm.
    rewrite hash_meets_difficulty_long, Hh, Hd by assumption.
    rewrite (mask_all_ones m Hm), Z.land_0_r. reflexivity.
Qed.

Lemma hash_meets_difficulty_low_bits_witness :
  hash_meets_difficulty (PyStr (lit "12345678aaaa")) (PyStr (lit "0f0f"))
    = hash_meets_difficulty (PyStr (lit "12345678bbbbbbbb")) (PyStr (lit "0f0f"))
  /\ hash_meets_difficulty (PyStr (lit "0000f0f0aaaa")) (PyStr (lit "0000ffff"))
    = hash_meets_difficulty (PyStr (lit "0000f0f0aaaa")) (PyStr (lit "7b0000ffff"))
  /\ py_int16 (PyStr (lit "7b0000ffff")) = Ok 0x7b0000ffff
  /\ hash_meets_difficulty (PyStr (lit "deadbeef0000")) (PyStr (lit "1ffffffff"))
    = Ok true.
Proof.
  destruct hash_meets_difficulty_low_bits as (Hprefix & Hmod & Hhex & Hones).
  split; [|split; [|split]].
  - apply Hprefix; [cbn; lia | cbn; lia | reflexivity].
  - apply (Hmod _ _ _ 0x0000ffff 0x7b0000ffff);
      [vm_compute; reflexivity | vm_compute; reflexivity | reflexivity].
  - rewrite (Hhex (lit "7b0000ffff")); [reflexivity | discriminate | reflexivity].
  - apply (Hones _ _ 0xdeadbeef 0x1ffffffff);
      [cbn; lia | vm_compute; reflexivity | vm_compute; reflexivity
      | reflexivity].
Defined.

(* ===================================================================== *)
(** * Framing: what a piece of worker code leaves alone *)
(* ===================================================================== *)

Lemma answered_app (evs1 evs2 : list event) :
  answered (evs1 ++ evs2) = (answered evs1 + answered evs2)%nat.
Proof.
  induction evs1 as [|e evs1 IH]; [reflexivity|].
  destruct e as [| | | | |? [?|]| | | | |]; simpl; rewrite ?IH; reflexivity.
Qed.

Lemma neutral_answered (evs : list event) :
  forallb neutral evs = true -> answered evs = O.
Proof.
  induction evs as [|e evs IH]; [reflexivity|]. cbn [forallb].
  intros [He Hevs]%andb_true_iff. destruct e; try discriminate; cbn; auto.
Qed.

Lemma neutral_counting_ok (evs : list event) :
  forallb neutral evs = true -> counting_ok evs = true.
Proof.
  induction evs as [|e evs IH]; [reflexivity|]. cbn [forallb].
  intros [He Hevs]%andb_true_iff. destruct e; try discriminate; cbn; auto.
Qed.

Lemma neutral_not_query (evs : list event) (request : pystr)
    (response : option pystr) :
  forallb neutral evs = true -> ~ In (EvQuery request response) evs.
Proof.
  intros Hn Hin. rewrite forallb_forall in Hn. apply Hn in Hin. discriminate.
Qed.

(** Two disciplined traces in a row are disciplined. *)
Lemma counting_ok_app (evs1 evs2 : list event) :
  counting_ok evs1 = true -> counting_ok evs2 = true ->
  counting_ok (evs1 ++ evs2) = true.
Proof.
  intros H1 H2. remember (length evs1) as n eqn:Hn.
  revert evs1 Hn H1.
  induction n as [n IH] using lt_wf_ind. intros evs1 Hn H1.
  destruct evs1 as [|e rest]; [exact H2|].
  assert (Hrest : counting_ok rest = true -> counting_ok (rest ++ evs2) = true).
  { apply (IH (length rest)); [subst n; cbn; lia | reflexivity]. }
  destruct e as [| | | | |req [h|]| | | | |]; cbn in H1 |- *; auto;
    try discriminate.
  - repeat match type of H1 with
           | context [match ?x with _ => _ end] =>
               destruct x; try discriminate
           end.
    cbn. apply (IH (length rest)); [subst n; cbn; lia | reflexivity | exact H1].
  - repeat match type of H1 with
           | context [match ?x with _ => _ end] =>
               destruct x; try discriminate
           end.
    cbn. apply (IH (length rest)); [subst n; cbn; lia | reflexivity | exact H1].
Qed.

Global Instance quiet_rel_preorder : PreOrder quiet_rel.
Proof.
  split.
  - intros st. split; [reflexivity|]. exists []. by rewrite app_nil_r.
  - intros st1 st2 st3 (Hh & evs & Ht & Hn) (Hh' & evs' & Ht' & Hn').
    split; [congruence|]. exists (evs ++ evs').
    rewrite Ht', Ht, app_assoc, forallb_app, Hn, Hn'. done.
Qed.

Global Instance counted_rel_preorder : PreOrder counted_rel.
Proof.
  split.
  - intros st. exists []. rewrite app_nil_r. cbn. repeat split; lia.
  - intros st1 st2 st3 (evs & Ht & Hc & Hh) (evs' & Ht' & Hc' & Hh').
    exists (evs ++ evs').
    rewrite Ht', Ht, app_assoc, answered_app, Hh', Hh.
    split; [reflexivity|]. split; [by apply counting_ok_app|]. lia.
Qed.

Global Instance sock_rel_preorder : PreOrder sock_rel.
Proof.
  split.
  - intros st. split; reflexivity.
  - intros st1 st2 st3 [H1 H2] [H3 H4]. split; congruence.
Qed.

(** What is quiet is counted. *)
Lemma quiet_counted {A} (m : io A) : quiet m -> counted m.
Proof.
  intros Hm st. destruct (Hm st) as (Hh & evs & Ht & Hn).
  exists evs. split; [exact Ht|]. split; [by apply neutral_counting_ok|].
  rewrite Hh, neutral_answered by exact Hn. cbn. lia.
Qed.

Section Framed.

Context {A B : Type} (R : relation wstate) `{!PreOrder R}.

Lemma framed_ret (a : A) : framed R (mret a : io A).
Proof. intros st. reflexivity. Qed.

Lemma framed_raise (e : exn) : framed R (raise e : io A).
Proof. intros st. reflexivity. Qed.

Lemma framed_lift (r : result A) : framed R (lift r).
Proof. intros st. reflexivity. Qed.

Lemma framed_bind (m : io A) (k : A -> io B) :
  framed R m -> (forall a, framed R (k a)) -> framed R (m ≫= k).
Proof.
  intros Hm Hk st. unfold mbind, io_bind.
  pose proof (Hm st) as H1.
  destruct (m st) as [st1 [a|e]]; cbn [fst] in *; [|exact H1].
  etransitivity; [exact H1 | apply Hk].
Qed.

Lemma framed_try_except (body handler : io A) :
  framed R body -> framed R handler -> framed R (try_except body handler).
Proof.
  intros Hb Hh st. unfold try_except.
  pose proof (Hb st) as H1.
  destruct (body st) as [st1 [a|e]]; cbn [fst] in *; [exact H1|].
  etransitivity; [exact H1 | apply Hh].
Qed.

End Framed.

Lemma framed_get_sock (R : relation wstate) `{!PreOrder R} : framed R get_sock.
Proof. intros st. reflexivity. Qed.

Lemma quiet_emit (e : event) : neutral e = true -> quiet (emit e).
Proof.
  intros He st. split; [reflexivity|]. exists [e]. cbn. by rewrite He.
Qed.

Lemma quiet_sleep (ms : Z) : quiet (sleep ms).
Proof. by apply quiet_emit. Qed.

Lemma quiet_set_sock (s : option nat) : quiet (set_sock s).
Proof. intros st. split; [reflexivity|]. exists []. cbn. by rewrite app_nil_r. Qed.

Lemma quiet_inc_solutions : quiet inc_solutions.
Proof. intros st. split; [reflexivity|]. by exists [EvIncSolutions]. Qed.

Lemma quiet_stop_event_set : quiet stop_event_set.
Proof. intros st. split; [reflexivity|]. by exists [EvStopSet]. Qed.

Lemma quiet_stop_event_is_set (by_others : bool) :
  quiet (stop_event_is_set by_others).
Proof. intros st. split; [reflexivity|]. exists []. cbn. by rewrite app_nil_r. Qed.

Lemma keeps_sock_emit (e : event) : keeps_sock (emit e).
Proof. intros st. split; reflexivity. Qed.

Lemma keeps_sock_sleep (ms : Z) : keeps_sock (sleep ms).
Proof. apply keeps_sock_emit. Qed.

Create HintDb frame.

#[global] Hint Resolve framed_ret framed_raise framed_lift framed_get_sock
  quiet_sleep quiet_set_sock quiet_inc_solutions quiet_stop_event_set
  quiet_stop_event_is_set keeps_sock_emit keeps_sock_sleep : frame.

(** Runs the monadic plumbing of a piece of straight-line code. *)
Ltac io_run :=
  unfold mbind, io_bind, mret, io_ret, sleep, emit, add_hashes,
    inc_solutions, stop_event_set, lift, raise, get_sock, set_sock;
  cbn.

(** Walks through a piece of code written with binds, conditionals and
    matches. *)
Ltac frame_steps :=
  repeat first
    [ progress auto with frame typeclass_instances
    | apply framed_bind; [typeclasses eauto| |intros ?]
    | apply framed_try_except; [typeclasses eauto| |]
    | apply quiet_emit; reflexivity
    | match goal with
      | |- framed _ (if ?b then _ else _) => destruct b
      | |- framed _ (match ?x with _ => _ end) => destruct x
      end ].

Lemma quiet_ensure_socket (net : net_script) : quiet (_ensure_socket net).
Proof.
  unfold _ensure_socket. apply framed_bind;
    [typeclasses eauto|auto with frame typeclass_instances|].
  intros [c|]; [auto with frame typeclass_instances|].
  destruct (connect_ok net); [|frame_steps].
  intros st. split; [reflexivity|]. by exists [EvConnect true].
Qed.

Lemma framed_sendall (R : relation wstate) `{!PreOrder R}
    (data : list byte) (net : net_script) :
  (forall e, framed R (emit e)) -> framed R (sendall data net).
Proof. intros He. unfold sendall. frame_steps; apply He. Qed.

Lemma framed_recv_loop (R : relation wstate) `{!PreOrder R}
    (conn : nat) (script : list recv_outcome) (buf : list byte) :
  (forall e, framed R (emit e)) -> framed R (recv_loop conn script buf).
Proof.
  intros He. revert buf.
  induction script as [|got rest IH]; intros buf; cbn [recv_loop].
  - auto with frame typeclass_instances.
  - apply framed_bind; [typeclasses eauto|apply He|]. intros _.
    destruct got as [[|c b]|]; auto with frame typeclass_instances.
    destruct (has_newline (c :: b)); auto with frame typeclass_instances.
Qed.

Lemma quiet_sendall (data : list byte) (net : net_script) :
  quiet (sendall data net).
Proof. unfold sendall. frame_steps. Qed.

Lemma quiet_recv_loop (conn : nat) (script : list recv_outcome)
    (buf : list byte) : quiet (recv_loop conn script buf).
Proof.
  revert buf. induction script as [|got rest IH]; intros buf; cbn [recv_loop].
  - auto with frame typeclass_instances.
  - apply framed_bind; [typeclasses eauto|by apply quiet_emit|]. intros _.
    destruct got as [[|c b]|]; auto with frame typeclass_instances.
    destruct (has_newline (c :: b)); auto with frame typeclass_instances.
Qed.

Lemma quiet_close_quietly : quiet close_quietly.
Proof. unfold close_quietly. frame_steps. Qed.

#[global] Hint Resolve quiet_ensure_socket quiet_sendall quiet_recv_loop
  quiet_close_quietly : frame.

Lemma quiet_query_body (preimage : pystr) (net : net_script) :
  quiet (query_body preimage net).
Proof. unfold query_body. frame_steps. Qed.

Lemma keeps_sock_sendall (data : list byte) (net : net_script) :
  keeps_sock (sendall data net).
Proof. apply framed_sendall; [typeclasses eauto|apply keeps_sock_emit]. Qed.

Lemma keeps_sock_recv_loop (conn : nat) (script : list recv_outcome)
    (buf : list byte) : keeps_sock (recv_loop conn script buf).
Proof. apply framed_recv_loop; [typeclasses eauto|apply keeps_sock_emit]. Qed.

#[global] Hint Resolve keeps_sock_sendall keeps_sock_recv_loop : frame.

Lemma keeps_sock_query_body (preimage : pystr) (net : net_script) :
  keeps_sock (query_body preimage net).
Proof. unfold query_body. frame_steps. Qed.

Lemma quiet_drop_socket : quiet drop_socket.
Proof. unfold drop_socket. frame_steps. Qed.

#[global] Hint Resolve quiet_query_body quiet_drop_socket : frame.

Lemma quiet_send_pre_and_recv_hash (preimage : pystr) (net : net_script) :
  quiet (_send_pre_and_recv_hash preimage net).
Proof. unfold _send_pre_and_recv_hash. frame_steps. Qed.

Lemma quiet_post_solution (log : bool) (address : pystr)
    (challenge_id : pyval) (nonce : pystr) (answer : http_outcome) :
  quiet (post_solution log address challenge_id nonce answer).
Proof. unfold post_solution. frame_steps. Qed.

#[global] Hint Resolve quiet_send_pre_and_recv_hash quiet_post_solution
  : frame.

(* ===================================================================== *)
(** * The oracle client *)
(* ===================================================================== *)

Lemma bind_emit {A} (e : event) (k : unit -> io A) (st : wstate) :
  (emit e ≫= k) st = k tt (fst (emit e st)).
Proof. reflexivity. Qed.

Section RecvLoop.

Variable conn : nat.

(** The loop returns exactly when a chunk with a newline arrives after
    chunks that are not empty and have none. *)
Lemma recv_loop_ok (script : list recv_outcome) (buf out : list byte)
    (st : wstate) :
  snd (recv_loop conn script buf st) = Ok out ->
  exists pre last rest,
    script = map RecvBytes pre ++ RecvBytes last :: rest
    /\ Forall partial_chunk pre
    /\ has_newline last = true
    /\ out = buf ++ concat pre ++ last.
Proof.
  revert buf st. induction script as [|got script IH]; intros buf st;
    cbn [recv_loop]; [discriminate|].
  rewrite bind_emit.
  destruct got as [[|c b]|]; try discriminate.
  destruct (has_newline (c :: b)) eqn:Hnl.
  - intros [= <-]. exists [], (c :: b), script. repeat split; auto.
  - intros H. apply IH in H as (pre & last & rest & -> & Hpre & Hlast & ->).
    exists ((c :: b) :: pre), last, rest. repeat split; auto.
    + constructor; [split; [discriminate|exact Hnl]|exact Hpre].
    + cbn [concat]. rewrite <- !app_assoc. reflexivity.
Qed.

Lemma recv_loop_complete (pre : list (list byte)) (last : list byte)
    (rest : list recv_outcome) (buf : list byte) (st : wstate) :
  Forall partial_chunk pre -> has_newline last = true ->
  snd (recv_loop conn (map RecvBytes pre ++ RecvBytes last :: rest) buf st)
    = Ok (buf ++ concat pre ++ last).
Proof.
  intros Hpre Hlast. revert buf st.
  induction Hpre as [|b pre [Hne Hnl] Hpre IH]; intros buf st;
    cbn [map app recv_loop concat]; rewrite bind_emit.
  - destruct last as [|c last]; [discriminate|]. rewrite Hlast. reflexivity.
  - destruct b as [|c b]; [congruence|]. rewrite Hnl, IH, <- !app_assoc.
    reflexivity.
Qed.

(** A zero-length read, the peer having closed the stream, raises. *)
Lemma recv_loop_closed (pre : list (list byte)) (rest : list recv_outcome)
    (buf : list byte) (st : wstate) :
  Forall partial_chunk pre ->
  snd (recv_loop conn (map RecvBytes pre ++ RecvBytes [] :: rest) buf st)
    = Raise ConnectionError.
Proof.
  intros Hpre. revert buf st.
  induction Hpre as [|b pre [Hne Hnl] Hpre IH]; intros buf st;
    cbn [map app recv_loop]; rewrite bind_emit; [reflexivity|].
  destruct b as [|c b]; [congruence|]. rewrite Hnl. apply IH.
Qed.

End RecvLoop.

Section QueryBody.

Variables (preimage : pystr) (net : net_script).
Variables (st : wstate) (c : nat).
Hypothesis Hsock : sock st = Some c.

(** The state in which the reads start. *)
Let sent (data : list byte) : wstate := fst (emit (EvSendall c data) st).

(** The [try] block, step by step. *)
Lemma query_body_eval :
  query_body preimage net st =
    match Utf8.encode (preimage ++ [10%N]) with
    | Raise e => (st, Raise e)
    | Ok data =>
        if send_ok net then
          match recv_loop c (recvs net) [] (sent data) with
          | (st2, Ok buf) =>
              match Utf8.decode (before_newline buf) with
              | Ok s => (st2, Ok (Some (strip s)))
              | Raise e => (st2, Raise e)
              end
          | (st2, Raise e) => (st2, Raise e)
          end
        else (sent data, Raise OSError)
    end.
Proof.
  unfold query_body, sendall. unfold mbind, io_bind, lift, get_sock.
  change (lit (String "010" "")) with [10%N].
  destruct (Utf8.encode (preimage ++ [10%N])) as [data|e]; [|reflexivity].
  subst sent. unfold emit. cbn [fst snd sock]. rewrite !Hsock.
  cbn [fst snd sock].
  destruct (send_ok net); [|reflexivity].
  cbn [mret io_ret sock]. unfold default. cbn [from_option id].
  destruct (recv_loop c (recvs net) [] _) as [st2 [buf|e]]; [|reflexivity].
  destruct (Utf8.decode (before_newline buf)); reflexivity.
Qed.

Lemma query_body_sound (o : option pystr) :
  snd (query_body preimage net st) = Ok o ->
  exists line, o = Some line /\ answers preimage net line.
Proof.
  rewrite query_body_eval.
  destruct (Utf8.encode (preimage ++ [10%N])) as [data|e] eqn:He;
    [|discriminate].
  destruct (send_ok net) eqn:Hs; [|discriminate].
  destruct (recv_loop c (recvs net) [] (sent data)) as [st2 [buf|e]] eqn:Hr;
    [|discriminate].
  destruct (Utf8.decode (before_newline buf)) as [s|e] eqn:Hd;
    [|discriminate].
  intros [= <-]. exists (strip s). split; [reflexivity|].
  pose proof (recv_loop_ok c (recvs net) [] buf (sent data)) as H.
  rewrite Hr in H. destruct (H eq_refl) as (pre & last & rest & H1 & H2 & H3 & H4).
  exists data, pre, last, rest, s. cbn [app] in H4. subst buf.
  repeat split; auto.
Qed.

Lemma query_body_complete (line : pystr) :
  answers preimage net line ->
  snd (query_body preimage net st) = Ok (Some line).
Proof.
  intros (data & pre & last & rest & s & He & Hs & Hr & Hpre & Hlast & Hd & ->).
  rewrite query_body_eval, He, Hs.
  pose proof (recv_loop_complete c pre last rest [] (sent data) Hpre Hlast)
    as H.
  rewrite <- Hr in H. cbn [app] in H.
  destruct (recv_loop c (recvs net) [] (sent data)) as [st2 r].
  cbn [snd] in H. subst r. rewrite Hd. reflexivity.
Qed.

(** What goes on the wire when the exchange succeeds. *)
Lemma query_body_sends (line : pystr) :
  snd (query_body preimage net st) = Ok (Some line) ->
  exists data evs,
    Utf8.encode (preimage ++ [10%N]) = Ok data
    /\ trace (fst (query_body preimage net st))
       = trace st ++ EvSendall c data :: evs.
Proof.
  rewrite query_body_eval.
  destruct (Utf8.encode (preimage ++ [10%N])) as [data|e] eqn:He;
    [|discriminate].
  destruct (send_ok net) eqn:Hs; [|discriminate].
  destruct (quiet_recv_loop c (recvs net) [] (sent data))
    as (_ & evs & Ht & _).
  destruct (recv_loop c (recvs net) [] (sent data)) as [st2 [buf|e]];
    [|discriminate].
  destruct (Utf8.decode (before_newline buf)) as [s|e]; [|discriminate].
  intros _. exists data, evs. split; [reflexivity|].
  cbn [fst] in *. rewrite Ht. subst sent. cbn. rewrite <- app_assoc.
  reflexivity.
Qed.

(** The [try] block with its handler. *)
Lemma try_query_cases :
  let r := try_except (query_body preimage net) drop_socket st in
  (exists line, snd r = Ok (Some line) /\ sock (fst r) = Some c
                /\ opened (fst r) = opened st
                /\ fst r = fst (query_body preimage net st)
                /\ snd (query_body preimage net st) = Ok (Some line))
  \/ (snd r = Ok None /\ sock (fst r) = None
      /\ opened (fst r) = opened st
      /\ exists e, snd (query_body preimage net st) = Raise e).
Proof.
  cbn zeta. unfold try_except.
  pose proof (keeps_sock_query_body preimage net st) as [Hk1 Hk2].
  pose proof (query_body_sound) as Hsound.
  destruct (query_body preimage net st) as [st1 [o|e]]; cbn [fst snd] in *.
  - left. destruct (Hsound o eq_refl) as (line & -> & _).
    exists line. repeat split; congruence.
  - right. unfold drop_socket, close_quietly.
    unfold mbind, io_bind, get_sock. rewrite Hk1, Hsock. cbn.
    repeat split; eauto.
Qed.

End QueryBody.

Section SendPre.

Variables (preimage : pystr) (net : net_script) (st : wstate).

(** The call, by the state of the socket and of the network. *)
Lemma send_pre_eval :
  _send_pre_and_recv_hash preimage net st =
    match sock st with
    | Some _ => try_except (query_body preimage net) drop_socket st
    | None =>
        if connect_ok net
        then try_except (query_body preimage net) drop_socket (connected st)
        else (fst (sleep 100 (fst (set_sock None
                     (fst (emit (EvConnect false) st))))), Ok None)
    end.
Proof.
  unfold _send_pre_and_recv_hash, _ensure_socket.
  unfold mbind, io_bind, get_sock.
  destruct (sock st) as [c|]; [reflexivity|].
  destruct (connect_ok net); reflexivity.
Qed.

End SendPre.

Lemma query_body_closed (preimage : pystr) (net : net_script) (st : wstate)
    (c : nat) (pre : list (list byte)) (rest : list recv_outcome) :
  sock st = Some c ->
  recvs net = map RecvBytes pre ++ RecvBytes [] :: rest ->
  Forall partial_chunk pre ->
  exists e, snd (query_body preimage net st) = Raise e.
Proof.
  intros Hsock Hr Hpre. rewrite (query_body_eval preimage net st c Hsock).
  destruct (Utf8.encode (preimage ++ [10%N])) as [data|e]; [|eauto].
  destruct (send_ok net); [|eauto].
  pose proof (recv_loop_closed c pre rest []
                (fst (emit (EvSendall c data) st)) Hpre) as H.
  rewrite <- Hr in H.
  destruct (recv_loop c (recvs net) [] _) as [st2 r].
  cbn [snd] in H. subst r. eauto.
Qed.

Lemma try_query_spec (preimage : pystr) (net : net_script) (st1 : wstate)
    (c : nat) :
  sock st1 = Some c ->
  let r := try_except (query_body preimage net) drop_socket st1 in
  (exists o, snd r = Ok o /\ (o = None -> sock (fst r) = None))
  /\ (forall line, snd r = Ok (Some line) <-> answers preimage net line)
  /\ (forall line,
        snd r = Ok (Some line) ->
        exists data evs1,
          sock (fst r) = Some c
          /\ Utf8.encode (preimage ++ [10%N]) = Ok data
          /\ trace (fst r) = trace st1 ++ EvSendall c data :: evs1)
  /\ (forall pre rest,
        recvs net = map RecvBytes pre ++ RecvBytes [] :: rest ->
        Forall partial_chunk pre ->
        snd r = Ok None /\ sock (fst r) = None)
  /\ opened (fst r) = opened st1
  /\ (exists evs, trace (fst r) = trace st1 ++ evs).
Proof.
  intros Hsock. cbn zeta.
  assert (Htr : exists evs,
            trace (fst (try_except (query_body preimage net) drop_socket st1))
            = trace st1 ++ evs).
  { pose proof (framed_try_except quiet_rel _ _
                  (quiet_query_body preimage net) quiet_drop_socket st1)
      as (_ & evs & Ht & _).
    exists evs. exact Ht. }
  pose proof (try_query_cases preimage net st1 c Hsock) as Hcases.
  cbn zeta in Hcases.
  destruct Hcases
    as [(line0 & Hr & Hs & Ho & Hst & Hq) | (Hr & Hs & Ho & e & Hq)].
  - assert (Ha0 : answers preimage net line0).
    { destruct (query_body_sound preimage net st1 c Hsock _ Hq)
        as (l & [= <-] & Ha). exact Ha. }
    split; [exists (Some line0); split; [exact Hr|discriminate]|].
    split.
    { intros line. split.
      - intros H. rewrite Hr in H. injection H as <-. exact Ha0.
      - intros Ha. apply (query_body_complete _ _ st1 c Hsock) in Ha.
        rewrite Hr. congruence. }
    split.
    { intros line _.
      destruct (query_body_sends preimage net st1 c Hsock line0 Hq)
        as (data & evs & He & Ht).
      exists data, evs. rewrite <- Hst in Ht. auto. }
    split.
    { intros pre rest Hrecv Hpre.
      destruct (query_body_closed preimage net st1 c pre rest Hsock Hrecv Hpre)
        as (e & He). congruence. }
    split; [exact Ho|exact Htr].
  - split; [exists None; split; [exact Hr|intros _; exact Hs]|].
    split.
    { intros line. split.
      - intros H. rewrite Hr in H. discriminate.
      - intros Ha. apply (query_body_complete _ _ st1 c Hsock) in Ha.
        congruence. }
    split; [intros line H; rewrite Hr in H; discriminate|].
    split; [intros pre rest _ _; split; [exact Hr|exact Hs]|].
    split; [exact Ho|exact Htr].
Qed.

Section FirstLine.

Lemma has_newline_In (b : list byte) :
  has_newline b = true <-> In x0a b.
Proof.
  unfold has_newline. rewrite existsb_exists. split.
  - intros (c & Hin & Hc). apply Byte.byte_dec_bl in Hc.
    unfold NEWLINE in Hc. subst c. exact Hin.
  - intros Hin. exists x0a. split; [exact Hin|reflexivity].
Qed.

Lemma partial_chunk_In (b : list byte) :
  partial_chunk b <-> b <> [] /\ ~ In x0a b.
Proof.
  unfold partial_chunk. rewrite <- has_newline_In.
  destruct (has_newline b); split; intros [H1 H2]; split; auto;
    congruence.
Qed.

(** What comes before the first newline, and only that. *)
Lemma before_newline_first (head tail : list byte) :
  ~ In x0a head -> before_newline (head ++ x0a :: tail) = head.
Proof.
  induction head as [|c head IH]; intros Hnot; [reflexivity|].
  cbn [app before_newline].
  destruct (Byte.eqb NEWLINE c) eqn:Hc.
  - apply Byte.byte_dec_bl in Hc. unfold NEWLINE in Hc. subst c.
    exfalso. apply Hnot. left. reflexivity.
  - f_equal. apply IH. intros Hin. apply Hnot. right. exact Hin.
Qed.

Lemma before_newline_splits (buf : list byte) :
  In x0a buf ->
  exists tail, buf = before_newline buf ++ x0a :: tail
               /\ ~ In x0a (before_newline buf).
Proof.
  induction buf as [|c buf IH]; [intros []|]. intros Hin.
  cbn [before_newline].
  destruct (Byte.eqb NEWLINE c) eqn:Hc.
  - apply Byte.byte_dec_bl in Hc. unfold NEWLINE in Hc. subst c.
    exists buf. split; [reflexivity|]. intros [].
  - destruct Hin as [->|Hin]; [discriminate Hc|].
    destruct (IH Hin) as (tail & Heq & Hnot).
    exists tail. split; [cbn [app]; f_equal; exact Heq|].
    intros [->|H]; [discriminate Hc|contradiction].
Qed.

(** The exchange, in terms of the bytes received. *)
Lemma answers_first_line (preimage : pystr) (net : net_script)
    (line : pystr) :
  answers preimage net line
  <-> exists (data : list byte) (pre : list (list byte))
             (last : list byte) (rest : list recv_outcome)
             (head tail : list byte) (s : pystr),
        Utf8.encode (preimage ++ [10%N]) = Ok data
        /\ send_ok net = true
        /\ recvs net = map RecvBytes pre ++ RecvBytes last :: rest
        /\ Forall (fun chunk => chunk <> [] /\ ~ In x0a chunk) pre
        /\ In x0a last
        /\ concat pre ++ last = head ++ x0a :: tail
        /\ ~ In x0a head
        /\ Utf8.decode head = Ok s
        /\ line = strip s.
Proof.
  split.
  - intros (data & pre & last & rest & s & He & Hs & Hr & Hp & Hn & Hd & Hl).
    destruct (before_newline_splits (concat pre ++ last)) as (tail & Hb & Hh).
    { apply in_or_app. right. apply has_newline_In, Hn. }
    exists data, pre, last, rest, (before_newline (concat pre ++ last)),
      tail, s.
    split; [exact He|]. split; [exact Hs|]. split; [exact Hr|].
    split.
    { eapply Forall_impl; [exact Hp|]. intros chunk. apply partial_chunk_In. }
    split; [apply has_newline_In, Hn|].
    split; [exact Hb|]. split; [exact Hh|]. split; [exact Hd|exact Hl].
  - intros (data & pre & last & rest & head & tail & s
            & He & Hs & Hr & Hp & Hn & Hb & Hh & Hd & Hl).
    exists data, pre, last, rest, s.
    split; [exact He|]. split; [exact Hs|]. split; [exact Hr|].
    split.
    { eapply Forall_impl; [exact Hp|]. intros chunk. apply partial_chunk_In. }
    split; [apply has_newline_In, Hn|].
    split; [|exact Hl].
    rewrite Hb, before_newline_first by exact Hh. exact Hd.
Qed.

End FirstLine.

(** C9.  A query never raises.  It returns a line exactly when a
    connection is at hand (kept from an earlier call, or opened now) and
    the exchange succeeds: [preimage + "\n"], UTF-8 encoded, is sent; the
    chunks read are not empty and have no newline until one has; and
    with the bytes received being [head], a newline and [tail], where
    [head] has no newline, [head] decodes to a string whose trimmed form
    is the line.  In every other case, a zero-length read among them, it
    returns [None] and [self.sock] is [None]; a call that finds no
    socket opens a connection of its own before anything else. *)
Theorem oracle_query (preimage : pystr) (net : net_script) (st : wstate) :
  let r := _send_pre_and_recv_hash preimage net st in
  (exists o, snd r = Ok o /\ (o = None -> sock (fst r) = None))
  /\ (forall line,
        snd r = Ok (Some line) <->
        (is_Some (sock st) \/ connect_ok net = true)
        /\ exists (data : list byte) (pre : list (list byte))
                  (last : list byte) (rest : list recv_outcome)
                  (head tail : list byte) (s : pystr),
             Utf8.encode (preimage ++ [10%N]) = Ok data
             /\ send_ok net = true
             /\ recvs net = map RecvBytes pre ++ RecvBytes last :: rest
             /\ Forall (fun chunk => chunk <> [] /\ ~ In x0a chunk) pre
             /\ In x0a last
             /\ concat pre ++ last = head ++ x0a :: tail
             /\ ~ In x0a head
             /\ Utf8.decode head = Ok s
             /\ line = strip s)
  /\ (forall line,
        snd r = Ok (Some line) ->
        exists conn data evs0 evs1,
          sock (fst r) = Some conn
          /\ Utf8.encode (preimage ++ [10%N]) = Ok data
          /\ trace (fst r) = trace st ++ evs0 ++ EvSendall conn data :: evs1)
  /\ (forall pre rest,
        recvs net = map RecvBytes pre ++ RecvBytes [] :: rest ->
        Forall partial_chunk pre ->
        snd r = Ok None /\ sock (fst r) = None)
  /\ (sock st = None -> connect_ok net = true ->
        opened (fst r) = S (opened st)
        /\ (exists evs, trace (fst r) = trace st ++ EvConnect true :: evs)
        /\ (forall line,
              snd r = Ok (Some line) -> sock (fst r) = Some (opened st))).
Proof.
  cbn zeta. rewrite send_pre_eval.
  destruct (sock st) as [c|] eqn:Hsock.
  - (* a socket is kept from an earlier call *)
    destruct (try_query_spec preimage net st c Hsock)
      as (Hok & Hiff & Hsent & Hclosed & _ & _).
    split; [exact Hok|].
    split.
    { intros line. rewrite Hiff, answers_first_line.
      split; [intros Ha; split; eauto|tauto]. }
    split.
    { intros line H. destruct (Hsent line H) as (data & evs & H1 & H2 & H3).
      exists c, data, [], evs. auto. }
    split; [exact Hclosed|]. discriminate.
  - destruct (connect_ok net) eqn:Hconn.
    + (* a connection is opened *)
      destruct (try_query_spec preimage net (connected st) (opened st)
                  eq_refl) as (Hok & Hiff & Hsent & Hclosed & Hopened & Htr).
      split; [exact Hok|].
      split.
      { intros line. rewrite Hiff, answers_first_line.
        split; [intros Ha; split; auto|tauto]. }
      split.
      { intros line H. destruct (Hsent line H) as (data & evs & H1 & H2 & H3).
        exists (opened st), data, [EvConnect true], evs.
        rewrite H3. cbn. rewrite <- app_assoc. auto. }
      split; [exact Hclosed|].
      intros _ _. split; [exact Hopened|].
      split.
      { destruct Htr as (evs & Ht). exists evs. rewrite Ht. cbn.
        rewrite <- app_assoc. reflexivity. }
      intros line H. destruct (Hsent line H) as (data & evs & H1 & _).
      exact H1.
    + (* no connection *)
      cbn [fst snd sleep emit set_sock sock].
      split; [exists None; auto|].
      split.
      { intros line. split; [discriminate|].
        intros [[[x Hx]|Hc] _]; discriminate. }
      split; [discriminate|].
      split; [auto|]. discriminate.
Qed.

Lemma oracle_query_witness :
  snd (_send_pre_and_recv_hash (lit "e8a195800b|0000abc")
         {| connect_ok := true; send_ok := true;
            recvs := [RecvBytes [x20; x30; x30];
                      RecvBytes [x66; x66; x0d; x0a; x7a; x0a; x7a]] |}
         initial_state)
    = Ok (Some (lit "00ff"))
  /\ snd (_send_pre_and_recv_hash (lit "e8a195800b|0000abc")
            {| connect_ok := true; send_ok := true;
               recvs := [RecvBytes [x30; x30]; RecvBytes []] |}
            initial_state) = Ok None.
Proof.
  split.
  - apply (proj1 (proj2 (oracle_query (lit "e8a195800b|0000abc")
              {| connect_ok := true; send_ok := true;
                 recvs := [RecvBytes [x20; x30; x30];
                           RecvBytes [x66; x66; x0d; x0a; x7a; x0a; x7a]] |}
              initial_state))).
    split; [right; reflexivity|].
    eexists _, [[x20; x30; x30]], [x66; x66; x0d; x0a; x7a; x0a; x7a], [],
      [x20; x30; x30; x66; x66; x0d], [x7a; x0a; x7a], _.
    split; [vm_compute; reflexivity|].
    split; [reflexivity|]. split; [reflexivity|].
    split.
    { repeat constructor; [discriminate|].
      simpl. intros H. decompose [or] H; discriminate || assumption. }
    split; [simpl; tauto|]. split; [reflexivity|].
    split.
    { simpl. intros H. decompose [or] H; discriminate || assumption. }
    split; vm_compute; reflexivity.
  - apply (proj1 (proj2 (proj2 (proj2 (oracle_query (lit "e8a195800b|0000abc")
              {| connect_ok := true; send_ok := true;
                 recvs := [RecvBytes [x30; x30]; RecvBytes []] |}
              initial_state)))) [[x30; x30]] []); [reflexivity|].
    repeat constructor; discriminate.
Defined.

(* ===================================================================== *)
(** * The submission phase *)
(* ===================================================================== *)

Lemma count_posts_app (evs1 evs2 : list event) :
  count_posts (evs1 ++ evs2) = (count_posts evs1 + count_posts evs2)%nat.
Proof.
  induction evs1 as [|x evs1 IH]; [reflexivity|].
  destruct x; simpl; rewrite ?IH; reflexivity.
Qed.

Section Submission.

Variables (address : pystr) (challenge_id : pyval) (nonce : pystr).
Variable posts : nat -> http_outcome.

Lemma submit_loop_done (attempts : nat) (sc : option Z) (st : wstate) :
  (3 <= attempts)%nat ->
  ChayVot.submit_loop address challenge_id nonce posts attempts sc st
    = (st, sc).
Proof.
  intros H. rewrite ChayVot.submit_loop_equation_1.
  destruct (le_lt_dec 3 attempts); [reflexivity|lia].
Qed.

Lemma submit_loop_step (attempts : nat) (sc : option Z) (st : wstate) :
  (attempts < 3)%nat ->
  ChayVot.submit_loop address challenge_id nonce posts attempts sc st
    = let (st1, o) :=
        ChayVot.try_post address challenge_id nonce (posts attempts) st in
      match o with
      | Some sc1 =>
          if is_201 sc1 then (fst (stop_event_set st1), sc1)
          else ChayVot.submit_loop address challenge_id nonce posts
                 (S attempts) sc1 (fst (sleep 1000 st1))
      | None =>
          ChayVot.submit_loop address challenge_id nonce posts
            (S attempts) sc (fst (sleep 1000 st1))
      end.
Proof.
  intros H. rewrite ChayVot.submit_loop_equation_1.
  destruct (le_lt_dec 3 attempts); [lia|reflexivity].
Qed.

Lemma try_post_status (code : Z) (st : wstate) :
  ChayVot.try_post address challenge_id nonce (HttpStatus code) st
    = (fst (emit (EvPost address challenge_id nonce (HttpStatus code)) st),
       Some (Some code)).
Proof. reflexivity. Qed.

Lemma try_post_fails (st : wstate) :
  ChayVot.try_post address challenge_id nonce HttpFails st
    = (fst (emit (EvLogError address challenge_id nonce)
              (fst (emit (EvPost address challenge_id nonce HttpFails) st))),
       Some None).
Proof. reflexivity. Qed.

(** The loop against the policy in words, from any number of attempts
    already made. *)
Lemma submit_loop_retry_events (k attempts : nat) (sc : option Z)
    (st : wstate) :
  (attempts + k = 3)%nat ->
  let outcomes := map posts (seq attempts k) in
  let r := ChayVot.submit_loop address challenge_id nonce posts attempts
             sc st in
  trace (fst r) = trace st ++ retry_events address challenge_id nonce outcomes
  /\ stop_event (fst r) = stop_event st || existsb accepted outcomes
  /\ (is_201 sc = false -> is_201 (snd r) = existsb accepted outcomes)
  /\ hashes (fst r) = hashes st
  /\ solutions (fst r) = solutions st
  /\ sock (fst r) = sock st.
Proof.
  revert attempts sc st.
  induction k as [|k IH]; intros attempts sc st Hk; cbn zeta.
  - rewrite submit_loop_done by lia. cbn.
    rewrite app_nil_r, orb_false_r. repeat split; auto.
  - rewrite submit_loop_step by lia.
    cbn [seq map retry_events existsb].
    destruct (posts attempts) as [code|] eqn:Hp.
    + rewrite try_post_status. cbv beta iota. cbn [is_201 accepted].
      destruct (code =? 201) eqn:Hc.
      * cbn. rewrite orb_true_r, <- app_assoc. repeat split; auto.
      * pose proof (IH (S attempts) (Some code)
          (fst (sleep 1000 (fst (emit
             (EvPost address challenge_id nonce (HttpStatus code)) st))))
          ltac:(lia)) as H.
        cbn zeta in H. destruct H as (Ht & Hs & Hsc & Hh & Hso & Hk').
        split; [rewrite Ht; cbn; rewrite <- !app_assoc; reflexivity|].
        split; [rewrite Hs; reflexivity|].
        split; [intros _; apply Hsc; exact Hc|].
        rewrite Hh, Hso, Hk'. repeat split.
    + rewrite try_post_fails. cbv beta iota. cbn [is_201 accepted].
      pose proof (IH (S attempts) None
          (fst (sleep 1000 (fst (emit
             (EvLogError address challenge_id nonce) (fst (emit
             (EvPost address challenge_id nonce HttpFails) st))))))
          ltac:(lia)) as H.
      cbn zeta in H. destruct H as (Ht & Hs & Hsc & Hh & Hso & Hk').
      split; [rewrite Ht; cbn; rewrite <- !app_assoc; reflexivity|].
      split; [rewrite Hs; reflexivity|].
      split; [intros _; apply Hsc; reflexivity|].
      rewrite Hh, Hso, Hk'. repeat split.
Qed.

Let three_outcomes : list http_outcome :=
  [posts 0%nat; posts 1%nat; posts 2%nat].

(** The phase of chayvottungaddresstheolist.py: the policy, then the
    stop event if no answer was 201. *)
Lemma chayvot_submit_phase (st : wstate) :
  let st' := fst (ChayVot.submit_phase address challenge_id nonce posts st) in
  trace st' = trace st
              ++ retry_events address challenge_id nonce three_outcomes
              ++ (if existsb accepted three_outcomes then [] else [EvStopSet])
  /\ stop_event st' = true
  /\ hashes st' = hashes st.
Proof.
  cbn zeta. unfold ChayVot.submit_phase.
  pose proof (submit_loop_retry_events 3 0 None st eq_refl) as H.
  cbn zeta in H. change (map posts (seq 0 3)) with three_outcomes in H.
  destruct (ChayVot.submit_loop address challenge_id nonce posts 0 None st)
    as [st1 sc1].
  cbn [fst snd] in H. destruct H as (Ht & Hs & Hsc & Hh & _).
  rewrite (Hsc eq_refl).
  destruct (existsb accepted three_outcomes); cbn.
  - rewrite app_nil_r, Ht, Hs, orb_true_r. repeat split; auto.
  - rewrite Ht, <- app_assoc. repeat split; auto.
Qed.

Lemma quiet_chayvot_submit_phase :
  quiet (ChayVot.submit_phase address challenge_id nonce posts).
Proof.
  intros st. destruct (chayvot_submit_phase st) as (Ht & _ & Hh).
  split; [exact Hh|]. eexists. split; [exact Ht|].
  rewrite forallb_app. apply andb_true_iff. split.
  - generalize three_outcomes. intros l.
    induction l as [|o l IH]; [reflexivity|]. cbn.
    destruct (accepted o); [reflexivity|].
    rewrite forallb_app. destruct o; cbn; exact IH.
  - destruct (existsb accepted three_outcomes); reflexivity.
Qed.

Lemma count_posts_retry_events (outcomes : list http_outcome) :
  (count_posts (retry_events address challenge_id nonce outcomes)
     <= length outcomes)%nat.
Proof.
  induction outcomes as [|o l IH]; [cbn; lia|]. cbn.
  destruct (accepted o); [cbn; lia|].
  destruct o; cbn; lia.
Qed.

Lemma quiet_submit_phase_of (f : source_file) :
  quiet (submit_phase_of f address challenge_id nonce posts).
Proof.
  destruct f; cbn [submit_phase_of].
  - unfold PyMiner.submit_phase. frame_steps.
  - unfold PyMiner1.submit_phase. frame_steps.
  - apply quiet_chayvot_submit_phase.
Qed.

End Submission.

#[global] Hint Resolve quiet_submit_phase_of : frame.

(** C3 (as the code has it).  In chayvottungaddresstheolist.py the stop
    event is set whenever the submission phase ends: right after the
    POST answered 201, or else after the third POST and its one-second
    sleep.  In py_miner1.py and fullmanualinput.py, which POST once, it
    is set exactly when that answer is 201; py_miner.py POSTs once and
    leaves the stop event as it was. *)
Theorem submission_phase_stop_signal
    (address : pystr) (challenge_id : pyval) (nonce : pystr)
    (posts : nat -> http_outcome) (st : wstate) :
  let outcomes := [posts 0%nat; posts 1%nat; posts 2%nat] in
  let st3 := fst (ChayVot.submit_phase address challenge_id nonce posts st) in
  let st2 := fst (PyMiner1.submit_phase address challenge_id nonce posts st) in
  let st1 := fst (PyMiner.submit_phase address challenge_id nonce posts st) in
  stop_event st3 = true
  /\ trace st3 = trace st
                 ++ retry_events address challenge_id nonce outcomes
                 ++ (if existsb accepted outcomes then [] else [EvStopSet])
  /\ stop_event st2 = stop_event st || accepted (posts 0%nat)
  /\ count_posts (trace st2) = S (count_posts (trace st))
  /\ stop_event st1 = stop_event st
  /\ count_posts (trace st1) = S (count_posts (trace st)).
Proof.
  cbn zeta.
  destruct (chayvot_submit_phase address challenge_id nonce posts st)
    as (Ht & Hs & _).
  split; [exact Hs|]. split; [exact Ht|].
  unfold PyMiner1.submit_phase, PyMiner.submit_phase, post_solution.
  destruct (posts 0%nat) as [code|];
    unfold mbind, io_bind, mret, io_ret, emit, stop_event_set; cbn.
  - destruct (code =? 201); cbn;
      rewrite ?count_posts_app, ?orb_true_r, ?orb_false_r;
      cbn; repeat split; lia.
  - rewrite !count_posts_app, orb_false_r. cbn. repeat split; lia.
Qed.

(** The worker of py_miner.py: the POST is answered 201, the submission
    phase ends, and the stop event is not set. *)
Lemma py_miner_accepted_and_not_stopped :
  let st' := fst (submit_phase_of py_miner (lit "addr1")
                    (PyStr (lit "**D07C10")) (hex64_nonce 7)
                    (fun _ => HttpStatus 201) initial_state) in
  trace st' = [EvPost (lit "addr1") (PyStr (lit "**D07C10")) (hex64_nonce 7)
                 (HttpStatus 201)]
  /\ stop_event st' = false.
Proof. vm_compute. split; reflexivity. Qed.

(** C4 (as the code has it).  The retry loop of
    chayvottungaddresstheolist.py POSTs at most three times; it stops
    at the first answer with status 201 and goes on after every other
    outcome, a response with another status as well as no response,
    sleeping one second after each of them. *)
Theorem submit_loop_policy
    (address : pystr) (challenge_id : pyval) (nonce : pystr)
    (posts : nat -> http_outcome) (st : wstate) :
  let outcomes := [posts 0%nat; posts 1%nat; posts 2%nat] in
  let r := ChayVot.submit_loop address challenge_id nonce posts 0 None st in
  trace (fst r) = trace st ++ retry_events address challenge_id nonce outcomes
  /\ (count_posts (retry_events address challenge_id nonce outcomes) <= 3)%nat
  /\ count_posts (retry_events address challenge_id nonce outcomes)
     = (if accepted (posts 0%nat) then 1
        else if accepted (posts 1%nat) then 2 else 3)%nat
  /\ is_201 (snd r) = existsb accepted outcomes.
Proof.
  cbn zeta.
  destruct (submit_loop_retry_events address challenge_id nonce posts
              3 0 None st eq_refl) as (Ht & _ & Hsc & _).
  split; [exact Ht|]. split.
  - apply (count_posts_retry_events address challenge_id nonce
             [posts 0%nat; posts 1%nat; posts 2%nat]).
  - split; [|exact (Hsc eq_refl)].
    assert (Hc : forall evs tl, count_posts (evs ++ EvSleep 1000 :: tl)
              = (count_posts evs + count_posts tl)%nat).
    { intros evs tl. rewrite count_posts_app. reflexivity. }
    cbn [retry_events count_posts].
    destruct (accepted (posts 0%nat)); [reflexivity|]. rewrite Hc.
    cbn [count_posts].
    destruct (accepted (posts 1%nat)).
    { destruct (posts 0%nat); reflexivity. }
    rewrite Hc. cbn [count_posts].
    destruct (accepted (posts 2%nat)).
    { destruct (posts 0%nat), (posts 1%nat); reflexivity. }
    rewrite Hc.
    destruct (posts 0%nat), (posts 1%nat), (posts 2%nat); reflexivity.
Qed.

(** A response with status 400, a definitive rejection, is followed by
    two more POSTs. *)
Lemma rejected_is_retried :
  count_posts
    (trace (fst (ChayVot.submit_loop (lit "addr1") (PyStr (lit "**D07C10"))
                   (hex64_nonce 7) (fun _ => HttpStatus 400) 0 None
                   initial_state))) = 3%nat.
Proof.
  destruct (submit_loop_retry_events (lit "addr1") (PyStr (lit "**D07C10"))
              (hex64_nonce 7) (fun _ => HttpStatus 400) 3 0 None
              initial_state eq_refl) as (Ht & _).
  rewrite Ht. vm_compute. reflexivity.
Qed.

Example retry_trace_sample :
  retry_events (lit "a") (PyStr (lit "c")) (lit "n")
    [HttpFails; HttpStatus 503; HttpStatus 201]
  = [ EvPost (lit "a") (PyStr (lit "c")) (lit "n") HttpFails;
      EvLogError (lit "a") (PyStr (lit "c")) (lit "n");
      EvSleep 1000;
      EvPost (lit "a") (PyStr (lit "c")) (lit "n") (HttpStatus 503);
      EvSleep 1000;
      EvPost (lit "a") (PyStr (lit "c")) (lit "n") (HttpStatus 201);
      EvStopSet ].
Proof. reflexivity. Qed.

(* ===================================================================== *)
(** * The batch loop and the hash counter *)
(* ===================================================================== *)

Section BatchCounts.

Variable f : source_file.
Variable address : pystr.
Variable submit_on_find : bool.
Variable challenge : gmap pystr pyval.
Variables difficulty challenge_id : pyval.

Let body := batch_body (submit_phase_of f) address submit_on_find
              challenge difficulty challenge_id.
Let loop := batch_loop (submit_phase_of f) address submit_on_find
              challenge difficulty challenge_id.

Let after := after_query (submit_phase_of f) address submit_on_find
               difficulty challenge_id.

Lemma after_query_unanswered (env : iter_env) (nonce request : pystr)
    (st : wstate) :
  let r := after env nonce request None st in
  trace (fst r) = trace st ++ [EvQuery request None; EvSleep 10]
  /\ hashes (fst r) = hashes st
  /\ snd r = Ok Continue.
Proof. subst after. unfold after_query. io_run. rewrite <- app_assoc. auto. Qed.

Lemma after_query_answered (env : iter_env) (nonce request h : pystr)
    (st : wstate) :
  let r := after env nonce request (Some h) st in
  exists evs,
    trace (fst r)
      = trace st ++ [EvQuery request (Some h); EvAddHashes 1] ++ evs
    /\ forallb neutral evs = true
    /\ hashes (fst r) = hashes st + 1.
Proof.
  cbn zeta. subst after. unfold after_query.
  set (rest := (found ← lift (hash_meets_difficulty (PyStr h) difficulty);
                if found : bool then
                  _ ← inc_solutions;
                  _ ← (if submit_on_find
                       then submit_phase_of f address challenge_id nonce
                              (posts env)
                       else mret tt);
                  _ ← sleep 500;
                  mret Break
                else mret Continue) : io ctl).
  assert (Hrest : quiet rest) by (subst rest; frame_steps).
  set (st2 := fst (add_hashes 1 (fst (emit (EvQuery request (Some h)) st)))).
  destruct (Hrest st2) as (Hh & evs & Ht & Hn).
  exists evs. change ((_ ← emit (EvQuery request (Some h));
                       _ ← add_hashes 1; rest) st) with (rest st2).
  rewrite Ht, Hh. subst st2. cbn. rewrite <- !app_assoc. auto.
Qed.

Lemma counted_after_query (env : iter_env) (nonce request : pystr)
    (hash_hex : option pystr) :
  counted (after env nonce request hash_hex).
Proof.
  intros st. destruct hash_hex as [h|].
  - destruct (after_query_answered env nonce request h st)
      as (evs & Ht & Hn & Hh).
    exists ([EvQuery request (Some h); EvAddHashes 1] ++ evs).
    split; [exact Ht|]. cbn [app counting_ok answered].
    split; [by apply neutral_counting_ok|].
    rewrite Hh, neutral_answered by exact Hn. lia.
  - destruct (after_query_unanswered env nonce request st) as (Ht & Hh & _).
    exists [EvQuery request None; EvSleep 10].
    split; [exact Ht|]. split; [reflexivity|]. rewrite Hh. cbn. lia.
Qed.

Lemma batch_body_unfold (env : iter_env) :
  body env =
    (stopped ← stop_event_is_set (ext_stop env);
     if stopped : bool then mret Break
     else if expired env then mret Break
     else
       pre ← lift (build_preimage (hex64_nonce (entropy env)) address
                     challenge);
       hash_hex ← _send_pre_and_recv_hash (pre_with_rom challenge pre)
                    (net env);
       after env (hex64_nonce (entropy env))
         (pre_with_rom challenge pre) hash_hex).
Proof. reflexivity. Qed.

Lemma counted_batch_body (env : iter_env) : counted (body env).
Proof.
  rewrite batch_body_unfold.
  apply framed_bind;
    [typeclasses eauto|apply quiet_counted; auto with frame typeclass_instances|].
  intros [|]; [apply quiet_counted; auto with frame typeclass_instances|].
  destruct (expired env); [apply quiet_counted; auto with frame typeclass_instances|].
  apply framed_bind;
    [typeclasses eauto|apply quiet_counted; auto with frame typeclass_instances|]. intros pre.
  apply framed_bind;
    [typeclasses eauto|apply quiet_counted; auto with frame typeclass_instances|]. intros hh.
  apply counted_after_query.
Qed.

Lemma counted_batch_loop (n i : nat) (envs : nat -> iter_env) :
  counted (loop n i envs).
Proof.
  revert i. induction n as [|n IH]; intros i; cbn.
  - apply quiet_counted. auto with frame typeclass_instances.
  - apply framed_bind; [typeclasses eauto|apply counted_batch_body|].
    intros [|]; [apply IH | apply quiet_counted; auto with frame typeclass_instances].
Qed.

(** The three ways an iteration can go: no query is made (the loop is
    left, or the preimage cannot be built); the query returns nothing;
    the query returns a line. *)
Lemma batch_body_cases (env : iter_env) (st : wstate) :
  let r := body env st in
  (exists evs0,
      trace (fst r) = trace st ++ evs0
      /\ forallb neutral evs0 = true
      /\ hashes (fst r) = hashes st
      /\ snd r <> Ok Continue)
  \/ (exists evs0 pre,
      build_preimage (hex64_nonce (entropy env)) address challenge = Ok pre
      /\ trace (fst r)
         = trace st ++ evs0
           ++ [EvQuery (pre_with_rom challenge pre) None; EvSleep 10]
      /\ forallb neutral evs0 = true
      /\ hashes (fst r) = hashes st
      /\ snd r = Ok Continue)
  \/ (exists evs0 evs1 pre h,
      build_preimage (hex64_nonce (entropy env)) address challenge = Ok pre
      /\ trace (fst r)
         = trace st ++ evs0
           ++ [EvQuery (pre_with_rom challenge pre) (Some h); EvAddHashes 1]
           ++ evs1
      /\ forallb neutral evs0 = true
      /\ forallb neutral evs1 = true
      /\ hashes (fst r) = hashes st + 1).
Proof.
  cbn zeta. rewrite batch_body_unfold. unfold mbind, io_bind.
  pose proof (quiet_stop_event_is_set (ext_stop env) st)
    as (Hh0 & e0 & Ht0 & Hn0).
  destruct (stop_event_is_set (ext_stop env) st) as [st0 [stopped|e]];
    cbn [fst snd] in *.
  2:{ left. exists e0. repeat split; auto; discriminate. }
  destruct stopped.
  { left. exists e0. repeat split; auto; discriminate. }
  destruct (expired env).
  { left. exists e0. repeat split; auto; discriminate. }
  destruct (build_preimage (hex64_nonce (entropy env)) address challenge)
    as [pre|e] eqn:Hpre; cbn [lift fst snd].
  2:{ left. exists e0. repeat split; auto; discriminate. }
  pose proof (quiet_send_pre_and_recv_hash (pre_with_rom challenge pre)
                (net env) st0) as (Hh1 & e1 & Ht1 & Hn1).
  destruct (_send_pre_and_recv_hash (pre_with_rom challenge pre) (net env)
              st0) as [st1 [hh|e]]; cbn [fst snd] in *.
  2:{ left. exists (e0 ++ e1).
      rewrite Ht1, Ht0, <- app_assoc, forallb_app, Hn0, Hn1, Hh1, Hh0.
      repeat split; auto; discriminate. }
  destruct hh as [h|].
  - right; right.
    destruct (after_query_answered env (hex64_nonce (entropy env))
                (pre_with_rom challenge pre) h st1) as (e2 & Ht2 & Hn2 & Hh2).
    exists (e0 ++ e1), e2, pre, h.
    rewrite Ht2, Ht1, Ht0, <- !app_assoc, forallb_app, Hn0, Hn1, Hh2, Hh1, Hh0.
    repeat split; auto.
  - right; left.
    destruct (after_query_unanswered env (hex64_nonce (entropy env))
                (pre_with_rom challenge pre) st1) as (Ht2 & Hh2 & Hr2).
    exists (e0 ++ e1), pre.
    rewrite Ht2, Ht1, Ht0, <- !app_assoc, forallb_app, Hn0, Hn1, Hh2, Hh1, Hh0.
    repeat split; auto.
Qed.

(** An iteration whose query returned nothing: no count, the 10 ms
    backoff, and the loop goes on. *)
Lemma batch_body_unanswered (env : iter_env) (st : wstate)
    (evs : list event) (request : pystr) :
  trace (fst (body env st)) = trace st ++ evs ->
  In (EvQuery request None) evs ->
  snd (body env st) = Ok Continue
  /\ hashes (fst (body env st)) = hashes st
  /\ exists evs0, evs = evs0 ++ [EvQuery request None; EvSleep 10]
                  /\ forallb neutral evs0 = true.
Proof.
  intros Ht Hin.
  destruct (batch_body_cases env st)
    as [(e0 & Ht0 & Hn0 & _)
       |[(e0 & pre & _ & Ht0 & Hn0 & Hh & Hr)
        |(e0 & e1 & pre & h & _ & Ht0 & Hn0 & Hn1 & _)]];
    rewrite Ht0 in Ht; apply app_inv_head in Ht; subst evs.
  - exact (False_ind _ (neutral_not_query _ _ _ Hn0 Hin)).
  - split; [exact Hr|]. split; [exact Hh|]. exists e0.
    apply in_app_or in Hin as [Hin|Hin];
      [exact (False_ind _ (neutral_not_query _ _ _ Hn0 Hin))|].
    simpl in Hin. destruct Hin as [Hin|[Hin|[]]]; [|discriminate].
    injection Hin as <-. auto.
  - exfalso.
    apply in_app_or in Hin as [Hin|Hin];
      [exact (neutral_not_query _ _ _ Hn0 Hin)|].
    simpl in Hin. destruct Hin as [Hin|[Hin|Hin]]; try discriminate.
    exact (neutral_not_query _ _ _ Hn1 Hin).
Qed.

End BatchCounts.

(** C8.  Along the batch loop of a worker (the loop is the same in
    py_miner.py, py_miner1.py, fullmanualinput.py and
    chayvottungaddresstheolist.py) the hash counter grows by one for
    each oracle query that returns a line, the [add_hashes(1)] coming
    right after the query, and it is not touched otherwise; a query that
    returns nothing is followed by the 10 ms sleep, counts for nothing,
    and the loop goes on with its next iteration. *)
Theorem batch_loop_counts_answered_queries
    (f : source_file) (address : pystr) (submit_on_find : bool)
    (challenge : gmap pystr pyval) (difficulty challenge_id : pyval)
    (n i : nat) (envs : nat -> iter_env) (st : wstate) :
  let st' := fst (batch_loop (submit_phase_of f) address submit_on_find
                    challenge difficulty challenge_id n i envs st) in
  (exists evs,
      trace st' = trace st ++ evs
      /\ counting_ok evs = true
      /\ hashes st' = hashes st + Z.of_nat (answered evs))
  /\ (forall (env : iter_env) (st0 : wstate) (evs : list event)
             (request : pystr),
        let r := batch_body (submit_phase_of f) address submit_on_find
                   challenge difficulty challenge_id env st0 in
        trace (fst r) = trace st0 ++ evs ->
        In (EvQuery request None) evs ->
        snd r = Ok Continue
        /\ hashes (fst r) = hashes st0
        /\ exists evs0, evs = evs0 ++ [EvQuery request None; EvSleep 10]
                        /\ forallb neutral evs0 = true).
Proof.
  split.
  - apply counted_batch_loop.
  - intros env st0 evs request. apply batch_body_unanswered.
Qed.

Lemma batch_loop_counts_answered_queries_witness :
  let envs := fun i : nat =>
    {| ext_stop := false; expired := false; entropy := Z.of_nat i;
       net := match i with
              | O => unreachable
              | _ => answering [x66; x66; x30; x31; x32; x33; x34; x35]
              end;
       posts := fun _ => HttpFails |} in
  hashes (fst (batch_loop (submit_phase_of py_miner) (lit "addr1") true
                 sample_challenge (PyStr (lit "000FFFFF"))
                 (PyStr (lit "**D07C10")) 3 0 envs initial_state)) = 2
  /\ snd (batch_body (submit_phase_of py_miner) (lit "addr1") true
            sample_challenge (PyStr (lit "000FFFFF"))
            (PyStr (lit "**D07C10")) (envs O) initial_state) = Ok Continue.
Proof.
  intros envs.
  destruct (batch_loop_counts_answered_queries py_miner (lit "addr1") true
              sample_challenge (PyStr (lit "000FFFFF"))
              (PyStr (lit "**D07C10")) 3 0 envs initial_state)
    as [(evs & Ht & Hc & Hh) Hbody].
  split.
  - rewrite Hh. vm_compute in Ht. subst evs. reflexivity.
  - refine (proj1 (Hbody (envs O) initial_state _ _ _ _)).
    + vm_compute. reflexivity.
    + right. right. left. reflexivity.
Defined.



(* ===================================================================== *)
(** * Orchestrator: the nonce ranges *)
(* ===================================================================== *)

Section Partition.

Import FullAuto.

Variable workers_count : Z.
Hypothesis Hcount : 1 <= workers_count.

Let chunk_size := TOTAL_NONCE_SPACE / workers_count.

Lemma chunk_size_bounds :
  0 <= chunk_size /\ chunk_size * workers_count <= TOTAL_NONCE_SPACE.
Proof.
  subst chunk_size. unfold TOTAL_NONCE_SPACE. split.
  - apply Z.div_pos; lia.
  - pose proof (Z.mul_div_le (2 ^ 64) workers_count ltac:(lia)). lia.
Qed.

Lemma randint_bounds (b entropy : Z) :
  0 <= b -> 0 <= randint 0 b entropy <= b.
Proof.
  intros Hb. unfold randint.
  pose proof (Z.mod_pos_bound entropy (b - 0 + 1) ltac:(lia)). lia.
Qed.

Lemma worker_range_bounds (i entropy : Z) :
  let r := worker_range workers_count i entropy in
  i * chunk_size <= fst r <= i * chunk_size + chunk_size / 100
  /\ snd r = (if i =? workers_count - 1 then TOTAL_NONCE_SPACE
              else (i + 1) * chunk_size).
Proof.
  cbn zeta. unfold worker_range. fold chunk_size. cbn [fst snd].
  destruct chunk_size_bounds as [Hc _].
  pose proof (randint_bounds (chunk_size / 100) entropy
                ltac:(apply Z.div_pos; lia)).
  split; [lia|reflexivity].
Qed.

(** The chunk a nonce falls in. *)
Lemma chunk_of_nonce (x : Z) :
  0 <= x < TOTAL_NONCE_SPACE ->
  exists i, 0 <= i < workers_count
            /\ i * chunk_size <= x
            /\ x < (if i =? workers_count - 1 then TOTAL_NONCE_SPACE
                    else (i + 1) * chunk_size).
Proof.
  intros Hx. destruct chunk_size_bounds as [Hc Hle].
  destruct (Z.eq_dec chunk_size 0) as [H0|Hpos].
  - exists (workers_count - 1). rewrite Z.eqb_refl, H0. lia.
  - destruct (Z_lt_le_dec (x / chunk_size) (workers_count - 1)) as [Hlt|Hge].
    + exists (x / chunk_size).
      pose proof (Z.div_pos x chunk_size ltac:(lia) ltac:(lia)).
      pose proof (Z.div_mod x chunk_size Hpos).
      pose proof (Z.mod_pos_bound x chunk_size ltac:(lia)).
      destruct (Z.eqb_spec (x / chunk_size) (workers_count - 1)); [lia|].
      split; [lia|]. split; nia.
    + exists (workers_count - 1). rewrite Z.eqb_refl.
      split; [lia|]. split; [|lia].
      pose proof (Z.div_mod x chunk_size Hpos).
      pose proof (Z.mod_pos_bound x chunk_size ltac:(lia)).
      nia.
Qed.

Lemma start_workers_lookup (entropy : Z -> Z) (i : Z) :
  0 <= i < workers_count ->
  exists ranges,
    start_workers workers_count entropy = Ok ranges
    /\ length ranges = Z.to_nat workers_count
    /\ ranges !! Z.to_nat i = Some (worker_range workers_count i (entropy i)).
Proof.
  intros Hi. unfold start_workers.
  destruct (Z.leb_spec workers_count 0) as [?|_]; [lia|].
  eexists. split; [reflexivity|]. split.
  - rewrite length_map, length_seqZ. reflexivity.
  - change (map ?f ?l) with (f <$> l).
    rewrite list_lookup_fmap, lookup_seqZ_lt by lia.
    cbn. rewrite Z2Nat.id by lia. reflexivity.
Qed.

End Partition.

(** C5 (as the code has it).  For every worker count of at least one,
    worker [i] is given the range that starts at [i * chunk_size] plus
    an offset drawn between 0 and a hundredth of a chunk, and that ends
    at [(i + 1) * chunk_size], at 2^64 for the last worker.  The last
    range ends at 2^64 and every nonce of the space falls in the chunk
    of some worker: the nonce is in that worker's range or in the prefix
    the random offset skips.  When every offset drawn is zero the ranges
    cover the whole space. *)
Theorem start_workers_partition (workers_count : Z) (entropy : Z -> Z) :
  1 <= workers_count ->
  let chunk_size := FullAuto.TOTAL_NONCE_SPACE / workers_count in
  exists ranges,
    FullAuto.start_workers workers_count entropy = Ok ranges
    /\ length ranges = Z.to_nat workers_count
    /\ (forall (i : nat) (s e : Z),
          ranges !! i = Some (s, e) ->
          let offset :=
            FullAuto.randint 0 (chunk_size / 100) (entropy (Z.of_nat i)) in
          0 <= offset <= chunk_size / 100
          /\ s = Z.of_nat i * chunk_size + offset
          /\ e = (if Z.of_nat i =? workers_count - 1 then 2 ^ 64
                  else (Z.of_nat i + 1) * chunk_size))
    /\ (exists s, ranges !! (length ranges - 1)%nat = Some (s, 2 ^ 64))
    /\ (forall x, 0 <= x < 2 ^ 64 ->
          exists (i : nat) (s e : Z),
            ranges !! i = Some (s, e)
            /\ (s <= x < e
                \/ (Z.of_nat i * chunk_size <= x < s
                    /\ s - Z.of_nat i * chunk_size <= chunk_size / 100)))
    /\ ((forall i, entropy i mod (chunk_size / 100 + 1) = 0) ->
        covers ranges).
Proof.
  intros Hcount chunk_size.
  destruct (start_workers_lookup workers_count Hcount entropy 0 ltac:(lia))
    as (ranges & Hstart & Hlen & _).
  exists ranges. split; [exact Hstart|]. split; [exact Hlen|].
  assert (Hlookup : forall i, 0 <= i < workers_count ->
            ranges !! Z.to_nat i
            = Some (FullAuto.worker_range workers_count i (entropy i))).
  { intros i Hi.
    destruct (start_workers_lookup workers_count Hcount entropy i Hi)
      as (ranges' & Hstart' & _ & Hl).
    rewrite Hstart in Hstart'. injection Hstart' as <-. exact Hl. }
  split.
  { intros i s e Hi. cbn zeta.
    assert (Hlt : (i < length ranges)%nat) by (eapply lookup_lt_Some; eauto).
    pose proof (Hlookup (Z.of_nat i) ltac:(lia)) as Hl.
    rewrite Nat2Z.id, Hi in Hl. injection Hl as Hs He.
    destruct (chunk_size_bounds workers_count Hcount) as [Hc _].
    split; [|split; [exact Hs|exact He]].
    apply (randint_bounds workers_count). apply Z.div_pos; [exact Hc|lia]. }
  split.
  { pose proof (Hlookup (workers_count - 1) ltac:(lia)) as Hl.
    pose proof (worker_range_bounds workers_count Hcount (workers_count - 1)
                  (entropy (workers_count - 1))) as [_ He].
    rewrite Z.eqb_refl in He.
    replace (length ranges - 1)%nat with (Z.to_nat (workers_count - 1))
      by lia.
    rewrite Hl.
    destruct (FullAuto.worker_range workers_count (workers_count - 1) _)
      as [s e]. cbn [snd] in He. subst e. eauto. }
  assert (Hchunk : forall x, 0 <= x < 2 ^ 64 ->
            exists i, 0 <= i < workers_count /\
              let r := FullAuto.worker_range workers_count i (entropy i) in
              ranges !! Z.to_nat i = Some r
              /\ i * chunk_size <= x < snd r
              /\ i * chunk_size <= fst r <= i * chunk_size + chunk_size / 100).
  { intros x Hx.
    destruct (chunk_of_nonce workers_count Hcount x Hx) as (i & Hi & Hlo & Hhi).
    exists i. split; [exact Hi|]. cbn zeta.
    pose proof (worker_range_bounds workers_count Hcount i (entropy i))
      as [Hs He].
    rewrite He. fold chunk_size in Hlo, Hhi, Hs |- *. auto. }
  split.
  - intros x Hx. destruct (Hchunk x Hx) as (i & Hi & Hl & Hx' & Hs).
    destruct (FullAuto.worker_range workers_count i (entropy i)) as [s e].
    cbn [fst snd] in *.
    exists (Z.to_nat i), s, e. split; [exact Hl|].
    rewrite Z2Nat.id by lia.
    destruct (Z_lt_le_dec x s); [right|left]; lia.
  - intros Hzero x Hx. destruct (Hchunk x Hx) as (i & Hi & Hl & Hx' & Hs).
    exists (FullAuto.worker_range workers_count i (entropy i)).
    split; [eapply list_elem_of_lookup_2; exact Hl|].
    unfold FullAuto.in_range. split; [|lia].
    unfold FullAuto.worker_range, FullAuto.randint. cbn [fst].
    fold chunk_size. rewrite Z.sub_0_r, Hzero. lia.
Qed.

Lemma start_workers_partition_witness :
  exists ranges,
    FullAuto.start_workers 3 (fun i => 7 * i) = Ok ranges
    /\ (exists s, ranges !! 2%nat = Some (s, 2 ^ 64)).
Proof.
  destruct (start_workers_partition 3 (fun i => 7 * i) ltac:(lia))
    as (ranges & Hstart & Hlen & _ & Hlast & _).
  exists ranges. split; [exact Hstart|].
  rewrite Hlen in Hlast. exact Hlast.
Defined.

(** With one worker and an offset of one, nonce 0 is in no range. *)
Lemma offset_leaves_a_gap :
  FullAuto.start_workers 1 (fun _ => 1) = Ok [(1, 2 ^ 64)]
  /\ ~ covers [(1, 2 ^ 64)].
Proof.
  split; [vm_compute; reflexivity|].
  intros H. destruct (H 0 ltac:(vm_compute; split; [discriminate|reflexivity]))
    as (r & Hr & Hin).
  apply list_elem_of_singleton in Hr. subst r.
  unfold FullAuto.in_range in Hin. cbn [fst] in Hin. lia.
Qed.

(* ===================================================================== *)
(** * Orchestrator: installing a challenge *)
(* ===================================================================== *)

Lemma all_in_dict (keys : list pystr) (d : gmap pystr pyval) :
  all_in keys (PyDict d)
    = Ok (forallb (fun k => bool_decide (is_Some (d !! k))) keys).
Proof.
  induction keys as [|k keys IH]; [reflexivity|].
  cbn [all_in forallb py_in mbind result_bind].
  destruct (bool_decide (is_Some (d !! k))); [exact IH|reflexivity].
Qed.

Lemma all_in_has_keys (keys : list pystr) (d : gmap pystr pyval) :
  all_in keys (PyDict d) = Ok true <-> has_keys keys d.
Proof.
  rewrite all_in_dict. unfold has_keys. split.
  - intros [= H] k Hk. rewrite forallb_forall in H.
    apply list_elem_of_In in Hk. apply H in Hk.
    apply bool_decide_eq_true in Hk. exact Hk.
  - intros H. f_equal. apply forallb_forall. intros k Hk.
    apply bool_decide_eq_true, H, list_elem_of_In, Hk.
Qed.

(** Past the membership test, only a dictionary lets the lookups of the
    log message through. *)
Lemma getitem_is_dict (ch : pyval) (k : pystr) (v : pyval) :
  py_getitem ch k = Ok v -> exists d, ch = PyDict d.
Proof. destruct ch; try discriminate. eauto. Qed.

Section Install.

Import Orchestrator.

Variables (sc : option Z) (resp current : pyval).

(** A challenge that has the required keys is the response's own
    entry, not the empty default. *)
Lemma challenge_entry (r d : gmap pystr pyval) :
  dict_get r (lit "challenge") (PyDict ∅) = PyDict d ->
  has_keys required4 d ->
  r !! lit "challenge" = Some (PyDict d).
Proof.
  unfold dict_get. intros Hd Hkeys.
  destruct (r !! lit "challenge") as [c|]; cbn in Hd; [congruence|].
  injection Hd as <-.
  destruct (Hkeys (lit "challenge_id")) as [x Hx];
    [apply list_elem_of_here|].
  rewrite lookup_empty in Hx. discriminate.
Qed.

Lemma run_startup_installs (new : pyval) :
  run_startup sc resp current = (new, Ok true) ->
  exists r d,
    resp = PyDict r /\ is_200 sc = true
    /\ py_eq_lit (dict_get r (lit "code") PyNone) "active" = true
    /\ r !! lit "challenge" = Some (PyDict d)
    /\ new = PyDict d /\ has_keys required4 d.
Proof.
  unfold run_startup. destruct resp as [| | |r]; try discriminate.
  destruct (is_200 sc) eqn:H200; [|discriminate]. cbn [negb].
  destruct (py_eq_lit (dict_get r (lit "code") PyNone) "active") eqn:Hcode;
    [|discriminate]. cbn [negb].
  destruct (all_in required4 _) as [[|]|e] eqn:Hall; try discriminate.
  destruct (_ ← py_getitem _ (lit "challenge_id"); _) as [v|e] eqn:Hget;
    [|discriminate].
  intros [= <-]. exists r.
  destruct (py_getitem (dict_get r (lit "challenge") (PyDict ∅))
              (lit "challenge_id")) as [v0|e] eqn:Hg0; [|discriminate].
  apply getitem_is_dict in Hg0 as [d Hd].
  exists d. rewrite Hd in Hall |- *. apply all_in_has_keys in Hall.
  apply (challenge_entry r d) in Hd; [|exact Hall].
  repeat split; auto.
Qed.

Lemma refresh_challenge_installs (new : pyval) :
  refresh_challenge sc resp current = (new, Ok true) ->
  exists r d,
    resp = PyDict r /\ is_200 sc = true
    /\ py_eq_lit (dict_get r (lit "code") PyNone) "active" = true
    /\ r !! lit "challenge" = Some (PyDict d)
    /\ new = PyDict d /\ has_keys required5 d.
Proof.
  unfold refresh_challenge. destruct resp as [| | |r]; try discriminate.
  destruct (is_200 sc) eqn:H200; [|discriminate]. cbn [negb].
  destruct (py_eq_lit _ "before" || py_eq_lit _ "after"); [discriminate|].
  destruct (py_eq_lit (dict_get r (lit "code") PyNone) "active") eqn:Hcode;
    [|discriminate]. cbn [negb].
  destruct (all_in required5 _) as [[|]|e] eqn:Hall; try discriminate.
  destruct (_ ← current_id current; _) as [v|e] eqn:Hget; [|discriminate].
  intros [= <-]. exists r.
  destruct (current_id current) as [cid|e]; [|discriminate].
  cbn [mbind result_bind] in Hget.
  apply getitem_is_dict in Hget as [d Hd].
  exists d. rewrite Hd in Hall |- *. apply all_in_has_keys in Hall.
  apply (challenge_entry r d) in Hd;
    [|intros k Hk; apply Hall, list_elem_of_In;
      apply list_elem_of_In in Hk; simpl in *; tauto].
  repeat split; auto.
Qed.

(** When [run] does not install, the Challenge State stays as it was. *)
Lemma run_startup_otherwise (new : pyval) (res : result bool) :
  run_startup sc resp current = (new, res) ->
  res <> Ok true -> new = current.
Proof.
  unfold run_startup. destruct resp as [| | |r]; try (intros [= <- <-]; auto).
  destruct (is_200 sc); cbn [negb]; [|intros [= <- <-]; auto].
  destruct (py_eq_lit (dict_get r (lit "code") PyNone) "active");
    cbn [negb]; [|intros [= <- <-]; auto].
  destruct (all_in required4 _) as [[|]|e]; try (intros [= <- <-]; auto).
  destruct (_ ← py_getitem _ (lit "challenge_id"); _) as [v|e];
    intros [= <- <-]; [congruence|auto].
Qed.

(** When [refresh_challenge] does not install, the Challenge State
    stays as it was or is reset to [None]. *)
Lemma refresh_challenge_otherwise (new : pyval) (res : result bool) :
  refresh_challenge sc resp current = (new, res) ->
  res <> Ok true -> new = current \/ new = PyNone.
Proof.
  unfold refresh_challenge.
  destruct resp as [| | |r]; try (intros [= <- <-]; auto).
  destruct (is_200 sc); cbn [negb]; [|intros [= <- <-]; auto].
  destruct (py_eq_lit _ "before" || py_eq_lit _ "after");
    [intros [= <- <-]; auto|].
  destruct (py_eq_lit (dict_get r (lit "code") PyNone) "active");
    cbn [negb]; [|intros [= <- <-]; auto].
  destruct (all_in required5 _) as [[|]|e]; try (intros [= <- <-]; auto).
  destruct (_ ← current_id current; _) as [v|e];
    intros [= <- <-]; [congruence|auto].
Qed.

Lemma missing_key (keys : list pystr) (k : pystr) (d : gmap pystr pyval) :
  k ∈ keys -> d !! k = None -> all_in keys (PyDict d) = Ok false.
Proof.
  intros Hk Hnone. rewrite all_in_dict. f_equal.
  apply not_true_is_false. intros H. rewrite forallb_forall in H.
  apply list_elem_of_In in Hk. apply H in Hk.
  apply bool_decide_eq_true in Hk as [x Hx]. congruence.
Qed.

Lemma run_startup_missing (r d : gmap pystr pyval) :
  r !! lit "challenge" = Some (PyDict d) ->
  d !! lit "latest_submission" = None ->
  run_startup sc (PyDict r) current = (current, Ok false).
Proof.
  intros Hch Hls. unfold run_startup.
  replace (dict_get r (lit "challenge") (PyDict ∅)) with (PyDict d)
    by (unfold dict_get; rewrite Hch; reflexivity).
  rewrite (missing_key required4 (lit "latest_submission") d);
    [|apply list_elem_of_In; simpl; tauto|exact Hls].
  destruct (is_200 sc); [|reflexivity].
  destruct (py_eq_lit _ "active"); reflexivity.
Qed.

Lemma refresh_challenge_missing (r d : gmap pystr pyval) :
  r !! lit "challenge" = Some (PyDict d) ->
  d !! lit "latest_submission" = None ->
  snd (refresh_challenge sc (PyDict r) current) = Ok false.
Proof.
  intros Hch Hls. unfold refresh_challenge.
  replace (dict_get r (lit "challenge") (PyDict ∅)) with (PyDict d)
    by (unfold dict_get; rewrite Hch; reflexivity).
  rewrite (missing_key required5 (lit "latest_submission") d);
    [|apply list_elem_of_In; simpl; tauto|exact Hls].
  destruct (is_200 sc); [|reflexivity]. cbn [negb].
  destruct (py_eq_lit _ "before" || py_eq_lit _ "after"); [reflexivity|].
  destruct (py_eq_lit _ "active"); reflexivity.
Qed.

End Install.

Section Conditions.

Import Orchestrator.

Variables (sc : option Z) (r : gmap pystr pyval) (current : pyval).

Lemma is_200_spec : is_200 sc = true <-> sc = Some 200.
Proof.
  unfold is_200. destruct sc as [code|]; [|split; discriminate].
  rewrite Z.eqb_eq. split; congruence.
Qed.

Lemma code_is (s : string) :
  py_eq_lit (dict_get r (lit "code") PyNone) s = true
  <-> r !! lit "code" = Some (PyStr (lit s)).
Proof.
  unfold dict_get.
  destruct (r !! lit "code") as [[| |t|]|]; cbn;
    try (split; [discriminate|congruence]).
  rewrite bool_decide_eq_true. split; congruence.
Qed.

(** Only the presence of the keys is tested. *)
Lemma run_startup_accepts (d : gmap pystr pyval) :
  sc = Some 200 ->
  r !! lit "code" = Some (PyStr (lit "active")) ->
  r !! lit "challenge" = Some (PyDict d) ->
  has_keys required4 d ->
  run_startup sc (PyDict r) current = (PyDict d, Ok true).
Proof.
  intros H200 Hcode Hch Hkeys. unfold run_startup.
  rewrite (proj2 is_200_spec H200), (proj2 (code_is "active") Hcode).
  cbn [negb].
  replace (dict_get r (lit "challenge") (PyDict ∅)) with (PyDict d)
    by (unfold dict_get; rewrite Hch; reflexivity).
  rewrite (proj2 (all_in_has_keys required4 d) Hkeys).
  destruct (Hkeys (lit "challenge_id")) as [v1 H1];
    [apply list_elem_of_In; simpl; tauto|].
  destruct (Hkeys (lit "difficulty")) as [v2 H2];
    [apply list_elem_of_In; simpl; tauto|].
  destruct (Hkeys (lit "latest_submission")) as [v3 H3];
    [apply list_elem_of_In; simpl; tauto|].
  unfold py_getitem, dict_getitem. rewrite H1, H2, H3. reflexivity.
Qed.

Lemma refresh_challenge_accepts (d : gmap pystr pyval) :
  sc = Some 200 ->
  r !! lit "code" = Some (PyStr (lit "active")) ->
  r !! lit "challenge" = Some (PyDict d) ->
  has_keys required5 d ->
  current = PyNone \/ (exists c, current = PyDict c) ->
  refresh_challenge sc (PyDict r) current = (PyDict d, Ok true).
Proof.
  intros H200 Hcode Hch Hkeys Hcur. unfold refresh_challenge.
  rewrite (proj2 is_200_spec H200), (proj2 (code_is "active") Hcode).
  cbn [negb].
  replace (py_eq_lit (dict_get r (lit "code") PyNone) "before") with false
    by (unfold dict_get; rewrite Hcode; reflexivity).
  replace (py_eq_lit (dict_get r (lit "code") PyNone) "after") with false
    by (unfold dict_get; rewrite Hcode; reflexivity).
  cbn [orb].
  replace (dict_get r (lit "challenge") (PyDict ∅)) with (PyDict d)
    by (unfold dict_get; rewrite Hch; reflexivity).
  rewrite (proj2 (all_in_has_keys required5 d) Hkeys).
  destruct (Hkeys (lit "challenge_id")) as [v1 H1];
    [apply list_elem_of_In; simpl; tauto|].
  assert (Hid : exists v, current_id current = Ok v).
  { unfold current_id. destruct Hcur as [->|[c ->]]; [cbn; eauto|].
    destruct (py_not (PyDict c)); eauto. }
  destruct Hid as [v ->]. cbn [mbind result_bind].
  unfold py_getitem, dict_getitem. rewrite H1. reflexivity.
Qed.

(** A 200 response whose code is not ["active"] resets the Challenge
    State. *)
Lemma refresh_challenge_resets :
  sc = Some 200 ->
  r !! lit "code" <> Some (PyStr (lit "active")) ->
  refresh_challenge sc (PyDict r) current = (PyNone, Ok false).
Proof.
  intros H200 Hcode. unfold refresh_challenge.
  rewrite (proj2 is_200_spec H200). cbn [negb].
  destruct (py_eq_lit _ "before" || py_eq_lit _ "after"); [reflexivity|].
  destruct (py_eq_lit (dict_get r (lit "code") PyNone) "active") eqn:Ha;
    [|reflexivity].
  apply code_is in Ha. contradiction.
Qed.

End Conditions.

(** Nothing else changes the Challenge State. *)
Lemma refresh_challenge_changes (sc : option Z) (resp current new : pyval)
    (res : result bool) :
  Orchestrator.refresh_challenge sc resp current = (new, res) ->
  res <> Ok true ->
  new = current
  \/ (new = PyNone
      /\ exists r, resp = PyDict r /\ sc = Some 200
                   /\ r !! lit "code" <> Some (PyStr (lit "active"))).
Proof.
  unfold Orchestrator.refresh_challenge.
  destruct resp as [| | |r]; try (intros [= <- <-]; auto).
  destruct (is_200 sc) eqn:H200; cbn [negb]; [|intros [= <- <-]; auto].
  apply is_200_spec in H200.
  destruct (py_eq_lit (dict_get r (lit "code") PyNone) "active") eqn:Ha.
  - assert (Hcode := proj1 (code_is r "active") Ha).
    replace (py_eq_lit (dict_get r (lit "code") PyNone) "before") with false
      by (unfold dict_get; rewrite Hcode; reflexivity).
    replace (py_eq_lit (dict_get r (lit "code") PyNone) "after") with false
      by (unfold dict_get; rewrite Hcode; reflexivity).
    cbn [orb negb].
    destruct (all_in Orchestrator.required5 _) as [[|]|e];
      try (intros [= <- <-]; auto).
    destruct (_ ← Orchestrator.current_id current; _) as [v|e];
      intros [= <- <-]; [congruence|auto].
  - assert (Hcode : r !! lit "code" <> Some (PyStr (lit "active"))).
    { intros H. apply (code_is r "active") in H. congruence. }
    cbn [negb].
    destruct (py_eq_lit _ "before" || py_eq_lit _ "after");
      intros [= <- <-] _; right; split; eauto.
Qed.

(** C6 (as the code has it).  [run] installs a challenge only from a
    response of status 200 whose code is ["active"] and whose challenge
    is a dictionary with the four keys challenge_id, difficulty,
    no_pre_mine and latest_submission; [refresh_challenge] asks for
    no_pre_mine_hour as well.  Only the presence of the keys is tested:
    every such response is installed, whatever the values are.  A
    response whose challenge lacks latest_submission is therefore never
    installed.  When nothing is installed [run] leaves the Challenge
    State as it was; [refresh_challenge] resets it to [None] when the
    status is 200 and the code is not ["active"], and leaves it as it
    was in every other case. *)
Theorem challenge_installation (sc : option Z) (resp current : pyval) :
  (forall new,
      Orchestrator.run_startup sc resp current = (new, Ok true) ->
      exists r d,
        resp = PyDict r /\ sc = Some 200
        /\ r !! lit "code" = Some (PyStr (lit "active"))
        /\ r !! lit "challenge" = Some (PyDict d)
        /\ new = PyDict d /\ has_keys Orchestrator.required4 d)
  /\ (forall new,
      Orchestrator.refresh_challenge sc resp current = (new, Ok true) ->
      exists r d,
        resp = PyDict r /\ sc = Some 200
        /\ r !! lit "code" = Some (PyStr (lit "active"))
        /\ r !! lit "challenge" = Some (PyDict d)
        /\ new = PyDict d /\ has_keys Orchestrator.required5 d)
  /\ (forall r d,
      resp = PyDict r -> sc = Some 200 ->
      r !! lit "code" = Some (PyStr (lit "active")) ->
      r !! lit "challenge" = Some (PyDict d) ->
      (has_keys Orchestrator.required4 d ->
       Orchestrator.run_startup sc resp current = (PyDict d, Ok true))
      /\ (has_keys Orchestrator.required5 d ->
          current = PyNone \/ (exists c, current = PyDict c) ->
          Orchestrator.refresh_challenge sc resp current
          = (PyDict d, Ok true)))
  /\ (forall r d,
      resp = PyDict r -> r !! lit "challenge" = Some (PyDict d) ->
      d !! lit "latest_submission" = None ->
      Orchestrator.run_startup sc resp current = (current, Ok false)
      /\ snd (Orchestrator.refresh_challenge sc resp current) = Ok false)
  /\ (forall new res,
      Orchestrator.run_startup sc resp current = (new, res) ->
      res <> Ok true -> new = current)
  /\ (forall r,
      resp = PyDict r -> sc = Some 200 ->
      r !! lit "code" <> Some (PyStr (lit "active")) ->
      Orchestrator.refresh_challenge sc resp current = (PyNone, Ok false))
  /\ (forall new res,
      Orchestrator.refresh_challenge sc resp current = (new, res) ->
      res <> Ok true ->
      new = current
      \/ (new = PyNone
          /\ exists r, resp = PyDict r /\ sc = Some 200
                       /\ r !! lit "code" <> Some (PyStr (lit "active")))).
Proof.
  split.
  { intros new H.
    destruct (run_startup_installs sc resp current new H)
      as (r & d & H1 & H200 & Hcode & H2 & H3 & H4).
    apply is_200_spec in H200. apply code_is in Hcode. eauto 10. }
  split.
  { intros new H.
    destruct (refresh_challenge_installs sc resp current new H)
      as (r & d & H1 & H200 & Hcode & H2 & H3 & H4).
    apply is_200_spec in H200. apply code_is in Hcode. eauto 10. }
  split.
  { intros r d -> H200 Hcode Hch. split.
    - intros Hkeys. apply run_startup_accepts; assumption.
    - intros Hkeys Hcur. apply refresh_challenge_accepts; assumption. }
  split.
  { intros r d -> Hch Hls. split.
    - apply (run_startup_missing sc current r d Hch Hls).
    - apply (refresh_challenge_missing sc current r d Hch Hls). }
  split.
  { intros new res. apply run_startup_otherwise. }
  split.
  { intros r -> H200 Hcode. apply refresh_challenge_resets; assumption. }
  intros new res. apply refresh_challenge_changes.
Qed.

Lemma challenge_installation_witness :
  has_keys Orchestrator.required4 sample_challenge
  /\ Orchestrator.run_startup (Some 200)
       (active_response (delete (lit "latest_submission") sample_challenge))
       PyNone = (PyNone, Ok false).
Proof.
  destruct (challenge_installation (Some 200) (active_response sample_challenge)
              PyNone) as (Hrun & _).
  destruct (Hrun (PyDict sample_challenge) ltac:(vm_compute; reflexivity))
    as (r & d & Hr & _ & _ & Hd & [= <-] & Hkeys).
  split; [exact Hkeys|].
  destruct (challenge_installation (Some 200)
              (active_response (delete (lit "latest_submission")
                                  sample_challenge)) PyNone)
    as (_ & _ & _ & Hmissing & _).
  refine (proj1 (Hmissing _ _ eq_refl _ _)).
  - vm_compute. reflexivity.
  - vm_compute. reflexivity.
Defined.

(** A challenge whose four fields are empty strings and which has no
    no_pre_mine_hour is installed by [run]. *)
Lemma empty_fields_are_installed :
  Orchestrator.run_startup (Some 200) (active_response bare_challenge) PyNone
    = (PyDict bare_challenge, Ok true)
  /\ bare_challenge !! lit "no_pre_mine_hour" = None
  /\ bare_challenge !! lit "latest_submission" = Some (PyStr []).
Proof. vm_compute. repeat split. Qed.

(* ===================================================================== *)
(** * The range worker of fullauto&workerrandom.py *)
(* ===================================================================== *)

Lemma bind_stop_event_is_set {A} (by_others : bool) (k : bool -> io A)
    (st : wstate) :
  (stop_event_is_set by_others ≫= k) st
    = k (stop_event st || by_others) (fst (stop_event_is_set by_others st)).
Proof. reflexivity. Qed.

(** [Stats] has no method [increment_hashes]: the first chunk received
    raises, so the loop returns only what it was given. *)
Lemma recv_response_counts_nothing (conn : nat)
    (script : list (bool * recv_outcome)) (response_data : list byte)
    (st : wstate) :
  let r := FullAuto.recv_response conn script response_data st in
  hashes (fst r) = hashes st
  /\ (forall out, snd r = Ok out -> out = response_data).
Proof.
  cbn zeta. revert response_data st.
  induction script as [|[by_others got] script IH]; intros response_data st;
    cbn [FullAuto.recv_response]; [split; [reflexivity|discriminate]|].
  rewrite bind_stop_event_is_set.
  destruct (stop_event st || by_others);
    [split; [reflexivity|cbn; congruence]|].
  rewrite bind_emit.
  destruct got as [[|c b]|].
  - split; [reflexivity|cbn; congruence].
  - split; [reflexivity|discriminate].
  - split; [reflexivity|discriminate].
Qed.

(** The call never counts a hash and never returns a response. *)
Lemma call_daemon_with_range_counts_nothing (request_bytes : list byte)
    (json_loads : list byte -> result pyval) (connects sends : bool)
    (script : list (bool * recv_outcome)) (st : wstate) :
  let r := FullAuto.call_daemon_with_range request_bytes json_loads
             connects sends script st in
  hashes (fst r) = hashes st /\ snd r = Ok None.
Proof.
  cbn zeta. unfold FullAuto.call_daemon_with_range, try_except.
  unfold mbind, io_bind, emit. cbn [fst snd].
  destruct connects; cbn [mret io_ret raise fst snd hashes];
    [|split; reflexivity].
  destruct sends; cbn [mret io_ret raise fst snd hashes];
    [|split; reflexivity].
  match goal with
  | |- context [FullAuto.recv_response ?c ?s ?d ?st0] =>
      pose proof (recv_response_counts_nothing c s d st0) as [Hh Hout];
      destruct (FullAuto.recv_response c s d st0) as [st1 [out|e]]
  end; cbn [fst snd hashes] in *; [|auto].
  rewrite (Hout out eq_refl). cbn. auto.
Qed.

(* ===================================================================== *)
(** * The worker loop and the stop event *)
(* ===================================================================== *)

(** Once the stop event is set the worker starts no further round. *)
Lemma run_ends_when_stopped
    (submit_phase : pystr -> pyval -> pystr -> (nat -> http_outcome) -> io unit)
    (address : pystr) (submit_on_find : bool)
    (rounds : list (bool * pyval * (nat -> iter_env))) (st : wstate) :
  stop_event st = true ->
  run submit_phase address submit_on_find rounds st = (st, Ok tt).
Proof.
  intros Hstop. destruct rounds as [|[[by_others current] envs] rounds];
    [reflexivity|].
  cbn [run]. unfold mbind, io_bind, stop_event_is_set.
  rewrite Hstop. cbn. destruct st; cbn in *; subst; reflexivity.
Qed.

Example verifier_raises_on_a_number :
  hash_meets_difficulty (PyInt 12345678) (PyStr (lit "ffffffff"))
    = Raise TypeError.
Proof. reflexivity. Qed.
(* ===================================================================== *)
(** * Nonces, masks and URLs *)
(* ===================================================================== *)

Section Nonce.

Lemma hexchar_lower (d : Z) :
  0 <= d < 16 ->
  is_lower_hex (hexchar d) = true
  /\ Z.of_N (PyLong.DigitValue (hexchar d)) = d.
Proof.
  intros Hd. unfold hexchar, is_lower_hex, PyLong.DigitValue.
  destruct (Z.ltb_spec d 10) as [Hlt|Hge].
  - assert (Hk : exists k, d = Z.of_N k /\ (k < 10)%N).
    { exists (Z.to_N d). lia. }
    destruct Hk as (k & -> & Hk).
    replace (Z.to_N (48 + Z.of_N k)) with (48 + k)%N by lia.
    destruct (N.leb_spec 48 (48 + k)); [|lia].
    destruct (N.leb_spec (48 + k) 57); [|lia]. cbn. lia.
  - assert (Hk : exists k, d = Z.of_N k /\ (10 <= k < 16)%N).
    { exists (Z.to_N d). lia. }
    destruct Hk as (k & -> & Hk).
    replace (Z.to_N (87 + Z.of_N k)) with (87 + k)%N by lia.
    destruct (N.leb_spec 48 (87 + k)); [|lia].
    destruct (N.leb_spec (87 + k) 57); [lia|].
    destruct (N.leb_spec 97 (87 + k)); [|lia].
    destruct (N.leb_spec (87 + k) 102); [|lia].
    destruct (N.leb_spec (87 + k) 122); [|lia]. cbn. lia.
Qed.

Lemma lower_hex_is_hex (c : N) :
  is_lower_hex c = true -> is_hex_digit c = true.
Proof.
  unfold is_lower_hex, is_hex_digit. intros H.
  apply orb_true_iff. left. exact H.
Qed.

Lemma hex_value_snoc (s : pystr) (c : N) :
  hex_value (s ++ [c]) = hex_value s * 16 + Z.of_N (PyLong.DigitValue c).
Proof. unfold hex_value. rewrite fold_left_app. reflexivity. Qed.

Lemma hex_digits_spec (width : nat) (v : Z) :
  length (hex_digits width v) = width
  /\ forallb is_lower_hex (hex_digits width v) = true
  /\ hex_value (hex_digits width v) = v mod 16 ^ Z.of_nat width.
Proof.
  revert v. induction width as [|k IH]; intros v.
  - cbn. rewrite Z.mod_1_r. auto.
  - cbn [hex_digits]. destruct (IH (v / 16)) as (Hl & Hd & Hv).
    pose proof (Z.mod_pos_bound v 16 ltac:(lia)) as Hm.
    destruct (hexchar_lower (v mod 16) Hm) as [Hc Hdv].
    split; [rewrite length_app, Hl; cbn; lia|].
    split; [rewrite forallb_app, Hd; cbn; rewrite Hc; reflexivity|].
    rewrite hex_value_snoc, Hv, Hdv.
    replace (Z.of_nat (S k)) with (1 + Z.of_nat k) by lia.
    rewrite Z.pow_add_r, Z.pow_1_r by lia.
    rewrite (Z.rem_mul_r v 16 (16 ^ Z.of_nat k)) by lia. lia.
Qed.

End Nonce.

(** X1.  A nonce is sixteen digits of [0-9a-f], and [int(_, 16)] reads back
    from it the 64 bits the generator drew: two draws give the same
    nonce only when they are the same number. *)
Theorem hex64_nonce_reads_back (entropy : Z) :
  length (hex64_nonce entropy) = 16%nat
  /\ forallb is_lower_hex (hex64_nonce entropy) = true
  /\ py_int16 (PyStr (hex64_nonce entropy)) = Ok (getrandbits64 entropy)
  /\ 0 <= getrandbits64 entropy < 2 ^ 64
  /\ (forall entropy',
        hex64_nonce entropy = hex64_nonce entropy' ->
        getrandbits64 entropy = getrandbits64 entropy').
Proof.
  unfold hex64_nonce.
  assert (Hread : forall e,
            py_int16 (PyStr (hex_digits 16 (getrandbits64 e)))
            = Ok (getrandbits64 e)).
  { intros e.
    destruct (hex_digits_spec 16 (getrandbits64 e)) as (Hl & Hd & Hv).
    rewrite parse16_hex_digits.
    - rewrite Hv. f_equal. unfold getrandbits64.
      change (16 ^ Z.of_nat 16) with (2 ^ 64). apply Z.mod_mod. lia.
    - intros H. rewrite H in Hl. discriminate.
    - rewrite forallb_forall in Hd |- *. intros c Hc.
      apply lower_hex_is_hex, Hd, Hc. }
  destruct (hex_digits_spec 16 (getrandbits64 entropy)) as (Hl & Hd & _).
  split; [exact Hl|]. split; [exact Hd|]. split; [apply Hread|].
  split; [unfold getrandbits64; apply Z.mod_pos_bound; lia|].
  intros e' Heq. pose proof (Hread entropy) as H1.
  rewrite Heq, Hread in H1. congruence.
Qed.

(** X2.  A hash that meets a difficulty meets every easier one: if every bit
    set in the mask [hard] is set in the mask [easy], what is accepted
    under [hard] is accepted under [easy]. *)
Theorem hash_meets_difficulty_easier (h : pystr) (hard easy : pyval)
    (mh me : Z) :
  py_int16 hard = Ok mh ->
  py_int16 easy = Ok me ->
  Z.land mh me = mh ->
  hash_meets_difficulty (PyStr h) hard = Ok true ->
  hash_meets_difficulty (PyStr h) easy = Ok true.
Proof.
  intros Hh He Hsub.
  destruct (le_lt_dec 8 (length h)) as [Hlen|Hlen].
  2:{ rewrite hash_meets_difficulty_short by exact Hlen. discriminate. }
  rewrite !hash_meets_difficulty_long by exact Hlen. rewrite Hh, He.
  destruct (py_int16 (PyStr (take 8 h))) as [l|e]; [|discriminate].
  intros [= H0]. f_equal. apply Z.eqb_eq in H0. apply Z.eqb_eq.
  apply Z.bits_inj'. intros n Hn. rewrite Z.bits_0.
  apply (f_equal (fun z => Z.testbit z n)) in H0.
  apply (f_equal (fun z => Z.testbit z n)) in Hsub.
  rewrite Z.bits_0 in H0.
  rewrite !Z.land_spec, Z.lnot_spec in * by exact Hn.
  destruct (Z.testbit l n), (Z.testbit mh n), (Z.testbit me n),
    (Z.testbit 4294967295 n); cbn in *; congruence.
Qed.

Lemma hash_meets_difficulty_easier_witness :
  hash_meets_difficulty (PyStr (lit "00f0000012345678")) (PyStr (lit "00ffffff"))
    = Ok true.
Proof.
  apply (hash_meets_difficulty_easier (lit "00f0000012345678")
           (PyStr (lit "00f00000")) (PyStr (lit "00ffffff"))
           0x00f00000 0x00ffffff);
    vm_compute; reflexivity.
Defined.

(** X3.  On a hash that is [None], a string or a dictionary the verifier
    returns a boolean, whatever the difficulty is ([None], a number, a
    string or a dictionary): nothing escapes its [try].  On a hash that
    is an integer it returns [False] for 0 and raises [TypeError] for
    every other ([len] refuses an integer, outside the [try]). *)
Theorem hash_meets_difficulty_raises (h d : pyval) :
  match h with
  | PyInt n =>
      hash_meets_difficulty h d
      = (if n =? 0 then Ok false else Raise TypeError)
  | _ => exists b, hash_meets_difficulty h d = Ok b
  end.
Proof.
  destruct h as [|n|s|m].
  - exists false. reflexivity.
  - unfold hash_meets_difficulty. cbn [py_not].
    destruct (Z.eqb_spec n 0); reflexivity.
  - apply hash_meets_difficulty_total.
  - unfold hash_meets_difficulty. cbn [py_not py_len mbind result_bind].
    destruct (bool_decide (m = ∅)); [eauto|].
    destruct (Z.of_nat (size m) <? 8); eauto.
Qed.

Section Urls.




(** What is left starts with no character of [chars]. *)
Lemma lstrip_chars_head (chars s : pystr) (c : N) :
  head (lstrip_chars chars s) = Some c -> c ∉ chars.
Proof.
  induction s as [|a s IH]; [discriminate|]. cbn.
  destruct (bool_decide_reflect (a ∈ chars)) as [Ha|Ha]; [exact IH|].
  cbn. congruence.
Qed.

Lemma rstrip_chars_last (chars s : pystr) (c : N) :
  last (rstrip_chars chars s) = Some c -> c ∉ chars.
Proof.
  unfold rstrip_chars.
  destruct (lstrip_chars chars (rev s)) as [|a r] eqn:Hs; [discriminate|].
  cbn [rev]. rewrite last_snoc. intros [= <-].
  apply (lstrip_chars_head chars (rev s)). rewrite Hs. reflexivity.
Qed.

End Urls.

(* ===================================================================== *)
(** * One iteration of the batch loop, step by step *)
(* ===================================================================== *)

Lemma bind_ok {A B} (m : io A) (k : A -> io B) (st : wstate) (a : A) :
  snd (m st) = Ok a -> (m ≫= k) st = k a (fst (m st)).
Proof.
  intros H. unfold mbind, io_bind. destruct (m st) as [st1 r].
  cbn [fst snd] in *. subst r. reflexivity.
Qed.

Section BodyEval.

Variable submit_phase :
  pystr -> pyval -> pystr -> (nat -> http_outcome) -> io unit.
Variable address : pystr.
Variable submit_on_find : bool.
Variable challenge : gmap pystr pyval.
Variables difficulty challenge_id : pyval.

Lemma batch_body_eval (env : iter_env) (st : wstate) :
  batch_body submit_phase address submit_on_find challenge difficulty
    challenge_id env st =
  let st0 := fst (stop_event_is_set (ext_stop env) st) in
  let nonce := hex64_nonce (entropy env) in
  if stop_event st || ext_stop env then (st0, Ok Break)
  else if expired env then (st0, Ok Break)
  else
    match build_preimage nonce address challenge with
    | Raise e => (st0, Raise e)
    | Ok pre =>
        let request := pre_with_rom challenge pre in
        match _send_pre_and_recv_hash request (net env) st0 with
        | (st1, Raise e) => (st1, Raise e)
        | (st1, Ok None) =>
            (fst (sleep 10 (fst (emit (EvQuery request None) st1))),
             Ok Continue)
        | (st1, Ok (Some h)) =>
            let st2 := fst (add_hashes 1
                              (fst (emit (EvQuery request (Some h)) st1))) in
            match hash_meets_difficulty (PyStr h) difficulty with
            | Raise e => (st2, Raise e)
            | Ok false => (st2, Ok Continue)
            | Ok true =>
                let st3 := fst (inc_solutions st2) in
                if submit_on_find then
                  match submit_phase address challenge_id nonce (posts env)
                          st3 with
                  | (st4, Ok _) => (fst (sleep 500 st4), Ok Break)
                  | (st4, Raise e) => (st4, Raise e)
                  end
                else (fst (sleep 500 st3), Ok Break)
            end
        end
    end.
Proof.
  unfold batch_body. rewrite bind_stop_event_is_set. cbv zeta.
  destruct (stop_event st || ext_stop env); [reflexivity|].
  destruct (expired env); [reflexivity|].
  unfold mbind at 1. unfold io_bind at 1. unfold lift at 1.
  destruct (build_preimage (hex64_nonce (entropy env)) address challenge)
    as [pre|e]; [|reflexivity].
  unfold mbind at 1. unfold io_bind at 1.
  destruct (_send_pre_and_recv_hash (pre_with_rom challenge pre) (net env)
              (fst (stop_event_is_set (ext_stop env) st)))
    as [st1 [[h|]|e]]; [|reflexivity|reflexivity].
  rewrite bind_emit.
  rewrite (bind_ok (add_hashes 1) _ _ tt eq_refl).
  unfold mbind at 1. unfold io_bind at 1. unfold lift at 1.
  destruct (hash_meets_difficulty (PyStr h) difficulty) as [[|]|e];
    [|reflexivity|reflexivity].
  rewrite (bind_ok inc_solutions _ _ tt eq_refl).
  destruct submit_on_find; [|reflexivity].
  unfold mbind at 1. unfold io_bind at 1.
  match goal with
  | |- context [submit_phase ?a ?c ?n ?p ?s] =>
      destruct (submit_phase a c n p s) as [st4 [[]|e]]
  end; reflexivity.
Qed.

End BodyEval.
(* ===================================================================== *)
(** * Relations every action of a worker goes along with *)
(* ===================================================================== *)

Section Respects.

Context (R : relation wstate) (P : event -> Prop) `{!respects R P}.

Hypothesis Hexchange : forall e, exchange e = true -> P e.

Local Hint Resolve respects_set_sock respects_stop_event_is_set : frame.

Lemma respects_wire (e : event) : exchange e = true -> framed R (emit e).
Proof. intros He. apply respects_emit, Hexchange, He. Qed.

Lemma respects_sleep (ms : Z) : framed R (sleep ms).
Proof. apply respects_wire. reflexivity. Qed.

Lemma respects_sendall (data : list byte) (net : net_script) :
  framed R (sendall data net).
Proof.
  unfold sendall.
  apply framed_bind; [typeclasses eauto|apply framed_get_sock, _|].
  intros [c|]; [|apply framed_raise, _].
  apply framed_bind; [typeclasses eauto|by apply respects_wire|].
  intros _. destruct (send_ok net); [apply framed_ret, _|apply framed_raise, _].
Qed.

Lemma respects_recv_loop (conn : nat) (script : list recv_outcome)
    (buf : list byte) : framed R (recv_loop conn script buf).
Proof.
  revert buf. induction script as [|got rest IH]; intros buf;
    cbn [recv_loop]; [apply framed_raise, _|].
  apply framed_bind; [typeclasses eauto|by apply respects_wire|].
  intros _. destruct got as [[|c b]|];
    [apply framed_raise, _| |apply framed_raise, _].
  destruct (has_newline (c :: b)); [apply framed_ret, _|apply IH].
Qed.

Lemma respects_query_body (preimage : pystr) (net : net_script) :
  framed R (query_body preimage net).
Proof.
  unfold query_body.
  apply framed_bind; [typeclasses eauto|apply framed_lift, _|]. intros bytes.
  apply framed_bind; [typeclasses eauto|apply respects_sendall|]. intros _.
  apply framed_bind; [typeclasses eauto|apply framed_get_sock, _|]. intros s.
  apply framed_bind; [typeclasses eauto|apply respects_recv_loop|]. intros b.
  apply framed_bind; [typeclasses eauto|apply framed_lift, _|]. intros l.
  apply framed_ret, _.
Qed.

Lemma respects_drop_socket : framed R drop_socket.
Proof.
  unfold drop_socket, close_quietly.
  apply framed_bind; [typeclasses eauto| |].
  - apply framed_bind; [typeclasses eauto|apply framed_get_sock, _|].
    intros [c|]; [by apply respects_wire|apply framed_ret, _].
  - intros _. apply framed_bind; [typeclasses eauto|apply respects_set_sock|].
    intros _. apply framed_ret, _.
Qed.

Hypothesis Hconnect : forall ok, P (EvConnect ok).

Lemma respects_ensure_socket (net : net_script) :
  framed R (_ensure_socket net).
Proof.
  unfold _ensure_socket.
  apply framed_bind; [typeclasses eauto|apply framed_get_sock, _|].
  intros [c|]; [apply framed_ret, _|].
  destruct (connect_ok net).
  - intros st. apply respects_connected, Hconnect.
  - apply framed_bind; [typeclasses eauto|apply respects_emit, Hconnect|].
    intros _. apply framed_bind; [typeclasses eauto|apply respects_set_sock|].
    intros _. apply framed_ret, _.
Qed.

(** The oracle client. *)
Lemma respects_send_pre_and_recv_hash (preimage : pystr) (net : net_script) :
  framed R (_send_pre_and_recv_hash preimage net).
Proof.
  unfold _send_pre_and_recv_hash.
  apply framed_bind; [typeclasses eauto|apply respects_ensure_socket|].
  intros ok. destruct (negb ok).
  - apply framed_bind; [typeclasses eauto|apply respects_sleep|].
    intros _. apply framed_ret, _.
  - apply framed_try_except;
      [typeclasses eauto|apply respects_query_body|apply respects_drop_socket].
Qed.

(** The worker, given what its submission phase does. *)
Section Worker.

Variable submit_phase :
  pystr -> pyval -> pystr -> (nat -> http_outcome) -> io unit.
Variable address : pystr.
Variable submit_on_find : bool.

Hypothesis Hquery : forall request response, P (EvQuery request response).
Hypothesis Hcount : P (EvAddHashes 1).
Hypothesis Hfind : P EvIncSolutions.
Hypothesis Hsubmit :
  submit_on_find = true ->
  forall challenge_id nonce posts,
    framed R (submit_phase address challenge_id nonce posts).

Lemma respects_batch_body (challenge : gmap pystr pyval)
    (difficulty challenge_id : pyval) (env : iter_env) :
  framed R (batch_body submit_phase address submit_on_find challenge
              difficulty challenge_id env).
Proof.
  unfold batch_body.
  apply framed_bind;
    [typeclasses eauto|apply respects_stop_event_is_set|].
  intros [|]; [apply framed_ret, _|].
  destruct (expired env); [apply framed_ret, _|].
  apply framed_bind; [typeclasses eauto|apply framed_lift, _|]. intros pre.
  apply framed_bind;
    [typeclasses eauto|apply respects_send_pre_and_recv_hash|].
  intros hh.
  apply framed_bind; [typeclasses eauto|apply respects_emit, Hquery|].
  intros _. destruct hh as [h|].
  - apply framed_bind;
      [typeclasses eauto|apply respects_add_hashes, Hcount|]. intros _.
    apply framed_bind; [typeclasses eauto|apply framed_lift, _|].
    intros [|]; [|apply framed_ret, _].
    apply framed_bind;
      [typeclasses eauto|apply respects_inc_solutions, Hfind|]. intros _.
    apply framed_bind; [typeclasses eauto| |].
    + destruct submit_on_find; [by apply Hsubmit|apply framed_ret, _].
    + intros _. apply framed_bind; [typeclasses eauto|apply respects_sleep|].
      intros _. apply framed_ret, _.
  - apply framed_bind; [typeclasses eauto|apply respects_sleep|].
    intros _. apply framed_ret, _.
Qed.

Lemma respects_batch_loop (challenge : gmap pystr pyval)
    (difficulty challenge_id : pyval) (n i : nat)
    (envs : nat -> iter_env) :
  framed R (batch_loop submit_phase address submit_on_find challenge
              difficulty challenge_id n i envs).
Proof.
  revert i. induction n as [|n IH]; intros i; cbn [batch_loop];
    [apply framed_ret, _|].
  apply framed_bind; [typeclasses eauto|apply respects_batch_body|].
  intros [|]; [apply IH|apply framed_ret, _].
Qed.

Lemma respects_run_round (current : pyval) (envs : nat -> iter_env) :
  framed R (run_round submit_phase address submit_on_find current envs).
Proof.
  unfold run_round.
  assert (Hgo : framed R
    (active ← lift (py_in (lit "latest_submission") current);
     if negb active then sleep 500
     else
       difficulty ← lift (py_getitem current (lit "difficulty"));
       challenge_id ← lift (py_getitem current (lit "challenge_id"));
       _ ← lift (py_getitem current (lit "latest_submission"));
       match current with
       | PyDict challenge =>
           _ ← batch_loop submit_phase address submit_on_find challenge
                 difficulty challenge_id NONCE_BATCH 0 envs;
           sleep 1
       | _ => raise TypeError
       end)).
  { apply framed_bind; [typeclasses eauto|apply framed_lift, _|].
    intros active. destruct (negb active); [apply respects_sleep|].
    apply framed_bind; [typeclasses eauto|apply framed_lift, _|]. intros d.
    apply framed_bind; [typeclasses eauto|apply framed_lift, _|]. intros c.
    apply framed_bind; [typeclasses eauto|apply framed_lift, _|]. intros _.
    destruct current; try apply framed_raise, _.
    apply framed_bind; [typeclasses eauto|apply respects_batch_loop|].
    intros _. apply respects_sleep. }
  destruct current; [apply respects_sleep|exact Hgo..].
Qed.

Lemma respects_run (rounds : list (bool * pyval * (nat -> iter_env))) :
  framed R (run submit_phase address submit_on_find rounds).
Proof.
  induction rounds as [|[[by_others current] envs] rounds IH];
    cbn [run]; [apply framed_ret, _|].
  apply framed_bind;
    [typeclasses eauto|apply respects_stop_event_is_set|].
  intros [|]; [apply framed_ret, _|].
  apply framed_bind; [typeclasses eauto|apply respects_run_round|].
  intros _. exact IH.
Qed.

End Worker.

End Respects.
(* ===================================================================== *)
(** * The submission phases, event by event *)
(* ===================================================================== *)

Section SubmitFramed.

Context (R : relation wstate) `{!PreOrder R}.
Variables (address : pystr) (challenge_id : pyval) (nonce : pystr).
Variable posts : nat -> http_outcome.

Hypothesis Hemit :
  forall e, submission_event address challenge_id nonce e ->
            framed R (emit e).
Hypothesis Hstop : framed R stop_event_set.

Lemma framed_post_solution (log : bool) (answer : http_outcome) :
  framed R (post_solution log address challenge_id nonce answer).
Proof.
  unfold post_solution.
  apply framed_bind; [typeclasses eauto|apply Hemit; cbn; auto|].
  intros _. destruct answer; [apply framed_ret, _|].
  apply framed_bind; [typeclasses eauto| |intros _; apply framed_ret, _].
  destruct log; [apply Hemit; cbn; auto|apply framed_ret, _].
Qed.

Lemma framed_submit_loop (k attempts : nat) (sc : option Z) (st : wstate) :
  (attempts + k = 3)%nat ->
  R st (fst (ChayVot.submit_loop address challenge_id nonce posts attempts
               sc st)).
Proof.
  revert attempts sc st.
  induction k as [|k IH]; intros attempts sc st Hk.
  - rewrite submit_loop_done by lia. reflexivity.
  - rewrite submit_loop_step by lia.
    assert (Hsleep : forall s, R s (fst (sleep 1000 s))).
    { intros s. apply (Hemit (EvSleep 1000)). reflexivity. }
    pose proof (framed_post_solution true (posts attempts) st) as Hpost.
    unfold ChayVot.try_post.
    destruct (post_solution true address challenge_id nonce
                (posts attempts) st) as [st1 [sc1|e]]; cbn [fst] in *.
    + destruct (is_201 sc1).
      * cbn [fst]. etransitivity; [exact Hpost|apply Hstop].
      * etransitivity; [exact Hpost|].
        etransitivity; [apply Hsleep|]. apply IH. lia.
    + etransitivity; [exact Hpost|].
      etransitivity; [apply Hsleep|]. apply IH. lia.
Qed.

Lemma framed_submit_phase_of (f : source_file) :
  framed R (submit_phase_of f address challenge_id nonce posts).
Proof.
  destruct f; cbn [submit_phase_of].
  - unfold PyMiner.submit_phase.
    apply framed_bind; [typeclasses eauto|apply framed_post_solution|].
    intros _. apply framed_ret, _.
  - unfold PyMiner1.submit_phase.
    apply framed_bind; [typeclasses eauto|apply framed_post_solution|].
    intros sc. destruct (is_201 sc); [exact Hstop|apply framed_ret, _].
  - intros st. unfold ChayVot.submit_phase.
    pose proof (framed_submit_loop 3 0 None st eq_refl) as H.
    destruct (ChayVot.submit_loop address challenge_id nonce posts 0 None st)
      as [st1 sc]. cbn [fst] in H.
    destruct (negb (is_201 sc)); [|exact H].
    etransitivity; [exact H|apply Hstop].
Qed.

End SubmitFramed.

(** A submission phase returns normally. *)
Lemma submit_phase_of_returns (f : source_file) (address : pystr)
    (challenge_id : pyval) (nonce : pystr) (posts : nat -> http_outcome)
    (st : wstate) :
  snd (submit_phase_of f address challenge_id nonce posts st) = Ok tt.
Proof.
  destruct f; cbn [submit_phase_of].
  - unfold PyMiner.submit_phase, post_solution.
    destruct (posts O); reflexivity.
  - unfold PyMiner1.submit_phase, post_solution.
    destruct (posts O) as [code|]; [|reflexivity].
    unfold mbind, io_bind. cbn. destruct (code =? 201); reflexivity.
  - unfold ChayVot.submit_phase.
    destruct (ChayVot.submit_loop address challenge_id nonce posts 0 None st)
      as [st1 sc].
    destruct (negb (is_201 sc)); reflexivity.
Qed.

(** What a submission phase adds to the trace. *)
Lemma submit_phase_of_events (f : source_file) (address : pystr)
    (challenge_id : pyval) (nonce : pystr) (posts : nat -> http_outcome)
    (st : wstate) :
  let st' := fst (submit_phase_of f address challenge_id nonce posts st) in
  let evs := submit_events f address challenge_id nonce posts in
  trace st' = trace st ++ evs
  /\ stop_event st' = stop_event st || existsb is_stop_set evs.
Proof.
  cbn zeta. destruct f; cbn [submit_phase_of submit_events].
  - unfold PyMiner.submit_phase, post_solution.
    destruct (posts O); cbn; rewrite orb_false_r; auto.
  - unfold PyMiner1.submit_phase, post_solution.
    destruct (posts O) as [code|]; unfold mbind, io_bind; cbn.
    + destruct (code =? 201); cbn;
        rewrite <- ?app_assoc, ?orb_false_r, ?orb_true_r; auto.
    + rewrite <- app_assoc, orb_false_r. auto.
  - destruct (chayvot_submit_phase address challenge_id nonce posts st)
      as (Ht & Hs & _).
    split; [exact Ht|]. rewrite Hs. symmetry. apply orb_true_iff. right.
    set (outcomes := [posts 0%nat; posts 1%nat; posts 2%nat]).
    rewrite existsb_app. apply orb_true_iff.
    destruct (existsb accepted outcomes) eqn:Hacc; [left|right; reflexivity].
    clear - Hacc. induction outcomes as [|o l IH]; [discriminate|].
    cbn in Hacc |- *. destruct (accepted o); [reflexivity|].
    cbn in Hacc. rewrite existsb_app. apply orb_true_iff. right.
    cbn. apply IH, Hacc.
Qed.

(** The events of a submission carry the worker's address, the
    challenge id and the nonce of the find. *)
Lemma submit_events_carry (f : source_file) (address : pystr)
    (challenge_id : pyval) (nonce : pystr) (posts : nat -> http_outcome) :
  Forall (submission_event address challenge_id nonce)
    (submit_events f address challenge_id nonce posts).
Proof.
  assert (Hretry : forall l,
            Forall (submission_event address challenge_id nonce)
              (retry_events address challenge_id nonce l)).
  { induction l as [|o l IH]; [constructor|]. cbn.
    constructor; [cbn; auto|].
    destruct (accepted o); [repeat constructor|].
    apply Forall_app. split.
    - destruct o; repeat constructor.
    - constructor; [reflexivity|exact IH]. }
  destruct f; cbn [submit_events].
  - repeat constructor.
  - constructor; [cbn; auto|].
    destruct (posts O) as [code|]; [|repeat constructor].
    destruct (code =? 201); repeat constructor.
  - apply Forall_app. split; [apply Hretry|].
    destruct (existsb accepted _); repeat constructor.
Qed.

(** The stop event, when a submission sets it, is set last. *)
Lemma submit_events_stop_last (f : source_file) (address : pystr)
    (challenge_id : pyval) (nonce : pystr) (posts : nat -> http_outcome)
    (tail : list event) :
  forallb is_sleep tail = true ->
  sleeps_after_stop
    (submit_events f address challenge_id nonce posts ++ tail) = true.
Proof.
  intros Htail.
  assert (Hnone : sleeps_after_stop tail = true).
  { clear - Htail. induction tail as [|e tail IH]; [reflexivity|].
    cbn in Htail. apply andb_true_iff in Htail as [He Ht].
    destruct e; try discriminate. cbn. apply IH, Ht. }
  assert (Hretry : forall l tl,
            sleeps_after_stop tl = true ->
            (existsb accepted l = true -> forallb is_sleep tl = true) ->
            sleeps_after_stop
              (retry_events address challenge_id nonce l ++ tl) = true).
  { induction l as [|o l IH]; intros tl Htl Hacc; [exact Htl|].
    cbn [retry_events app sleeps_after_stop].
    destruct (accepted o) eqn:Ho.
    - cbn. apply Hacc. cbn. rewrite Ho. reflexivity.
    - assert (Hgo : sleeps_after_stop
                (EvSleep 1000 :: retry_events address challenge_id nonce l
                 ++ tl) = true).
      { cbn. apply IH; [exact Htl|]. intros H. apply Hacc. cbn.
        rewrite Ho. exact H. }
      destruct o; cbn [app]; rewrite <- ?app_assoc; exact Hgo. }
  destruct f; cbn [submit_events].
  - exact Hnone.
  - cbn [app sleeps_after_stop].
    destruct (posts O) as [code|]; [|exact Hnone].
    destruct (code =? 201); [exact Htail|exact Hnone].
  - rewrite <- app_assoc. apply Hretry.
    + destruct (existsb accepted _); [exact Hnone|exact Htail].
    + intros ->. exact Htail.
Qed.
(* ===================================================================== *)
(** * Instances *)
(* ===================================================================== *)

Lemma finds_app (evs1 evs2 : list event) :
  finds (evs1 ++ evs2) = (finds evs1 + finds evs2)%nat.
Proof.
  induction evs1 as [|e evs1 IH]; [reflexivity|].
  destruct e; simpl; rewrite ?IH; reflexivity.
Qed.

Lemma queries_app (evs1 evs2 : list event) :
  queries (evs1 ++ evs2) = (queries evs1 + queries evs2)%nat.
Proof.
  induction evs1 as [|e evs1 IH]; [reflexivity|].
  destruct e; simpl; rewrite ?IH; reflexivity.
Qed.

Lemma unanswered_app (evs1 evs2 : list event) :
  unanswered (evs1 ++ evs2) = (unanswered evs1 + unanswered evs2)%nat.
Proof.
  induction evs1 as [|e evs1 IH]; [reflexivity|].
  destruct e as [| | | | |? [?|]| | | | |]; simpl; rewrite ?IH; reflexivity.
Qed.

Global Instance adds_preorder (P : event -> Prop) : PreOrder (adds P).
Proof.
  split.
  - intros st. exists []. by rewrite app_nil_r.
  - intros st1 st2 st3 (evs & Ht & Hp) (evs' & Ht' & Hp').
    exists (evs ++ evs'). rewrite Ht', Ht, app_assoc.
    split; [reflexivity|]. apply Forall_app. auto.
Qed.

Global Instance respects_adds (P : event -> Prop) : respects (adds P) P.
Proof.
  split.
  - apply _.
  - intros e He st. exists [e]. auto.
  - intros s st. exists []. cbn. by rewrite app_nil_r.
  - intros n Hn st. exists [EvAddHashes n]. auto.
  - intros Hp st. exists [EvIncSolutions]. auto.
  - intros Hp st. exists [EvStopSet]. auto.
  - intros b st. exists []. cbn. by rewrite app_nil_r.
  - intros Hp st. exists [EvConnect true]. auto.
Qed.

Global Instance stop_kept_preorder : PreOrder stop_kept.
Proof.
  split.
  - intros st H. exact H.
  - intros st1 st2 st3 H1 H2 H. apply H2, H1, H.
Qed.

Global Instance respects_stop_kept : respects stop_kept (fun _ => True).
Proof.
  split; [apply _|..].
  - intros e _ st H. exact H.
  - intros s st H. exact H.
  - intros n _ st H. exact H.
  - intros _ st H. exact H.
  - intros _ st H. reflexivity.
  - intros b st H. cbn. rewrite H. reflexivity.
  - intros _ st H. exact H.
Qed.

Global Instance same_solutions_preorder : PreOrder same_solutions.
Proof.
  split.
  - intros st. reflexivity.
  - intros st1 st2 st3 H1 H2. unfold same_solutions in *. congruence.
Qed.

Global Instance respects_same_solutions :
  respects same_solutions (fun e => e <> EvIncSolutions).
Proof.
  split; [apply _|..].
  - intros e _ st. reflexivity.
  - intros s st. reflexivity.
  - intros n _ st. reflexivity.
  - intros H. contradiction.
  - intros _ st. reflexivity.
  - intros b st. reflexivity.
  - intros _ st. reflexivity.
Qed.
(* ===================================================================== *)
(** * The shape of a batch *)
(* ===================================================================== *)

Lemma wire_events (evs : list event) :
  Forall (fun e => wire e = true) evs ->
  finds evs = O /\ queries evs = O /\ count_posts evs = O
  /\ Forall (fun e => submits e = false) evs
  /\ existsb is_stop_set evs = false.
Proof.
  induction 1 as [|e evs He _ (IH1 & IH2 & IH3 & IH4 & IH5)];
    [repeat split; constructor|].
  destruct e; try discriminate; cbn; repeat split; auto.
Qed.

Lemma submission_events (address : pystr) (challenge_id : pyval)
    (nonce : pystr) (evs : list event) :
  Forall (submission_event address challenge_id nonce) evs ->
  finds evs = O /\ queries evs = O.
Proof.
  induction 1 as [|e evs He _ (IH1 & IH2)]; [split; reflexivity|].
  destruct e; try contradiction; cbn; auto.
Qed.

Lemma no_submits_no_stop (evs : list event) :
  Forall (fun e => submits e = false) evs ->
  existsb is_stop_set evs = false /\ count_posts evs = O
  /\ forall tail, sleeps_after_stop (evs ++ tail) = sleeps_after_stop tail.
Proof.
  induction 1 as [|e evs He _ (IH1 & IH2 & IH3)]; [repeat split|].
  destruct e; try discriminate; cbn; repeat split; auto.
Qed.

Lemma sleeps_only (evs : list event) :
  forallb is_sleep evs = true -> sleeps_after_stop evs = true.
Proof.
  induction evs as [|e evs IH]; [reflexivity|]. cbn.
  intros [He Hevs]%andb_true_iff. destruct e; try discriminate. cbn. auto.
Qed.

Lemma count_posts_submit_events (f : source_file) (address : pystr)
    (challenge_id : pyval) (nonce : pystr) (posts : nat -> http_outcome) :
  (1 <= count_posts (submit_events f address challenge_id nonce posts)
     <= max_posts f)%nat.
Proof.
  destruct f; cbn [submit_events max_posts].
  - cbn. lia.
  - cbn. destruct (posts O) as [code|]; [destruct (code =? 201)|]; cbn; lia.
  - rewrite count_posts_app.
    pose proof (count_posts_retry_events address challenge_id nonce
                  [posts 0%nat; posts 1%nat; posts 2%nat]) as Hle.
    cbn [length] in Hle.
    assert (Hstop : count_posts
              (if existsb accepted [posts 0%nat; posts 1%nat; posts 2%nat]
               then [] else [EvStopSet]) = O).
    { destruct (existsb accepted _); reflexivity. }
    rewrite Hstop. split; [|lia]. cbn. lia.
Qed.

Lemma find_events_facts (f : source_file) (address : pystr)
    (submit_on_find : bool) (challenge : gmap pystr pyval)
    (challenge_id : pyval) (env : iter_env) (pre h : pystr) :
  let shape := find_events f address submit_on_find challenge challenge_id in
  queries (shape env pre h) = 1%nat
  /\ finds (shape env pre h) = 1%nat
  /\ (count_posts (shape env pre h)
        <= if submit_on_find then max_posts f else 0)%nat
  /\ sleeps_after_stop (shape env pre h) = true.
Proof.
  cbn zeta. unfold find_events.
  set (sub := if submit_on_find
              then submit_events f address challenge_id
                     (hex64_nonce (entropy env)) (posts env)
              else []).
  assert (Hsub : Forall (submission_event address challenge_id
                           (hex64_nonce (entropy env))) sub).
  { subst sub. destruct submit_on_find; [apply submit_events_carry|constructor]. }
  destruct (submission_events _ _ _ _ Hsub) as [Hf Hq].
  cbn [app queries finds count_posts sleeps_after_stop].
  rewrite queries_app, finds_app, count_posts_app, Hf, Hq. cbn.
  repeat split; try lia.
  - subst sub. destruct submit_on_find; [|cbn; lia].
    pose proof (count_posts_submit_events f address challenge_id
                  (hex64_nonce (entropy env)) (posts env)). lia.
  - subst sub. destruct submit_on_find.
    + apply submit_events_stop_last. reflexivity.
    + reflexivity.
Qed.

Section BatchShape.

Variable f : source_file.
Variable address : pystr.
Variable submit_on_find : bool.
Variable challenge : gmap pystr pyval.
Variables difficulty challenge_id : pyval.

Let body := batch_body (submit_phase_of f) address submit_on_find
              challenge difficulty challenge_id.
Let loop := batch_loop (submit_phase_of f) address submit_on_find
              challenge difficulty challenge_id.

Let shape := find_events f address submit_on_find challenge challenge_id.

Lemma batch_body_shape (env : iter_env) (st : wstate) :
  let r := body env st in
  exists evs,
    trace (fst r) = trace st ++ evs
    /\ (queries evs <= 1)%nat
    /\ ((plain evs /\ solutions (fst r) = solutions st)
        \/ (snd r = Ok Break
            /\ exists pre h before,
                 build_preimage (hex64_nonce (entropy env)) address
                   challenge = Ok pre
                 /\ hash_meets_difficulty (PyStr h) difficulty = Ok true
                 /\ evs = before ++ shape env pre h
                 /\ Forall (fun e => wire e = true) before
                 /\ solutions (fst r) = solutions st + 1
                 /\ (existsb is_stop_set evs = true ->
                     stop_event (fst r) = true))).
Proof.
  cbn zeta. pose proof (find_events_facts f address submit_on_find challenge
                challenge_id env) as Hfacts. cbn zeta in Hfacts.
  subst body shape. rewrite batch_body_eval. cbv zeta.
  unfold find_events in *.
  set (st0 := fst (stop_event_is_set (ext_stop env) st)).
  assert (Hplain0 : exists evs,
            trace st0 = trace st ++ evs /\ (queries evs <= 1)%nat
            /\ (plain evs /\ solutions st0 = solutions st)).
  { exists []. cbn. rewrite app_nil_r. repeat split; auto. }
  destruct (stop_event st || ext_stop env);
    [destruct Hplain0 as (evs & H1 & H2 & H3); exists evs; auto|].
  destruct (expired env);
    [destruct Hplain0 as (evs & H1 & H2 & H3); exists evs; auto|].
  destruct (build_preimage (hex64_nonce (entropy env)) address challenge)
    as [pre|e] eqn:Hpre;
    [|destruct Hplain0 as (evs & H1 & H2 & H3); exists evs; auto].
  clear Hplain0.
  pose proof (respects_send_pre_and_recv_hash
                (adds (fun e => wire e = true)) (fun e => wire e = true)
                ltac:(intros e He; destruct e; try discriminate; reflexivity)
                ltac:(reflexivity)
                (pre_with_rom challenge pre) (net env) st0)
    as (e_wire & Ht1 & Hwire).
  pose proof (respects_send_pre_and_recv_hash same_solutions
                (fun e => e <> EvIncSolutions)
                ltac:(intros e He Heq; subst e; discriminate)
                ltac:(discriminate)
                (pre_with_rom challenge pre) (net env) st0) as Hs1.
  destruct (wire_events e_wire Hwire) as (Hwf & Hwq & _ & Hws & Hwstop).
  destruct (_send_pre_and_recv_hash (pre_with_rom challenge pre) (net env) st0)
    as [st1 [[h|]|e]]; cbn [fst snd] in *.
  - (* the query returned a line *)
    destruct (hash_meets_difficulty (PyStr h) difficulty) as [[|]|e] eqn:Hv.
    + (* a find *)
      set (st3 := fst (inc_solutions
                         (fst (add_hashes 1
                            (fst (emit (EvQuery (pre_with_rom challenge pre) (Some h)) st1)))))).
      assert (Ht3 : trace st3 = trace st ++ e_wire
                      ++ [EvQuery (pre_with_rom challenge pre) (Some h); EvAddHashes 1;
                          EvIncSolutions]).
      { subst st3. cbn. rewrite Ht1. subst st0. cbn.
        rewrite <- !app_assoc. reflexivity. }
      assert (Hs3 : solutions st3 = solutions st + 1).
      { subst st3. cbn. rewrite Hs1. reflexivity. }
      destruct submit_on_find eqn:Hsof.
      * pose proof (submit_phase_of_returns f address challenge_id
                      (hex64_nonce (entropy env)) (posts env) st3) as Hret.
        pose proof (submit_phase_of_events f address challenge_id
                      (hex64_nonce (entropy env)) (posts env) st3)
          as [Ht4 Hstop4].
        pose proof (framed_submit_phase_of same_solutions address
                      challenge_id (hex64_nonce (entropy env)) (posts env)
                      ltac:(intros e He; apply respects_emit;
                            intros ->; exact He)
                      ltac:(apply respects_stop_event_set; discriminate)
                      f st3) as Hs4.
        destruct (submit_phase_of f address challenge_id
                    (hex64_nonce (entropy env)) (posts env) st3)
          as [st4 r4]; cbn [fst snd] in *. subst r4.
        exists (e_wire
                ++ [EvQuery (pre_with_rom challenge pre) (Some h);
                    EvAddHashes 1; EvIncSolutions]
                ++ submit_events f address challenge_id
                     (hex64_nonce (entropy env)) (posts env)
                ++ [EvSleep 500]).
        split.
        { change (trace st4 ++ [EvSleep 500] = trace st ++ e_wire
                  ++ [EvQuery (pre_with_rom challenge pre) (Some h);
                      EvAddHashes 1; EvIncSolutions]
                  ++ submit_events f address challenge_id
                       (hex64_nonce (entropy env)) (posts env)
                  ++ [EvSleep 500]).
          rewrite Ht4, Ht3, <- !app_assoc. reflexivity. }
        destruct (Hfacts pre h) as (Hq & _).
        split.
        { rewrite queries_app, Hwq. cbn [app] in Hq |- *. lia. }
        right. split; [reflexivity|].
        exists pre, h, e_wire. split; [reflexivity|]. split; [exact Hv|].
        split; [reflexivity|]. split; [exact Hwire|].
        split; [change (solutions st4 = solutions st + 1);
                rewrite Hs4; exact Hs3|].
        intros Hstop. change (stop_event st4 = true). rewrite Hstop4.
        rewrite existsb_app, Hwstop in Hstop.
        cbn [app existsb is_stop_set orb] in Hstop.
        rewrite existsb_app in Hstop.
        cbn [existsb is_stop_set orb] in Hstop.
        rewrite orb_false_r in Hstop. rewrite Hstop. apply orb_true_r.
      * exists (e_wire
                ++ [EvQuery (pre_with_rom challenge pre) (Some h);
                    EvAddHashes 1; EvIncSolutions]
                ++ [] ++ [EvSleep 500]).
        split.
        { change (trace st3 ++ [EvSleep 500] = trace st ++ e_wire
                  ++ [EvQuery (pre_with_rom challenge pre) (Some h);
                      EvAddHashes 1; EvIncSolutions]
                  ++ [] ++ [EvSleep 500]).
          rewrite Ht3, <- !app_assoc. reflexivity. }
        destruct (Hfacts pre h) as (Hq & _).
        split.
        { rewrite queries_app, Hwq. cbn [app] in Hq |- *. lia. }
        right. split; [reflexivity|].
        exists pre, h, e_wire. split; [reflexivity|]. split; [exact Hv|].
        split; [reflexivity|]. split; [exact Hwire|].
        split; [exact Hs3|].
        intros Hstop. rewrite existsb_app, Hwstop in Hstop. discriminate.
    + (* not a find *)
      exists (e_wire ++ [EvQuery (pre_with_rom challenge pre) (Some h); EvAddHashes 1]).
      split; [cbn; rewrite Ht1; subst st0; cbn;
              rewrite <- !app_assoc; reflexivity|].
      split; [rewrite queries_app, Hwq; cbn; lia|].
      left. split; [split|cbn; exact Hs1].
      * rewrite finds_app, Hwf. reflexivity.
      * apply Forall_app. split; [exact Hws|repeat constructor].
    + destruct (hash_meets_difficulty_total h difficulty) as [b Hb].
      congruence.
  - (* the query returned nothing *)
    exists (e_wire ++ [EvQuery (pre_with_rom challenge pre) None; EvSleep 10]).
    split; [cbn; rewrite Ht1; subst st0; cbn;
            rewrite <- !app_assoc; reflexivity|].
    split; [rewrite queries_app, Hwq; cbn; lia|].
    left. split; [split|cbn; exact Hs1].
    + rewrite finds_app, Hwf. reflexivity.
    + apply Forall_app. split; [exact Hws|repeat constructor].
  - (* the oracle client never raises; in any case, no find *)
    exists e_wire. split; [rewrite Ht1; subst st0; reflexivity|].
    split; [lia|]. left. split; [split; assumption|exact Hs1].
Qed.

(** A batch: iterations without a find, then possibly the one with
    the find, which ends it. *)
Lemma batch_loop_shape (n i : nat) (envs : nat -> iter_env) (st : wstate) :
  let st' := fst (loop n i envs st) in
  exists evs,
    trace st' = trace st ++ evs
    /\ (queries evs <= n)%nat
    /\ ((plain evs /\ solutions st' = solutions st)
        \/ (exists j pre h before,
              (i <= j < i + n)%nat
              /\ build_preimage (hex64_nonce (entropy (envs j))) address
                   challenge = Ok pre
              /\ hash_meets_difficulty (PyStr h) difficulty = Ok true
              /\ evs = before ++ shape (envs j) pre h
              /\ plain before
              /\ solutions st' = solutions st + 1
              /\ (existsb is_stop_set evs = true ->
                  stop_event st' = true))).
Proof.
  cbn zeta. revert i st. induction n as [|n IH]; intros i st.
  - exists []. cbn. rewrite app_nil_r. split; [reflexivity|].
    split; [lia|]. left. repeat split. constructor.
  - pose proof (batch_body_shape (envs i) st) as (evs & Ht & Hq & Hcase).
    subst loop body. cbn [batch_loop] in *. unfold mbind, io_bind.
    destruct (batch_body (submit_phase_of f) address submit_on_find
                challenge difficulty challenge_id (envs i) st)
      as [st1 [c|e]] eqn:Hbody; cbn [fst snd] in *.
    + destruct c.
      * (* the loop goes on *)
        destruct Hcase as [[Hplain Hsol]|[Hbreak _]]; [|discriminate].
        destruct (IH (S i) st1) as (evs' & Ht' & Hq' & Hcase').
        exists (evs ++ evs'). rewrite Ht', Ht, app_assoc.
        split; [reflexivity|].
        split; [rewrite queries_app; lia|].
        destruct Hplain as [Hf Hns].
        destruct Hcase' as [[[Hf' Hns'] Hsol']
                           |(j & pre & h & before & Hj & Hpre & Hv & He
                             & [Hbf Hbns] & Hsol' & Hstop')].
        -- left. split; [split|lia].
           ++ rewrite finds_app. lia.
           ++ apply Forall_app. auto.
        -- right. exists j, pre, h, (evs ++ before).
           split; [lia|]. split; [exact Hpre|]. split; [exact Hv|].
           split; [rewrite He, app_assoc; reflexivity|].
           split; [split; [rewrite finds_app; lia|apply Forall_app; auto]|].
           split; [lia|].
           intros Hstop. apply Hstop'.
           rewrite existsb_app in Hstop.
           destruct (no_submits_no_stop evs Hns) as (Hno & _).
           rewrite Hno in Hstop. exact Hstop.
      * (* the loop is left *)
        exists evs. split; [exact Ht|]. split; [lia|].
        destruct Hcase as [Hplain|(_ & pre & h & before & Hpre & Hv & He
                                   & Hw & Hsol & Hstop)]; [left; exact Hplain|].
        right. exists i, pre, h, before.
        destruct (wire_events before Hw) as (Hwf & _ & _ & Hws & _).
        split; [lia|]. repeat split; auto.
    + exists evs. split; [exact Ht|]. split; [lia|].
      destruct Hcase as [Hplain|[Hbreak _]]; [left; exact Hplain|discriminate].
Qed.

End BatchShape.
(* ===================================================================== *)
(** * A round and a run of a worker *)
(* ===================================================================== *)

Lemma sleeps_after_stop_app (evs tail : list event) :
  sleeps_after_stop evs = true -> forallb is_sleep tail = true ->
  sleeps_after_stop (evs ++ tail) = true.
Proof.
  intros Hevs Htail. induction evs as [|e evs IH]; [by apply sleeps_only|].
  destruct e; cbn in Hevs |- *; auto.
  rewrite forallb_app, Hevs, Htail. reflexivity.
Qed.

Section RoundShape.

Variable f : source_file.
Variable address : pystr.
Variable submit_on_find : bool.

(** What a batch comes to, whichever way it went. *)
Lemma batch_loop_summary (challenge : gmap pystr pyval)
    (difficulty challenge_id : pyval) (n i : nat) (envs : nat -> iter_env)
    (st : wstate) :
  let st' := fst (batch_loop (submit_phase_of f) address submit_on_find
                    challenge difficulty challenge_id n i envs st) in
  exists evs,
    trace st' = trace st ++ evs
    /\ (queries evs <= n)%nat
    /\ (finds evs <= 1)%nat
    /\ (count_posts evs
          <= (if submit_on_find then max_posts f else 0) * finds evs)%nat
    /\ solutions st' = solutions st + Z.of_nat (finds evs)
    /\ sleeps_after_stop evs = true
    /\ (existsb is_stop_set evs = true -> stop_event st' = true).
Proof.
  cbn zeta.
  destruct (batch_loop_shape f address submit_on_find challenge difficulty
              challenge_id n i envs st) as (evs & Ht & Hq & Hcase).
  exists evs. split; [exact Ht|]. split; [exact Hq|].
  destruct Hcase as [[[Hf Hns] Hsol]
                    |(j & pre & h & before & _ & _ & _ & -> & [Hbf Hbns]
                      & Hsol & Hstop)].
  - destruct (no_submits_no_stop evs Hns) as (Hno & Hposts & Hsl).
    rewrite Hf, Hposts, Hsol. repeat split; try lia.
    + specialize (Hsl []). rewrite app_nil_r in Hsl. exact Hsl.
    + rewrite Hno. discriminate.
  - pose proof (find_events_facts f address submit_on_find challenge
                  challenge_id (envs j) pre h) as Hfacts.
    cbn zeta in Hfacts. destruct Hfacts as (_ & Hf & Hp & Hsl).
    destruct (no_submits_no_stop before Hbns) as (_ & Hposts & Hsl').
    rewrite finds_app, count_posts_app, Hbf, Hf, Hposts, Hsl', Hsol.
    repeat split; try lia; auto.
Qed.

Lemma run_round_summary (current : pyval) (envs : nat -> iter_env)
    (st : wstate) :
  let st' := fst (run_round (submit_phase_of f) address submit_on_find
                    current envs st) in
  exists evs,
    trace st' = trace st ++ evs
    /\ (queries evs <= NONCE_BATCH)%nat
    /\ (finds evs <= 1)%nat
    /\ (count_posts evs
          <= (if submit_on_find then max_posts f else 0) * finds evs)%nat
    /\ solutions st' = solutions st + Z.of_nat (finds evs)
    /\ sleeps_after_stop evs = true
    /\ (existsb is_stop_set evs = true -> stop_event st' = true).
Proof.
  cbn zeta.
  assert (Hidle : exists evs,
            trace (fst (sleep 500 st)) = trace st ++ evs
            /\ (queries evs <= NONCE_BATCH)%nat
            /\ (finds evs <= 1)%nat
            /\ (count_posts evs
                  <= (if submit_on_find then max_posts f else 0)
                     * finds evs)%nat
            /\ solutions (fst (sleep 500 st))
               = solutions st + Z.of_nat (finds evs)
            /\ sleeps_after_stop evs = true
            /\ (existsb is_stop_set evs = true ->
                stop_event (fst (sleep 500 st)) = true)).
  { exists [EvSleep 500]. cbn. repeat split; lia || discriminate. }
  assert (Hnone : exists evs,
            trace st = trace st ++ evs
            /\ (queries evs <= NONCE_BATCH)%nat
            /\ (finds evs <= 1)%nat
            /\ (count_posts evs
                  <= (if submit_on_find then max_posts f else 0)
                     * finds evs)%nat
            /\ solutions st = solutions st + Z.of_nat (finds evs)
            /\ sleeps_after_stop evs = true
            /\ (existsb is_stop_set evs = true -> stop_event st = true)).
  { exists []. rewrite app_nil_r. cbn. repeat split; lia || discriminate. }
  unfold run_round. destruct current as [|k|s|challenge]; [exact Hidle|..];
    unfold mbind, io_bind, lift; cbn [py_in fst snd]; try exact Hnone.
  - destruct (negb (is_infix (lit "latest_submission") s));
      [exact Hidle|exact Hnone].
  - destruct (negb (bool_decide
                      (is_Some (challenge !! lit "latest_submission"))));
      [exact Hidle|].
    cbn [py_getitem].
    destruct (dict_getitem challenge (lit "difficulty")) as [d|e];
      [|exact Hnone].
    destruct (dict_getitem challenge (lit "challenge_id")) as [c|e];
      [|exact Hnone].
    destruct (dict_getitem challenge (lit "latest_submission")) as [l|e];
      [|exact Hnone].
    destruct (batch_loop_summary challenge d c NONCE_BATCH 0 envs st)
      as (evs & Ht & Hq & Hf & Hp & Hsol & Hsl & Hstop).
    destruct (batch_loop (submit_phase_of f) address submit_on_find
                challenge d c NONCE_BATCH 0 envs st) as [st1 [[]|e]];
      cbn [fst snd] in *.
    + exists (evs ++ [EvSleep 1]).
      change (trace (fst (sleep 1 st1))) with (trace st1 ++ [EvSleep 1]).
      change (solutions (fst (sleep 1 st1))) with (solutions st1).
      change (stop_event (fst (sleep 1 st1))) with (stop_event st1).
      rewrite Ht, <- app_assoc, queries_app, finds_app, count_posts_app,
        existsb_app.
      cbn [queries finds count_posts existsb is_stop_set orb].
      rewrite !Nat.add_0_r, orb_false_r.
      repeat split; auto.
      apply sleeps_after_stop_app; [exact Hsl|reflexivity].
    + exists evs. repeat split; auto.
Qed.

End RoundShape.

(** X5.  The shape of a batch.  Either it has no find: no POST is made, the
    solutions counter is as it was.  Or exactly one iteration [j] found
    a nonce: its query returned a hash that [hash_meets_difficulty]
    accepts, the counters were incremented, the submission (if the
    worker submits) was made for that very nonce, and after the
    half-second sleep the batch was over; nothing before it was a find
    or a submission.  Hence every POST of a batch carries the worker's
    address, the challenge id and a nonce whose preimage the oracle
    answered with a hash that meets the difficulty. *)
Theorem batch_ends_with_the_find (f : source_file) (address : pystr)
    (submit_on_find : bool) (challenge : gmap pystr pyval)
    (difficulty challenge_id : pyval) (n i : nat) (envs : nat -> iter_env)
    (st : wstate) :
  let st' := fst (batch_loop (submit_phase_of f) address submit_on_find
                    challenge difficulty challenge_id n i envs st) in
  exists evs,
    trace st' = trace st ++ evs
    /\ ((plain evs /\ solutions st' = solutions st)
        \/ (exists j pre h before,
              (i <= j < i + n)%nat
              /\ build_preimage (hex64_nonce (entropy (envs j))) address
                   challenge = Ok pre
              /\ hash_meets_difficulty (PyStr h) difficulty = Ok true
              /\ evs = before
                       ++ find_events f address submit_on_find challenge
                            challenge_id (envs j) pre h
              /\ plain before
              /\ solutions st' = solutions st + 1))
    /\ (forall a c nonce o,
          In (EvPost a c nonce o) evs ->
          submit_on_find = true /\ a = address /\ c = challenge_id
          /\ exists j pre h,
               (i <= j < i + n)%nat
               /\ nonce = hex64_nonce (entropy (envs j))
               /\ build_preimage nonce address challenge = Ok pre
               /\ hash_meets_difficulty (PyStr h) difficulty = Ok true
               /\ In (EvQuery (pre_with_rom challenge pre) (Some h)) evs).
Proof.
  cbn zeta.
  destruct (batch_loop_shape f address submit_on_find challenge difficulty
              challenge_id n i envs st) as (evs & Ht & _ & Hcase).
  exists evs. split; [exact Ht|].
  assert (Hplain : forall l a c nonce o,
            plain l -> ~ In (EvPost a c nonce o) l).
  { intros l a c nonce o [_ Hns] Hin.
    rewrite Forall_forall in Hns. apply list_elem_of_In, Hns in Hin.
    discriminate. }
  destruct Hcase as [[Hp Hsol]
                    |(j & pre & h & before & Hj & Hpre & Hv & He & Hbp & Hsol
                      & _)].
  - split; [left; auto|]. intros a c nonce o Hin.
    exfalso. exact (Hplain _ _ _ _ _ Hp Hin).
  - split.
    { right. exists j, pre, h, before.
      exact (conj Hj (conj Hpre (conj Hv (conj He (conj Hbp Hsol))))). }
    intros a c nonce o Hin. subst evs.
    apply in_app_or in Hin as [Hin|Hin];
      [exfalso; exact (Hplain _ _ _ _ _ Hbp Hin)|].
    unfold find_events in Hin |- *.
    cbn [app] in Hin. destruct Hin as [Hin|[Hin|[Hin|Hin]]]; try discriminate.
    apply in_app_or in Hin as [Hin|[Hin|[]]]; [|discriminate].
    destruct submit_on_find; [|destruct Hin].
    pose proof (submit_events_carry f address challenge_id
                  (hex64_nonce (entropy (envs j))) (posts (envs j))) as Hc.
    rewrite Forall_forall in Hc. apply list_elem_of_In, Hc in Hin.
    cbn in Hin.
    destruct Hin as (-> & -> & ->).
    split; [reflexivity|]. split; [reflexivity|]. split; [reflexivity|].
    exists j, pre, h. split; [exact Hj|]. split; [reflexivity|].
    split; [exact Hpre|]. split; [exact Hv|].
    apply in_or_app. right. left. reflexivity.
Qed.

(** X6.  One round of a worker makes at most [NONCE_BATCH] oracle queries
    and finds at most one nonce; it makes no POST without a find, and
    for a find at most one POST (three in
    chayvottungaddresstheolist.py), none if the worker does not
    submit. *)
Theorem round_bounds (f : source_file) (address : pystr)
    (submit_on_find : bool) (current : pyval) (envs : nat -> iter_env)
    (st : wstate) :
  let st' := fst (run_round (submit_phase_of f) address submit_on_find
                    current envs st) in
  exists evs,
    trace st' = trace st ++ evs
    /\ (queries evs <= 1024)%nat
    /\ (finds evs <= 1)%nat
    /\ solutions st' = solutions st + Z.of_nat (finds evs)
    /\ (count_posts evs
          <= (if submit_on_find then max_posts f else 0) * finds evs)%nat
    /\ (count_posts evs <= 3)%nat.
Proof.
  cbn zeta.
  destruct (run_round_summary f address submit_on_find current envs st)
    as (evs & Ht & Hq & Hf & Hp & Hsol & _).
  exists evs. split; [exact Ht|]. split; [exact Hq|]. split; [exact Hf|].
  split; [exact Hsol|]. split; [exact Hp|].
  destruct submit_on_find, f; cbn [max_posts] in Hp; lia.
Qed.

(** X7.  A worker that sets the stop event only sleeps afterwards (the half
    second after the find, the millisecond at the end of the round) and
    leaves its loop: it makes no further query and no further POST.  A
    worker of py_miner.py, py_miner1.py or fullmanualinput.py that finds
    the stop event set when it starts does nothing.  (The worker of
    chayvottungaddresstheolist.py calls [_fetch_and_save_challenge]
    before its loop, whatever the stop event is; that call comes before
    anything the loop does and leaves the stop event alone.) *)
Theorem worker_stops_after_stop_event (f : source_file) (address : pystr)
    (submit_on_find : bool)
    (rounds : list (bool * pyval * (nat -> iter_env))) (st : wstate) :
  let r := run (submit_phase_of f) address submit_on_find rounds st in
  exists evs,
    trace (fst r) = trace st ++ evs
    /\ sleeps_after_stop evs = true
    /\ (existsb is_stop_set evs = true -> stop_event (fst r) = true)
    /\ (f <> chayvot -> stop_event st = true -> r = (st, Ok tt)).
Proof.
  cbn zeta.
  enough (H : exists evs,
            trace (fst (run (submit_phase_of f) address submit_on_find
                          rounds st)) = trace st ++ evs
            /\ sleeps_after_stop evs = true
            /\ (existsb is_stop_set evs = true ->
                stop_event (fst (run (submit_phase_of f) address
                                   submit_on_find rounds st)) = true)).
  { destruct H as (evs & H1 & H2 & H3). exists evs.
    split; [exact H1|]. split; [exact H2|]. split; [exact H3|].
    intros _. apply run_ends_when_stopped. }
  revert st.
  induction rounds as [|[[by_others current] envs] rounds IH]; intros st.
  - exists []. cbn. rewrite app_nil_r. repeat split. discriminate.
  - cbn [run]. rewrite bind_stop_event_is_set.
    set (st0 := fst (stop_event_is_set by_others st)).
    destruct (stop_event st || by_others).
    { exists []. cbn. rewrite app_nil_r. repeat split. discriminate. }
    unfold mbind, io_bind.
    destruct (run_round_summary f address submit_on_find current envs st0)
      as (evs & Ht & _ & _ & _ & _ & Hsl & Hstop).
    destruct (run_round (submit_phase_of f) address submit_on_find current
                envs st0) as [st1 [[]|e]]; cbn [fst snd] in *.
    + destruct (existsb is_stop_set evs) eqn:Hhas.
      * rewrite (run_ends_when_stopped _ _ _ rounds st1 (Hstop eq_refl)).
        exists evs. cbn [fst]. rewrite Hhas. repeat split; auto.
      * destruct (IH st1) as (evs' & Ht' & Hsl' & Hstop').
        exists (evs ++ evs'). rewrite Ht', Ht, app_assoc, existsb_app, Hhas.
        split; [reflexivity|]. split; [|exact Hstop'].
        clear - Hhas Hsl'. induction evs as [|e evs IHe]; [exact Hsl'|].
        destruct e; cbn in Hhas |- *; try discriminate; auto.
    + exists evs. repeat split; auto.
Qed.

(** X8.  A worker started without [submit_on_find] never POSTs, writes
    nothing to the error log and never sets the stop event, whatever a
    submission phase would do. *)
Theorem worker_without_submit
    (submit_phase : pystr -> pyval -> pystr -> (nat -> http_outcome) -> io unit)
    (address : pystr) (rounds : list (bool * pyval * (nat -> iter_env)))
    (st : wstate) :
  exists evs,
    trace (fst (run submit_phase address false rounds st)) = trace st ++ evs
    /\ Forall (fun e => submits e = false) evs.
Proof.
  apply (respects_run (adds (fun e => submits e = false))
           (fun e => submits e = false)).
  - intros e He. destruct e; try discriminate; reflexivity.
  - reflexivity.
  - reflexivity.
  - reflexivity.
  - reflexivity.
  - discriminate.
Qed.
(* ===================================================================== *)
(** * Connections to the daemon *)
(* ===================================================================== *)

Lemma connects_app (evs1 evs2 : list event) :
  connects (evs1 ++ evs2) = (connects evs1 + connects evs2)%nat.
Proof.
  induction evs1 as [|e evs1 IH]; [reflexivity|].
  destruct e; simpl; rewrite ?IH; reflexivity.
Qed.

Global Instance conn_rel_preorder : PreOrder conn_rel.
Proof.
  split.
  - intros st. exists []. rewrite app_nil_r. cbn. split; [reflexivity|lia].
  - intros st1 st2 st3 (evs & Ht & Hc) (evs' & Ht' & Hc').
    exists (evs ++ evs').
    rewrite Ht', Ht, app_assoc, connects_app, unanswered_app.
    split; [reflexivity|lia].
Qed.

(** Events that are neither a connection attempt nor a query. *)
Lemma calm_events (evs : list event) :
  Forall (fun e => connects [e] = O /\ unanswered [e] = O) evs ->
  connects evs = O /\ unanswered evs = O.
Proof.
  induction 1 as [|e evs [He1 He2] _ [IH1 IH2]]; [split; reflexivity|].
  destruct e as [| | | | |? [?|]| | | | |]; cbn in *; auto; discriminate.
Qed.

Lemma exchange_events (evs : list event) :
  Forall (fun e => exchange e = true) evs ->
  connects evs = O /\ unanswered evs = O.
Proof.
  intros H. apply calm_events. eapply Forall_impl; [exact H|].
  intros e He. destruct e; try discriminate; auto.
Qed.

(** What keeps the socket and adds calm events goes along with
    [conn_rel]. *)
Lemma conn_rel_calm (st st' : wstate) :
  adds (fun e => connects [e] = O /\ unanswered [e] = O) st st' ->
  sock st' = sock st ->
  conn_rel st st'.
Proof.
  intros (evs & Ht & Hevs) Hs. exists evs. split; [exact Ht|].
  destruct (calm_events evs Hevs) as [-> ->].
  unfold no_sock. rewrite Hs. lia.
Qed.

Lemma framed_conn_rel_calm {A} (m : io A) :
  framed (adds (fun e => connects [e] = O /\ unanswered [e] = O)) m ->
  keeps_sock m -> framed conn_rel m.
Proof.
  intros Ha Hk st. apply conn_rel_calm; [apply Ha|apply Hk].
Qed.

Lemma keeps_sock_stop_event_set : keeps_sock stop_event_set.
Proof. intros st. split; reflexivity. Qed.

Lemma conn_rel_submit_phase_of (f : source_file) (address : pystr)
    (challenge_id : pyval) (nonce : pystr) (posts : nat -> http_outcome) :
  framed conn_rel (submit_phase_of f address challenge_id nonce posts).
Proof.
  apply framed_conn_rel_calm.
  - apply framed_submit_phase_of; [apply _| |].
    + intros e He. apply respects_emit.
      destruct e; try contradiction; auto.
    + apply respects_stop_event_set. auto.
  - apply framed_submit_phase_of; [apply _| |].
    + intros e _. apply keeps_sock_emit.
    + apply keeps_sock_stop_event_set.
Qed.

(** One call of the oracle client. *)
Lemma send_pre_connects (preimage : pystr) (net : net_script) (st : wstate) :
  let r := _send_pre_and_recv_hash preimage net st in
  exists hh evs,
    snd r = Ok hh
    /\ trace (fst r) = trace st ++ evs
    /\ unanswered evs = O
    /\ (connects evs + no_sock (fst r)
          <= no_sock st + (match hh with Some _ => 0 | None => 1 end))%nat.
Proof.
  cbn zeta. rewrite send_pre_eval.
  assert (Hex : forall s, exists evs,
            trace (fst (try_except (query_body preimage net) drop_socket s))
            = trace s ++ evs
            /\ connects evs = O /\ unanswered evs = O).
  { intros s.
    destruct (framed_try_except (adds (fun e => exchange e = true)) _ _
                (respects_query_body _ (fun e => exchange e = true)
                   (fun e H => H) preimage net)
                (respects_drop_socket _ (fun e => exchange e = true)
                   (fun e H => H)) s) as (evs & Ht & Hevs).
    exists evs. split; [exact Ht|]. by apply exchange_events. }
  destruct (sock st) as [c|] eqn:Hsock.
  - destruct (Hex st) as (evs & Ht & Hc & Hu).
    destruct (try_query_cases preimage net st c Hsock)
      as [(line & Hr & Hs & _)|(Hr & Hs & _)].
    + exists (Some line), evs. unfold no_sock. rewrite Hs, Hsock, Hc.
      repeat split; auto.
    + exists None, evs. unfold no_sock. rewrite Hs, Hsock, Hc.
      repeat split; auto.
  - destruct (connect_ok net).
    + destruct (Hex (connected st)) as (evs & Ht & Hc & Hu).
      destruct (try_query_cases preimage net (connected st) (opened st)
                  eq_refl) as [(line & Hr & Hs & _)|(Hr & Hs & _)].
      * exists (Some line), (EvConnect true :: evs).
        unfold no_sock. rewrite Hs, Hsock, Ht. cbn. rewrite Hc, Hu.
        rewrite <- app_assoc. repeat split; auto.
      * exists None, (EvConnect true :: evs).
        unfold no_sock. rewrite Hs, Hsock, Ht. cbn. rewrite Hc, Hu.
        rewrite <- app_assoc. repeat split; auto.
    + exists None, [EvConnect false; EvSleep 100].
      unfold no_sock. cbn. rewrite Hsock, <- app_assoc. repeat split; auto.
Qed.

Section Connections.

Variable f : source_file.
Variable address : pystr.
Variable submit_on_find : bool.

Lemma conn_rel_batch_body (challenge : gmap pystr pyval)
    (difficulty challenge_id : pyval) (env : iter_env) :
  framed conn_rel (batch_body (submit_phase_of f) address submit_on_find
                     challenge difficulty challenge_id env).
Proof.
  intros st. rewrite batch_body_eval. cbv zeta.
  set (st0 := fst (stop_event_is_set (ext_stop env) st)).
  assert (H0 : conn_rel st st0).
  { exists []. cbn. rewrite app_nil_r. split; [reflexivity|].
    unfold no_sock. cbn. lia. }
  destruct (stop_event st || ext_stop env); [exact H0|].
  destruct (expired env); [exact H0|].
  destruct (build_preimage (hex64_nonce (entropy env)) address challenge)
    as [pre|e]; [|exact H0].
  destruct (send_pre_connects (pre_with_rom challenge pre) (net env) st0)
    as (hh & evs & Hr & Ht & Hu & Hc).
  destruct (_send_pre_and_recv_hash (pre_with_rom challenge pre) (net env)
              st0) as [st1 r1]; cbn [fst snd] in *. subst r1.
  destruct hh as [h|].
  - (* a line: what follows keeps the socket *)
    assert (H1 : conn_rel st st1).
    { etransitivity; [exact H0|]. exists evs. split; [exact Ht|]. lia. }
    set (st2 := fst (add_hashes 1
                       (fst (emit (EvQuery (pre_with_rom challenge pre)
                                     (Some h)) st1)))).
    assert (H2 : conn_rel st st2).
    { etransitivity; [exact H1|].
      exists [EvQuery (pre_with_rom challenge pre) (Some h); EvAddHashes 1].
      subst st2. cbn. rewrite <- app_assoc.
      split; [reflexivity|]. unfold no_sock. cbn. lia. }
    destruct (hash_meets_difficulty (PyStr h) difficulty) as [[|]|e];
      [|exact H2|exact H2].
    set (st3 := fst (inc_solutions st2)).
    assert (H3 : conn_rel st st3).
    { etransitivity; [exact H2|]. exists [EvIncSolutions].
      split; [reflexivity|]. unfold no_sock. cbn. lia. }
    assert (Hsleep : forall s, conn_rel s (fst (sleep 500 s))).
    { intros s. exists [EvSleep 500]. split; [reflexivity|].
      unfold no_sock. cbn. lia. }
    destruct submit_on_find.
    + pose proof (conn_rel_submit_phase_of f address challenge_id
                    (hex64_nonce (entropy env)) (posts env) st3) as H4.
      destruct (submit_phase_of f address challenge_id
                  (hex64_nonce (entropy env)) (posts env) st3)
        as [st4 [[]|e]]; cbn [fst] in *.
      * etransitivity; [exact H3|]. etransitivity; [exact H4|apply Hsleep].
      * etransitivity; [exact H3|exact H4].
    + cbn [fst]. etransitivity; [exact H3|apply Hsleep].
  - (* nothing: the socket may be gone, and the query is on the trace *)
    cbn [fst]. destruct H0 as (evs0 & Ht0 & Hc0).
    exists (evs0 ++ evs ++ [EvQuery (pre_with_rom challenge pre) None;
                            EvSleep 10]).
    split.
    { cbn. rewrite Ht, Ht0, <- !app_assoc. reflexivity. }
    rewrite !connects_app, !unanswered_app, Hu.
    change (no_sock (fst (sleep 10 (fst (emit
              (EvQuery (pre_with_rom challenge pre) None) st1)))))
      with (no_sock st1).
    cbn [connects unanswered]. lia.
Qed.

Lemma conn_rel_batch_loop (challenge : gmap pystr pyval)
    (difficulty challenge_id : pyval) (n i : nat) (envs : nat -> iter_env) :
  framed conn_rel (batch_loop (submit_phase_of f) address submit_on_find
                     challenge difficulty challenge_id n i envs).
Proof.
  revert i. induction n as [|n IH]; intros i; cbn [batch_loop];
    [apply framed_ret, _|].
  apply framed_bind; [typeclasses eauto|apply conn_rel_batch_body|].
  intros [|]; [apply IH|apply framed_ret, _].
Qed.

Lemma conn_rel_sleep (ms : Z) : framed conn_rel (sleep ms).
Proof.
  intros st. exists [EvSleep ms]. split; [reflexivity|].
  unfold no_sock. cbn. lia.
Qed.

Lemma conn_rel_run_round (current : pyval) (envs : nat -> iter_env) :
  framed conn_rel (run_round (submit_phase_of f) address submit_on_find
                     current envs).
Proof.
  unfold run_round.
  destruct current as [|k|s|challenge]; [apply conn_rel_sleep|..];
    (apply framed_bind; [typeclasses eauto|apply framed_lift, _|];
     intros active; destruct (negb active); [apply conn_rel_sleep|];
     apply framed_bind; [typeclasses eauto|apply framed_lift, _|]; intros d;
     apply framed_bind; [typeclasses eauto|apply framed_lift, _|]; intros c;
     apply framed_bind; [typeclasses eauto|apply framed_lift, _|]; intros _;
     try apply framed_raise, _).
  apply framed_bind; [typeclasses eauto|apply conn_rel_batch_loop|].
  intros _. apply conn_rel_sleep.
Qed.

End Connections.

(** X9.  A worker attempts a connection to the daemon only when it has no
    socket: at its first query and after a query that returned nothing.
    Over any run, the number of connection attempts, plus one if the
    worker ends without a socket, is at most the number of queries that
    returned nothing, plus one if the worker started without a socket.
    A worker whose queries are all answered connects once. *)
Theorem connections_follow_failures (f : source_file) (address : pystr)
    (submit_on_find : bool)
    (rounds : list (bool * pyval * (nat -> iter_env))) (st : wstate) :
  let st' := fst (run (submit_phase_of f) address submit_on_find rounds st) in
  exists evs,
    trace st' = trace st ++ evs
    /\ (connects evs + no_sock st' <= no_sock st + unanswered evs)%nat
    /\ (unanswered evs = O -> (connects evs <= 1)%nat).
Proof.
  cbn zeta.
  enough (H : framed conn_rel
                (run (submit_phase_of f) address submit_on_find rounds)).
  { destruct (H st) as (evs & Ht & Hc). exists evs.
    split; [exact Ht|]. split; [exact Hc|].
    intros Hu. rewrite Hu in Hc. unfold no_sock in Hc.
    destruct (sock st), (sock _); lia. }
  induction rounds as [|[[by_others current] envs] rounds IH];
    cbn [run]; [apply framed_ret, _|].
  apply framed_bind; [typeclasses eauto| |].
  - intros st0. exists []. cbn. rewrite app_nil_r. split; [reflexivity|].
    unfold no_sock. cbn. lia.
  - intros [|]; [apply framed_ret, _|].
    apply framed_bind; [typeclasses eauto|apply conn_rel_run_round|].
    intros _. exact IH.
Qed.
(* ===================================================================== *)
(** * The line the oracle client returns *)
(* ===================================================================== *)

Section Strip.

Local Abbreviation space := PyLong.Py_UNICODE_ISSPACE.

Lemma lstrip_head (s : pystr) (c : N) :
  head (lstrip s) = Some c -> space c = false.
Proof.
  induction s as [|a s IH]; [discriminate|]. cbn.
  destruct (space a) eqn:Ha; [exact IH|]. cbn. congruence.
Qed.

Lemma lstrip_id (s : pystr) :
  (forall c, head s = Some c -> space c = false) -> lstrip s = s.
Proof.
  destruct s as [|a s]; [reflexivity|]. intros H. cbn.
  rewrite (H a eq_refl). reflexivity.
Qed.

Lemma lstrip_snoc (s : pystr) (c : N) :
  space c = false -> lstrip (s ++ [c]) = lstrip s ++ [c].
Proof.
  intros Hc. induction s as [|a s IH]; cbn; [rewrite Hc; reflexivity|].
  destruct (space a); [exact IH|reflexivity].
Qed.

Lemma head_rev (s : pystr) : head (rev s) = last s.
Proof.
  induction s as [|a s IH] using rev_ind; [reflexivity|].
  rewrite rev_app_distr, last_snoc. reflexivity.
Qed.

Lemma last_rev (s : pystr) : last (rev s) = head s.
Proof. rewrite <- head_rev, rev_involutive. reflexivity. Qed.

Lemma rstrip_last (s : pystr) (c : N) :
  last (rstrip s) = Some c -> space c = false.
Proof. unfold rstrip. rewrite last_rev. apply lstrip_head. Qed.

Lemma rstrip_id (s : pystr) :
  (forall c, last s = Some c -> space c = false) -> rstrip s = s.
Proof.
  intros H. unfold rstrip. rewrite lstrip_id, rev_involutive; [reflexivity|].
  intros c. rewrite head_rev. apply H.
Qed.

(** Trimming the right end leaves a first character that is not white
    space where it is. *)
Lemma rstrip_head (s : pystr) (c : N) :
  (forall a, head s = Some a -> space a = false) ->
  head (rstrip s) = Some c -> space c = false.
Proof.
  destruct s as [|a s]; [discriminate|]. intros H.
  unfold rstrip. cbn [rev]. rewrite lstrip_snoc by exact (H a eq_refl).
  rewrite rev_app_distr. cbn. intros [= <-]. exact (H a eq_refl).
Qed.

Lemma strip_ends (s : pystr) (c : N) :
  head (strip s) = Some c \/ last (strip s) = Some c -> space c = false.
Proof.
  unfold strip. intros [H|H].
  - revert H. apply rstrip_head. intros a. apply lstrip_head.
  - revert H. apply rstrip_last.
Qed.

Lemma strip_strip (s : pystr) : strip (strip s) = strip s.
Proof.
  assert (Hl : lstrip (strip s) = strip s).
  { apply lstrip_id. intros c Hc. apply (strip_ends s). auto. }
  unfold strip at 1. rewrite Hl. apply rstrip_id.
  intros c Hc. apply (strip_ends s). auto.
Qed.

Lemma lstrip_incl (s : pystr) (c : N) : In c (lstrip s) -> In c s.
Proof.
  induction s as [|a s IH]; [auto|]. cbn.
  destruct (space a); [right; auto|auto].
Qed.

Lemma strip_incl (s : pystr) (c : N) : In c (strip s) -> In c s.
Proof.
  unfold strip, rstrip. intros H.
  apply in_rev, lstrip_incl, in_rev in H. apply lstrip_incl, H.
Qed.

End Strip.

Section DecodedLine.

Local Open Scope N_scope.

(** Decoding makes no line feed out of bytes that have none. *)
Lemma decode_points_no_newline (n : nat) (bs : list N) (s : pystr) :
  (length bs <= n)%nat ->
  Utf8.decode_points bs = Some s -> ~ In 10 bs -> ~ In 10 s.
Proof.
  revert bs s. induction n as [|n IH]; intros bs s Hlen.
  - destruct bs; [|cbn in Hlen; lia]. cbn. intros [= <-] _ [].
  - destruct bs as [|b0 r0]; [cbn; intros [= <-] _ []|].
    cbn [Utf8.decode_points].
    cbn [length] in Hlen.
    assert (Hrec : forall r t c, (length r <= n)%nat ->
              c <> 10 -> ~ In 10 r ->
              cons c <$> Utf8.decode_points r = Some t -> ~ In 10 t).
    { intros r t c Hr Hc Hnr H.
      destruct (Utf8.decode_points r) as [t'|] eqn:Hd; [|discriminate].
      injection H as <-. intros [Heq|Hin]; [congruence|].
      exact (IH r t' Hr Hd Hnr Hin). }
    intros Hdec Hnot.
    assert (Hb0 : b0 <> 10) by (intros ->; apply Hnot; left; reflexivity).
    assert (Hr0 : ~ In 10 r0) by (intros H; apply Hnot; right; exact H).
    destruct (N.ltb_spec b0 0x80) as [H0|H0].
    { exact (Hrec r0 s b0 ltac:(lia) Hb0 Hr0 Hdec). }
    destruct (Utf8.within 0xC2 0xDF b0) eqn:Hw1.
    { destruct r0 as [|b1 r1]; [discriminate|].
      destruct (Utf8.cont b1); [|discriminate].
      unfold Utf8.within in Hw1.
      apply andb_true_iff in Hw1 as [Hw1 _]. apply N.leb_le in Hw1.
      cbn [length] in Hlen.
      refine (Hrec r1 s _ ltac:(lia) _ _ Hdec); [lia|].
      intros H; apply Hr0; right; exact H. }
    destruct (Utf8.within 0xE0 0xEF b0) eqn:Hw2.
    { destruct r0 as [|b1 [|b2 r2]]; try discriminate.
      destruct (_ && _) eqn:Hc; [|discriminate].
      apply andb_true_iff in Hc as [Hc _]. unfold Utf8.within in Hc, Hw2.
      apply andb_true_iff in Hc as [Hc _]. apply N.leb_le in Hc.
      apply andb_true_iff in Hw2 as [Hw2 _]. apply N.leb_le in Hw2.
      cbn [length] in Hlen.
      refine (Hrec r2 s _ ltac:(lia) _ _ Hdec);
        [|intros H; apply Hr0; right; right; exact H].
      destruct (N.eqb_spec b0 0xE0); lia. }
    destruct (Utf8.within 0xF0 0xF4 b0) eqn:Hw3; [|discriminate].
    destruct r0 as [|b1 [|b2 [|b3 r3]]]; try discriminate.
    destruct (_ && _) eqn:Hc; [|discriminate].
    apply andb_true_iff in Hc as [Hc _].
    apply andb_true_iff in Hc as [Hc _]. unfold Utf8.within in Hc, Hw3.
    apply andb_true_iff in Hc as [Hc _]. apply N.leb_le in Hc.
    apply andb_true_iff in Hw3 as [Hw3 _]. apply N.leb_le in Hw3.
    cbn [length] in Hlen.
    refine (Hrec r3 s _ ltac:(lia) _ _ Hdec);
      [|intros H; apply Hr0; right; right; right; exact H].
    destruct (N.eqb_spec b0 0xF0); lia.
Qed.

Lemma before_newline_no_newline (buf : list byte) :
  ~ In NEWLINE (before_newline buf).
Proof.
  induction buf as [|c r IH]; [intros []|]. cbn [before_newline].
  destruct (Byte.eqb NEWLINE c) eqn:Hc; [intros []|].
  simpl. intros [Heq|H]; [|exact (IH H)].
  subst c. vm_compute in Hc. discriminate.
Qed.

Lemma decode_no_newline (bs : list byte) (s : pystr) :
  Utf8.decode bs = Ok s -> ~ In NEWLINE bs -> ~ In 10 s.
Proof.
  unfold Utf8.decode.
  destruct (Utf8.decode_points (map Byte.to_N bs)) as [t|] eqn:Hd;
    [|discriminate].
  intros [= <-] Hnot.
  apply (decode_points_no_newline _ _ _ (le_n _) Hd).
  intros Hin. apply in_map_iff in Hin as (b & Hb & Hin).
  apply Hnot. replace NEWLINE with b; [exact Hin|].
  pose proof (Byte.of_to_N b) as Hof. rewrite Hb in Hof.
  vm_compute in Hof. unfold NEWLINE. congruence.
Qed.

End DecodedLine.

(** X10.  The line the oracle client hands to the verifier is trimmed: it
    neither starts nor ends with white space, trimming it again changes
    nothing, and it holds no line feed. *)
Theorem oracle_line_is_trimmed (preimage : pystr) (net : net_script)
    (st : wstate) (line : pystr) :
  snd (_send_pre_and_recv_hash preimage net st) = Ok (Some line) ->
  strip line = line
  /\ (forall c, head line = Some c \/ last line = Some c ->
                PyLong.Py_UNICODE_ISSPACE c = false)
  /\ ~ In 10%N line.
Proof.
  intros Hr.
  assert (Ha : answers preimage net line).
  { rewrite send_pre_eval in Hr. destruct (sock st) as [c|] eqn:Hsock.
    - destruct (try_query_spec preimage net st c Hsock) as (_ & Hiff & _).
      apply Hiff, Hr.
    - destruct (connect_ok net); [|discriminate].
      destruct (try_query_spec preimage net (connected st) (opened st)
                  eq_refl) as (_ & Hiff & _).
      apply Hiff, Hr. }
  destruct Ha as (data & pre & last & rest & s & _ & _ & _ & _ & _ & Hd & ->).
  split; [apply strip_strip|]. split; [apply strip_ends|].
  intros Hin. apply strip_incl in Hin.
  exact (decode_no_newline _ _ Hd (before_newline_no_newline _) Hin).
Qed.

Lemma oracle_line_is_trimmed_witness :
  strip (lit "00ff") = lit "00ff".
Proof.
  apply (oracle_line_is_trimmed (lit "e8a195800b|0000abc")
           (answering [x20; x30; x30; x66; x66; x0d]) initial_state
           (lit "00ff")).
  vm_compute. reflexivity.
Defined.
(* ===================================================================== *)
(** * fullauto&workerrandom.py: the ranges and the range worker *)
(* ===================================================================== *)

(** X11.  The ranges given to the workers are pairwise disjoint and follow
    one another: the range of a worker ends at or before the start of
    the range of every later worker, so no nonce belongs to two
    workers.  With at most 2^64 workers every range lies within the
    nonce space and is not empty. *)
Theorem start_workers_ranges_disjoint (workers_count : Z) (entropy : Z -> Z) :
  1 <= workers_count ->
  exists ranges,
    FullAuto.start_workers workers_count entropy = Ok ranges
    /\ (forall (i j : nat) (r1 r2 : Z * Z),
          ranges !! i = Some r1 -> ranges !! j = Some r2 -> (i < j)%nat ->
          snd r1 <= fst r2)
    /\ (forall (i j : nat) (r1 r2 : Z * Z) (x : Z),
          ranges !! i = Some r1 -> ranges !! j = Some r2 ->
          FullAuto.in_range x r1 -> FullAuto.in_range x r2 -> i = j)
    /\ (workers_count <= 2 ^ 64 ->
        forall (i : nat) (r : Z * Z),
          ranges !! i = Some r -> 0 <= fst r < snd r /\ snd r <= 2 ^ 64).
Proof.
  intros Hcount.
  destruct (start_workers_lookup workers_count Hcount entropy 0 ltac:(lia))
    as (ranges & Hstart & Hlen & _).
  exists ranges. split; [exact Hstart|].
  set (chunk_size := FullAuto.TOTAL_NONCE_SPACE / workers_count).
  destruct (chunk_size_bounds workers_count Hcount) as [Hc0 Hcn].
  fold chunk_size in Hc0, Hcn.
  assert (Hrange : forall (i : nat) r, ranges !! i = Some r ->
            Z.of_nat i < workers_count
            /\ Z.of_nat i * chunk_size <= fst r
               <= Z.of_nat i * chunk_size + chunk_size / 100
            /\ snd r = (if Z.of_nat i =? workers_count - 1
                        then FullAuto.TOTAL_NONCE_SPACE
                        else (Z.of_nat i + 1) * chunk_size)).
  { intros i r Hi.
    assert (Hlt : (i < length ranges)%nat) by (eapply lookup_lt_Some; eauto).
    destruct (start_workers_lookup workers_count Hcount entropy (Z.of_nat i)
                ltac:(lia)) as (ranges' & Hstart' & _ & Hl).
    rewrite Hstart in Hstart'. injection Hstart' as <-.
    rewrite Nat2Z.id, Hi in Hl. injection Hl as ->.
    split; [lia|].
    apply (worker_range_bounds workers_count Hcount). }
  assert (Hordered : forall (i j : nat) r1 r2,
            ranges !! i = Some r1 -> ranges !! j = Some r2 -> (i < j)%nat ->
            snd r1 <= fst r2).
  { intros i j r1 r2 H1 H2 Hij.
    destruct (Hrange i r1 H1) as (Hi & _ & He).
    destruct (Hrange j r2 H2) as (Hj & [Hs _] & _).
    destruct (Z.eqb_spec (Z.of_nat i) (workers_count - 1)); [lia|].
    rewrite He. nia. }
  split; [exact Hordered|]. split.
  - intros i j r1 r2 x H1 H2 [Hx1 Hx1'] [Hx2 Hx2'].
    destruct (Nat.lt_trichotomy i j) as [Hlt|[Heq|Hgt]]; [|exact Heq|].
    + pose proof (Hordered i j r1 r2 H1 H2 Hlt). lia.
    + pose proof (Hordered j i r2 r1 H2 H1 Hgt). lia.
  - intros Hmax i r Hi.
    destruct (Hrange i r Hi) as (Hlt & [Hs Hs'] & He).
    assert (Hpos : 1 <= chunk_size).
    { subst chunk_size. unfold FullAuto.TOTAL_NONCE_SPACE.
      apply Z.div_le_lower_bound; lia. }
    assert (Hoff : chunk_size / 100 < chunk_size).
    { apply Z.div_lt; lia. }
    unfold FullAuto.TOTAL_NONCE_SPACE in *.
    destruct (Z.eqb_spec (Z.of_nat i) (workers_count - 1)) as [Hlast|Hnot];
      rewrite He; nia.
Qed.

Lemma start_workers_ranges_disjoint_witness :
  exists ranges,
    FullAuto.start_workers 3 (fun i => 7 * i) = Ok ranges
    /\ (forall r1 r2,
          ranges !! 0%nat = Some r1 -> ranges !! 2%nat = Some r2 ->
          snd r1 <= fst r2).
Proof.
  destruct (start_workers_ranges_disjoint 3 (fun i => 7 * i) ltac:(lia))
    as (ranges & Hstart & Hordered & _).
  exists ranges. split; [exact Hstart|].
  intros r1 r2 H1 H2. apply (Hordered 0%nat 2%nat r1 r2 H1 H2). lia.
Defined.

Section RangeWorkerRun.

Variable request_bytes : pyval -> list byte.
Variable json_loads : list byte -> result pyval.
Variable submit_solution : pyval -> pyval -> io unit.
Variable submit_on_find : bool.

Let quiet_wire : relation wstate := fun st st' =>
  hashes st' = hashes st /\ solutions st' = solutions st
  /\ adds (fun e => wire e = true) st st'.

Local Instance quiet_wire_preorder : PreOrder quiet_wire.
Proof.
  split.
  - intros st. repeat split. reflexivity.
  - intros st1 st2 st3 (H1 & H2 & H3) (H1' & H2' & H3').
    split; [congruence|]. split; [congruence|]. by etransitivity.
Qed.

Lemma quiet_wire_emit (e : event) :
  wire e = true -> framed quiet_wire (emit e).
Proof.
  intros He st. repeat split. exists [e]. split; [reflexivity|].
  repeat constructor. exact He.
Qed.

Lemma quiet_wire_is_set (b : bool) : framed quiet_wire (stop_event_is_set b).
Proof.
  intros st. repeat split. exists []. cbn. rewrite app_nil_r. auto.
Qed.

Lemma quiet_wire_recv_response (conn : nat)
    (script : list (bool * recv_outcome)) (data : list byte) :
  framed quiet_wire (FullAuto.recv_response conn script data).
Proof.
  revert data. induction script as [|[by_others got] script IH];
    intros data; cbn [FullAuto.recv_response]; [apply framed_raise, _|].
  apply framed_bind; [typeclasses eauto|apply quiet_wire_is_set|].
  intros [|]; [apply framed_ret, _|].
  apply framed_bind; [typeclasses eauto|by apply quiet_wire_emit|].
  intros _. destruct got as [[|c b]|];
    [apply framed_ret, _| |apply framed_raise, _].
  apply framed_bind; [typeclasses eauto| |intros _; apply IH].
  unfold FullAuto.stats_call.
  rewrite bool_decide_eq_false_2; [apply framed_raise, _|].
  intros H. apply list_elem_of_In in H. simpl in H.
  repeat (destruct H as [H|H]; [discriminate|]). exact H.
Qed.

Lemma quiet_wire_call_daemon (challenge : pyval)
    (connects sends : bool) (script : list (bool * recv_outcome)) :
  framed quiet_wire
    (FullAuto.call_daemon_with_range (request_bytes challenge) json_loads
       connects sends script).
Proof.
  unfold FullAuto.call_daemon_with_range.
  apply framed_try_except; [typeclasses eauto| |apply framed_ret, _].
  apply framed_bind; [typeclasses eauto| |intros conn].
  { intros st. reflexivity. }
  apply framed_bind; [typeclasses eauto|by apply quiet_wire_emit|].
  intros _. apply framed_bind; [typeclasses eauto| |intros _].
  { destruct connects; [apply framed_ret, _|apply framed_raise, _]. }
  apply framed_bind; [typeclasses eauto|by apply quiet_wire_emit|].
  intros _. apply framed_bind; [typeclasses eauto| |intros _].
  { destruct sends; [apply framed_ret, _|apply framed_raise, _]. }
  apply framed_bind;
    [typeclasses eauto|apply quiet_wire_recv_response|intros data].
  apply framed_bind; [typeclasses eauto|by apply quiet_wire_emit|].
  intros _. destruct data; [apply framed_ret, _|].
  apply framed_bind; [typeclasses eauto|apply framed_lift, _|].
  intros v. apply framed_ret, _.
Qed.

(** An attempt never reports a find. *)
Lemma attempt_continues (challenge : pyval) (d : RangeWorker.daemon)
    (st : wstate) :
  let r := RangeWorker.attempt request_bytes json_loads submit_solution
             submit_on_find challenge d st in
  snd r = Ok Continue /\ quiet_wire st (fst r).
Proof.
  cbn zeta. destruct d as [[connects sends] script].
  unfold RangeWorker.attempt, RangeWorker.attempt_body, try_except.
  pose proof (call_daemon_with_range_counts_nothing (request_bytes challenge)
                json_loads connects sends script st) as [_ Hnone].
  pose proof (quiet_wire_call_daemon challenge connects sends script st)
    as Hq.
  rewrite (bind_ok _ _ st None Hnone).
  split; [reflexivity|exact Hq].
Qed.

End RangeWorkerRun.

(** X12.  The range worker never reports a find: [Stats] has no method
    [increment_hashes], so a call to the daemon that receives anything
    ends in the [except] branch and returns [None].  Whatever the daemon
    sends, the worker counts no hash and no solution, never reaches
    [submit_solution], and only connects, sends, reads, closes and
    sleeps until the turns run out or the stop event is set by another
    thread. *)
Theorem range_worker_never_finds (request_bytes : pyval -> list byte)
    (json_loads : list byte -> result pyval)
    (submit_solution : pyval -> pyval -> io unit) (submit_on_find : bool)
    (rounds : list (bool * pyval * RangeWorker.daemon)) (st : wstate) :
  let r := RangeWorker.run request_bytes json_loads submit_solution
             submit_on_find rounds st in
  snd r = Ok tt
  /\ hashes (fst r) = hashes st
  /\ solutions (fst r) = solutions st
  /\ exists evs, trace (fst r) = trace st ++ evs
                 /\ Forall (fun e => wire e = true) evs.
Proof.
  cbn zeta. revert st.
  induction rounds as [|[[by_others challenge] d] rounds IH]; intros st.
  - cbn. repeat split. exists []. by rewrite app_nil_r.
  - cbn [RangeWorker.run]. rewrite bind_stop_event_is_set.
    set (st0 := fst (stop_event_is_set by_others st)).
    assert (H0 : hashes st0 = hashes st /\ solutions st0 = solutions st
                 /\ trace st0 = trace st) by (repeat split).
    destruct H0 as (Hh0 & Hs0 & Ht0).
    destruct (stop_event st || by_others).
    { cbn. repeat split; auto. exists []. by rewrite app_nil_r. }
    destruct (py_not challenge).
    + unfold sleep. rewrite bind_emit.
      destruct (IH (fst (emit (EvSleep 100) st0)))
        as (Hr & Hh & Hs & evs & Ht & Hw).
      split; [exact Hr|]. split; [rewrite Hh; exact Hh0|].
      split; [rewrite Hs; exact Hs0|].
      exists (EvSleep 100 :: evs). split.
      * rewrite Ht. cbn. rewrite <- app_assoc. reflexivity.
      * constructor; [reflexivity|exact Hw].
    + unfold mbind, io_bind.
      destruct (attempt_continues request_bytes json_loads submit_solution
                  submit_on_find challenge d st0)
        as (Hc & Hh1 & Hs1 & evs1 & Ht1 & Hw1).
      destruct (RangeWorker.attempt request_bytes json_loads submit_solution
                  submit_on_find challenge d st0) as [st1 r1].
      cbn [fst snd] in *. subst r1.
      destruct (IH st1) as (Hr & Hh & Hs & evs & Ht & Hw).
      split; [exact Hr|]. split; [congruence|]. split; [congruence|].
      exists (evs1 ++ evs). split.
      * rewrite Ht, Ht1, Ht0, <- app_assoc. reflexivity.
      * apply Forall_app. auto.
Qed.
(* ===================================================================== *)
(** * Challenges read from a CSV file *)
(* ===================================================================== *)

Section StripChars.

Variable chars : pystr.

Lemma lstrip_chars_id (s : pystr) :
  (forall c, head s = Some c -> c ∉ chars) -> lstrip_chars chars s = s.
Proof.
  destruct s as [|a s]; [reflexivity|]. intros H. cbn.
  rewrite bool_decide_eq_false_2 by exact (H a eq_refl). reflexivity.
Qed.

Lemma lstrip_chars_snoc (s : pystr) (c : N) :
  c ∉ chars -> lstrip_chars chars (s ++ [c]) = lstrip_chars chars s ++ [c].
Proof.
  intros Hc. induction s as [|a s IH]; cbn.
  - rewrite bool_decide_eq_false_2 by exact Hc. reflexivity.
  - destruct (bool_decide (a ∈ chars)); [exact IH|reflexivity].
Qed.

Lemma rstrip_chars_id (s : pystr) :
  (forall c, last s = Some c -> c ∉ chars) -> rstrip_chars chars s = s.
Proof.
  intros H. unfold rstrip_chars.
  rewrite lstrip_chars_id, rev_involutive; [reflexivity|].
  intros c. rewrite head_rev. apply H.
Qed.

Lemma rstrip_chars_head (s : pystr) (c : N) :
  (forall a, head s = Some a -> a ∉ chars) ->
  head (rstrip_chars chars s) = Some c -> c ∉ chars.
Proof.
  destruct s as [|a s]; [discriminate|]. intros H.
  unfold rstrip_chars. cbn [rev].
  rewrite lstrip_chars_snoc by exact (H a eq_refl).
  rewrite rev_app_distr. cbn. intros [= <-]. exact (H a eq_refl).
Qed.

(** A string trimmed of [chars] neither starts nor ends with one of
    them. *)
Lemma strip_chars_ends (s : pystr) (c : N) :
  head (strip_chars chars s) = Some c \/ last (strip_chars chars s) = Some c ->
  c ∉ chars.
Proof.
  unfold strip_chars. intros [H|H].
  - revert H. apply rstrip_chars_head. intros a. apply lstrip_chars_head.
  - revert H. apply rstrip_chars_last.
Qed.

Lemma strip_chars_strip_chars (s : pystr) :
  strip_chars chars (strip_chars chars s) = strip_chars chars s.
Proof.
  assert (Hl : lstrip_chars chars (strip_chars chars s)
               = strip_chars chars s).
  { apply lstrip_chars_id. intros c Hc. apply (strip_chars_ends s). auto. }
  unfold strip_chars at 1. rewrite Hl. apply rstrip_chars_id.
  intros c Hc. apply (strip_chars_ends s). auto.
Qed.

End StripChars.

Section CsvReaderFacts.

Import CsvReader.

(** The dictionary built from a row, key by key. *)
Lemma row_challenge_lookup (row : list pystr) :
  let c := row_challenge row in
  c !! lit "challenge_id" = Some (PyStr (field row 0 []))
  /\ c !! lit "difficulty" = Some (PyStr (field row 1 []))
  /\ c !! lit "no_pre_mine" = Some (PyStr (field row 2 []))
  /\ c !! lit "no_pre_mine_hour" = Some (PyStr (field row 3 []))
  /\ c !! lit "latest_submission"
     = Some (PyStr (field row 4 (lit "2099-12-31T23:59:59.000Z"))).
Proof.
  cbn zeta. unfold row_challenge.
  generalize (field row 0 []), (field row 1 []), (field row 2 []),
    (field row 3 []), (field row 4 (lit "2099-12-31T23:59:59.000Z")).
  intros a b c d e. repeat split; vm_compute; reflexivity.
Qed.

Lemma field_stripped (row : list pystr) (i : nat) (dflt : pystr) :
  (i < length row)%nat -> strip (field row i dflt) = field row i dflt.
Proof.
  intros Hi. unfold field.
  destruct (row !! i) as [s|] eqn:Hs; [apply strip_strip|].
  apply lookup_ge_None in Hs. lia.
Qed.

Lemma load_rows_loaded (rows : list (list pystr)) :
  exists challenges,
    load_rows rows = Ok challenges
    /\ (length challenges <= length rows)%nat
    /\ Forall loaded challenges.
Proof.
  induction rows as [|row rows (cs & Hcs & Hlen & Hall)].
  - exists []. repeat split; auto.
  - cbn [load_rows]. destruct (Nat.ltb_spec (length row) 5) as [Hshort|Hlong].
    { exists cs. split; [exact Hcs|]. split; [cbn; lia|exact Hall]. }
    destruct (row_challenge_lookup row) as (H0 & H1 & H2 & H3 & H4).
    cbv zeta. unfold valid, truthy, dict_getitem. rewrite H0.
    cbn [mbind result_bind py_not].
    destruct (field row 0 []) as [|a0 f0] eqn:Hf0; cbn [negb].
    { rewrite Hcs. exists cs. split; [reflexivity|].
      split; [cbn; lia|exact Hall]. }
    rewrite H1. cbn [mbind result_bind py_not].
    destruct (field row 1 []) as [|a1 f1] eqn:Hf1; cbn [negb].
    { rewrite Hcs. exists cs. split; [reflexivity|].
      split; [cbn; lia|exact Hall]. }
    rewrite H2. cbn [mbind result_bind py_not].
    destruct (field row 2 []) as [|a2 f2] eqn:Hf2; cbn [negb].
    { rewrite Hcs. exists cs. split; [reflexivity|].
      split; [cbn; lia|exact Hall]. }
    rewrite Hcs. cbn [mbind result_bind].
    exists (row_challenge row :: cs). split; [reflexivity|].
    split; [cbn; lia|]. constructor; [|exact Hall].
    exists (a0 :: f0), (a1 :: f1), (a2 :: f2), (field row 3 []),
      (field row 4 (lit "2099-12-31T23:59:59.000Z")).
    split; [exact H0|]. split; [exact H1|]. split; [exact H2|].
    split; [exact H3|]. split; [exact H4|].
    split; [discriminate|]. split; [discriminate|]. split; [discriminate|].
    split.
    { rewrite <- Hf0, <- Hf1, <- Hf2.
      repeat constructor; apply field_stripped; lia. }
    intros nonce address. unfold build_preimage, dict_getitem, dict_get.
    rewrite H0, H1, H2, H3, H4. cbn. rewrite app_nil_r. reflexivity.
Qed.

End CsvReaderFacts.

(** X13.  Every challenge [read_challenges_from_csv] returns has the five
    fields as trimmed strings, with challenge_id, difficulty and
    no_pre_mine not empty, so that [build_preimage] succeeds on it for
    every nonce and address; the first row of the file is never among
    them.  The function exits with status 1 exactly when the file cannot
    be read or has no line at all. *)
Theorem csv_challenges_are_loaded (file : option (list (list pystr))) :
  (forall challenges,
      CsvReader.read_challenges_from_csv file = Returns challenges ->
      (exists header rows,
          file = Some (header :: rows)
          /\ CsvReader.load_rows rows = Ok challenges
          /\ (length challenges <= length rows)%nat)
      /\ Forall loaded challenges)
  /\ (forall code,
        CsvReader.read_challenges_from_csv file = Exits code
        <-> code = 1 /\ (file = None \/ file = Some [])).
Proof.
  unfold CsvReader.read_challenges_from_csv.
  destruct file as [[|header rows]|].
  - split; [discriminate|]. intros code. split.
    + intros [= <-]. auto.
    + intros [-> _]. reflexivity.
  - destruct (load_rows_loaded rows) as (cs & Hcs & Hlen & Hall).
    rewrite Hcs. split.
    + intros challenges [= <-]. split; [|exact Hall].
      exists header, rows. auto.
    + intros code. split; [discriminate|].
      intros [_ [H|H]]; discriminate.
  - split; [discriminate|]. intros code. split.
    + intros [= <-]. auto.
    + intros [-> _]. reflexivity.
Qed.
Section CsvDictReaderFacts.

Import CsvDictReader.

Local Abbreviation clean := (strip_chars KEY_TRIM).

(** Where the entries of a cleaned row come from. *)
Lemma clean_row_entries (items : list (option pystr * pyval))
    (acc c : gmap pystr pyval) :
  clean_row items acc = Ok c ->
  forall k' v,
    c !! k' = Some v ->
    acc !! k' = Some v
    \/ exists k, In (Some k, v) items /\ clean k = k'.
Proof.
  revert acc. induction items as [|[[k|] v] items IH]; intros acc;
    cbn [clean_row]; [intros [= <-]; auto| |discriminate].
  intros Hc k' v' Hl. destruct (IH _ Hc k' v' Hl) as [Hacc|(k0 & Hin & Hk0)].
  - destruct (decide (clean k = k')) as [Heq|Hne].
    + rewrite <- Heq, lookup_insert_eq in Hacc. injection Hacc as <-.
      right. exists k. split; [left; reflexivity|exact Heq].
    + rewrite lookup_insert_ne in Hacc by exact Hne. auto.
  - right. exists k0. split; [right; exact Hin|exact Hk0].
Qed.

(** The last item of a key wins. *)
Lemma clean_row_last (items : list (option pystr * pyval))
    (acc c : gmap pystr pyval) (k : pystr) (v : pyval)
    (rest : list (option pystr * pyval)) :
  clean_row (items ++ (Some k, v) :: rest) acc = Ok c ->
  (forall k0 v0, In (Some k0, v0) rest -> clean k0 <> clean k) ->
  c !! clean k = Some v.
Proof.
  revert acc. induction items as [|[[k1|] v1] items IH]; intros acc;
    cbn [app clean_row]; [|apply IH|discriminate].
  intros Hc Hrest.
  assert (Hkeep : forall l a, clean_row l a = Ok c ->
            (forall k0 v0, In (Some k0, v0) l -> clean k0 <> clean k) ->
            c !! clean k = a !! clean k).
  { clear. induction l as [|[[k1|] v1] l IHl]; intros a; cbn [clean_row];
      [intros [= <-]; auto| |discriminate].
    intros Hc Hne. rewrite (IHl _ Hc) by (intros; eapply Hne; right; eauto).
    apply lookup_insert_ne. eapply Hne. left. reflexivity. }
  rewrite (Hkeep _ _ Hc Hrest). apply lookup_insert_eq.
Qed.

Lemma clean_row_raises (items : list (option pystr * pyval))
    (acc : gmap pystr pyval) :
  (exists v, In (None, v) items) <-> clean_row items acc = Raise AttributeError.
Proof.
  revert acc. induction items as [|[[k|] v] items IH]; intros acc;
    cbn [clean_row].
  - split; [intros [v []]|discriminate].
  - rewrite <- IH. split; intros [v0 H]; exists v0.
    + destruct H as [H|H]; [discriminate|exact H].
    + right. exact H.
  - split; [reflexivity|]. intros _. exists v. left. reflexivity.
Qed.

Lemma clean_row_result (items : list (option pystr * pyval))
    (acc : gmap pystr pyval) :
  (exists c, clean_row items acc = Ok c)
  \/ clean_row items acc = Raise AttributeError.
Proof.
  revert acc. induction items as [|[[k|] v] items IH]; intros acc;
    cbn [clean_row]; eauto.
Qed.

Lemma clean_rows_cleaned (rows : list (list (option pystr * pyval)))
    (cs : list (gmap pystr pyval)) :
  clean_rows rows = Ok cs -> Forall2 cleaned rows cs.
Proof.
  revert cs. induction rows as [|row rows IH]; intros cs; cbn [clean_rows].
  - intros [= <-]. constructor.
  - destruct (clean_row row ∅) as [c|e] eqn:Hc; [|discriminate].
    cbn [mbind result_bind].
    destruct (clean_rows rows) as [cs'|e]; [|discriminate].
    intros [= <-]. constructor; [|apply IH; reflexivity].
    assert (Hfrom : forall k' v, c !! k' = Some v ->
              exists k, In (Some k, v) row /\ clean k = k').
    { intros k' v Hl.
      destruct (clean_row_entries row ∅ c Hc k' v Hl) as [H|H]; [|exact H].
      rewrite lookup_empty in H. discriminate. }
    split; [exact Hc|]. split; [|split; [exact Hfrom|]].
    + intros k' [v Hl]. destruct (Hfrom k' v Hl) as (k & _ & <-).
      split; [apply strip_chars_strip_chars|].
      intros a. apply strip_chars_ends.
    + intros before k v after -> Hafter.
      exact (clean_row_last before ∅ c k v after Hc Hafter).
Qed.

Lemma clean_rows_raises (rows : list (list (option pystr * pyval))) :
  (exists row v, In row rows /\ In (None, v) row)
  <-> clean_rows rows = Raise AttributeError.
Proof.
  induction rows as [|row rows IH]; cbn [clean_rows].
  - split; [intros (row & v & [] & _)|discriminate].
  - destruct (clean_row_result row ∅) as [[c Hc]|Hc]; rewrite Hc;
      cbn [mbind result_bind].
    + assert (Hnone : ~ exists v, In (None, v) row).
      { intros H. apply (clean_row_raises row ∅) in H. congruence. }
      destruct (clean_rows rows) as [cs|e] eqn:Hcs.
      * split; [|discriminate].
        intros (r & v & [<-|Hin] & Hv); [exfalso; eauto|].
        assert (H : Ok cs = Raise AttributeError) by (apply IH; eauto).
        discriminate.
      * split.
        -- intros (r & v & [<-|Hin] & Hv); [exfalso; eauto|].
           apply IH. eauto.
        -- intros H. apply IH in H as (r & v & Hin & Hv).
           exists r, v. split; [right; exact Hin|exact Hv].
    + split; [reflexivity|]. intros _.
      apply (clean_row_raises row ∅) in Hc as [v Hv].
      exists row, v. split; [left; reflexivity|exact Hv].
Qed.

Lemma filter_rows_filter (challenge_id : pystr)
    (rows : list (gmap pystr pyval)) :
  Forall (fun r => exists id, stripped_id r = Ok id) rows ->
  filter_rows challenge_id rows
    = Ok (List.filter (fun r => negb (matches challenge_id r)) rows).
Proof.
  induction 1 as [|r rows [id Hid] _ IH]; [reflexivity|].
  cbn [filter_rows List.filter]. unfold matches. rewrite Hid, IH.
  cbn [mbind result_bind]. destruct (bool_decide (id = challenge_id));
    reflexivity.
Qed.

Lemma filter_rows_result (challenge_id : pystr)
    (rows : list (gmap pystr pyval)) :
  match filter_rows challenge_id rows with
  | Ok kept => (length kept <= length rows)%nat
  | Raise _ => True
  end.
Proof.
  induction rows as [|r rows IH]; cbn [filter_rows]; [cbn; lia|].
  destruct (stripped_id r) as [id|e]; [|exact I]. cbn [mbind result_bind].
  destruct (filter_rows challenge_id rows) as [kept|e]; [|exact I].
  cbn [mbind result_bind].
  destruct (bool_decide (id = challenge_id)); cbn [length]; lia.
Qed.

Lemma removed_count (challenge_id : pystr) (rows : list (gmap pystr pyval)) :
  let kept := List.filter (fun r => negb (matches challenge_id r)) rows in
  (0 <? length rows - length kept)%nat = existsb (matches challenge_id) rows.
Proof.
  cbn zeta. induction rows as [|r rows IH]; [reflexivity|].
  cbn [List.filter existsb length].
  pose proof (List.filter_length_le
                (fun r => negb (matches challenge_id r)) rows) as Hle.
  destruct (matches challenge_id r); cbn [negb orb length].
  - apply Nat.ltb_lt. lia.
  - rewrite <- IH. reflexivity.
Qed.

End CsvDictReaderFacts.

(** X14.  The challenges [read_challenges_from_csv] returns are the rows of
    the file, one for one and in order, with their keys trimmed of
    quotes, byte-order mark and spaces; the values are those of the row.
    A file without rows is a [ValueError]; a row with more fields than
    the header has, whose extra fields come under the key [None], is an
    [AttributeError]; an exception raised by the reading is raised
    again. *)
Theorem csv_rows_are_cleaned
    (file : result (list (list (option pystr * pyval)))) :
  (forall challenges,
      CsvDictReader.read_challenges_from_csv file = Ok challenges ->
      challenges <> []
      /\ exists rows, file = Ok rows
                      /\ Forall2 CsvDictReader.cleaned rows challenges)
  /\ (file = Ok [] ->
      CsvDictReader.read_challenges_from_csv file = Raise ValueError)
  /\ (forall rows,
        file = Ok rows ->
        (exists row v, In row rows /\ In (None, v) row) ->
        CsvDictReader.read_challenges_from_csv file = Raise AttributeError)
  /\ (forall e,
        file = Raise e ->
        CsvDictReader.read_challenges_from_csv file = Raise e).
Proof.
  unfold CsvDictReader.read_challenges_from_csv.
  split; [|split; [|split]].
  - intros challenges. destruct file as [rows|e]; [|discriminate].
    cbn [mbind result_bind].
    destruct (CsvDictReader.clean_rows rows) as [cs|e] eqn:Hcs;
      [|discriminate].
    cbn [mbind result_bind]. destruct cs as [|c cs]; [discriminate|].
    intros [= <-]. split; [discriminate|].
    exists rows. split; [reflexivity|]. apply clean_rows_cleaned, Hcs.
  - intros ->. reflexivity.
  - intros rows -> Hnone. cbn [mbind result_bind].
    apply clean_rows_raises in Hnone. rewrite Hnone. reflexivity.
  - intros e ->. reflexivity.
Qed.

(** X15.  [remove_challenge_from_csv] writes back, in their order and reduced
    to the five columns, exactly the rows whose trimmed challenge_id is
    not the one given, and returns whether a row was removed; a
    challenge_id with white space around it therefore removes nothing.
    When the file cannot be read or the writing fails, the file is left
    as it was and the answer is [False]. *)
Theorem remove_challenge_from_csv_keeps_the_others
    (file : result (list (gmap pystr pyval))) (challenge_id : pystr)
    (written : bool) :
  (forall rows,
      file = Ok rows ->
      Forall (fun r => exists id, CsvDictReader.stripped_id r = Ok id) rows ->
      written = true ->
      CsvDictReader.remove_challenge_from_csv file challenge_id written
      = (Some (map CsvDictReader.written_row
                 (List.filter
                    (fun r => negb (CsvDictReader.matches challenge_id r))
                    rows)),
         existsb (CsvDictReader.matches challenge_id) rows))
  /\ ((exists e, file = Raise e) \/ written = false ->
      CsvDictReader.remove_challenge_from_csv file challenge_id written
      = (None, false))
  /\ (strip challenge_id <> challenge_id ->
      snd (CsvDictReader.remove_challenge_from_csv file challenge_id written)
      = false).
Proof.
  unfold CsvDictReader.remove_challenge_from_csv.
  split; [|split].
  - intros rows -> Hids ->. cbn [mbind result_bind].
    rewrite filter_rows_filter by exact Hids. cbn [mbind result_bind].
    f_equal. apply removed_count.
  - intros [[e ->] | ->]; [reflexivity|].
    destruct (_ ← file; _) as [[rows filtered]|e]; reflexivity.
  - intros Hws. destruct file as [rows|e]; [|reflexivity].
    cbn [mbind result_bind].
    assert (Hall : forall l kept,
              CsvDictReader.filter_rows challenge_id l = Ok kept -> kept = l).
    { induction l as [|r l IH]; intros kept; cbn [CsvDictReader.filter_rows];
        [intros [= <-]; reflexivity|].
      unfold CsvDictReader.stripped_id at 1.
      destruct (if py_not _ then PyStr [] else _) as [| |s|]; try discriminate.
      cbn [mbind result_bind].
      destruct (CsvDictReader.filter_rows challenge_id l) as [k|e];
        [|discriminate].
      cbn [mbind result_bind].
      rewrite bool_decide_eq_false_2.
      - intros [= <-]. f_equal. apply IH. reflexivity.
      - intros Heq. apply Hws. rewrite <- Heq. apply strip_strip. }
    destruct (CsvDictReader.filter_rows challenge_id rows) as [kept|e] eqn:Hk;
      [|reflexivity].
    cbn [mbind result_bind]. rewrite (Hall rows kept Hk), Nat.sub_diag.
    destruct written; reflexivity.
Qed.

(** X16.  A challenge installed by the orchestrator of py_miner.py has every
    key a worker reads: a round of the worker goes past its checks and
    lookups to the batch loop, with the difficulty and the challenge id
    of that challenge. *)
Theorem installed_challenge_is_usable (sc : option Z)
    (resp current new : pyval) :
  Orchestrator.run_startup sc resp current = (new, Ok true)
  \/ Orchestrator.refresh_challenge sc resp current = (new, Ok true) ->
  exists challenge difficulty challenge_id,
    new = PyDict challenge
    /\ challenge !! lit "difficulty" = Some difficulty
    /\ challenge !! lit "challenge_id" = Some challenge_id
    /\ is_Some (challenge !! lit "latest_submission")
    /\ is_Some (challenge !! lit "no_pre_mine")
    /\ forall submit_phase address submit_on_find envs st,
         run_round submit_phase address submit_on_find new envs st
         = (_ ← batch_loop submit_phase address submit_on_find challenge
                  difficulty challenge_id NONCE_BATCH 0 envs;
            sleep 1) st.
Proof.
  intros H.
  assert (Hkeys : exists d, new = PyDict d
                            /\ has_keys Orchestrator.required4 d).
  { destruct H as [H|H].
    - destruct (run_startup_installs sc resp current new H)
        as (r & d & _ & _ & _ & _ & -> & Hk). eauto.
    - destruct (refresh_challenge_installs sc resp current new H)
        as (r & d & _ & _ & _ & _ & -> & Hk).
      exists d. split; [reflexivity|]. intros k Hin. apply Hk.
      apply list_elem_of_In. apply list_elem_of_In in Hin.
      simpl in *. tauto. }
  destruct Hkeys as (d & -> & Hk).
  assert (Hin : forall k, In k Orchestrator.required4 -> is_Some (d !! k)).
  { intros k Hin. apply Hk, list_elem_of_In, Hin. }
  destruct (Hin (lit "difficulty") ltac:(simpl; tauto)) as [dif Hdif].
  destruct (Hin (lit "challenge_id") ltac:(simpl; tauto)) as [cid Hcid].
  pose proof (Hin (lit "latest_submission") ltac:(simpl; tauto)) as Hls.
  pose proof (Hin (lit "no_pre_mine") ltac:(simpl; tauto)) as Hnpm.
  exists d, dif, cid. repeat split; auto.
  intros submit_phase address submit_on_find envs st.
  unfold run_round. unfold mbind at 1. unfold io_bind at 1.
  cbn [lift py_in]. rewrite bool_decide_eq_true_2 by exact Hls.
  cbn [negb]. unfold mbind at 1 2 3. unfold io_bind at 1 2 3.
  cbn [lift py_getitem]. unfold dict_getitem. rewrite Hdif, Hcid.
  destruct Hls as [ls ->]. reflexivity.
Qed.

Lemma installed_challenge_is_usable_witness :
  exists challenge difficulty challenge_id,
    PyDict sample_challenge = PyDict challenge
    /\ challenge !! lit "difficulty" = Some difficulty
    /\ challenge !! lit "challenge_id" = Some challenge_id.
Proof.
  destruct (installed_challenge_is_usable (Some 200)
              (active_response sample_challenge) PyNone
              (PyDict sample_challenge)
              ltac:(left; vm_compute; reflexivity))
    as (c & d & i & H1 & H2 & H3 & _).
  exists c, d, i. auto.
Defined.

(* ===================================================================== *)
(** * UTF-8: what is encoded can be decoded *)
(* ===================================================================== *)

Section Utf8RoundTrip.

Local Open Scope N_scope.

Local Ltac euclid := zify; Z.to_euclidean_division_equations; lia.

Lemma within_true (lo hi x : N) :
  lo <= x -> x <= hi -> Utf8.within lo hi x = true.
Proof.
  intros H1 H2. unfold Utf8.within.
  apply andb_true_intro. split; apply N.leb_le; assumption.
Qed.

Lemma within_above (lo hi x : N) : hi < x -> Utf8.within lo hi x = false.
Proof.
  intros H. unfold Utf8.within. apply andb_false_iff. right.
  apply N.leb_gt. exact H.
Qed.

Lemma decode_encode_point (c : N) (bs rest : list N) :
  Utf8.encode_point c = Some bs ->
  Utf8.decode_points (bs ++ rest) = cons c <$> Utf8.decode_points rest.
Proof.
  unfold Utf8.encode_point.
  destruct (N.ltb_spec c 0x80) as [H1|H1].
  { intros [= <-]. cbn [app Utf8.decode_points].
    destruct (N.ltb_spec c 0x80); [reflexivity|lia]. }
  destruct (N.ltb_spec c 0x800) as [H2|H2].
  { intros [= <-]. cbn [app Utf8.decode_points].
    destruct (N.ltb_spec (0xC0 + c / 64) 0x80); [euclid|].
    unfold Utf8.cont.
    rewrite (within_true 0xC2 0xDF) by euclid.
    rewrite (within_true 0x80 0xBF) by euclid.
    replace ((0xC0 + c / 64 - 0xC0) * 64 + (0x80 + c mod 64 - 0x80))
      with c by euclid.
    reflexivity. }
  destruct (N.ltb_spec c 0x10000) as [H3|H3].
  { destruct (Utf8.within 0xD800 0xDFFF c) eqn:Hsur; [discriminate|].
    assert (Hc : c < 0xD800 \/ 0xDFFF < c).
    { unfold Utf8.within in Hsur. apply andb_false_iff in Hsur as [H|H];
        apply N.leb_gt in H; auto. }
    intros [= <-]. cbn [app Utf8.decode_points].
    destruct (N.ltb_spec (0xE0 + c / 4096) 0x80); [euclid|].
    unfold Utf8.cont.
    rewrite (within_above 0xC2 0xDF) by euclid.
    rewrite (within_true 0xE0 0xEF) by euclid.
    rewrite (within_true 0x80 0xBF (0x80 + c mod 64)) by euclid.
    destruct (N.eqb_spec (0xE0 + c / 4096) 0xE0);
      destruct (N.eqb_spec (0xE0 + c / 4096) 0xED);
      try (exfalso; euclid);
      rewrite within_true by euclid; cbn [andb];
      replace ((0xE0 + c / 4096 - 0xE0) * 4096
               + (0x80 + (c / 64) mod 64 - 0x80) * 64
               + (0x80 + c mod 64 - 0x80)) with c by euclid;
      reflexivity. }
  destruct (N.ltb_spec c 0x110000) as [H4|H4]; [|discriminate].
  intros [= <-]. cbn [app Utf8.decode_points].
  destruct (N.ltb_spec (0xF0 + c / 262144) 0x80); [euclid|].
  unfold Utf8.cont.
  rewrite (within_above 0xC2 0xDF) by euclid.
  rewrite (within_above 0xE0 0xEF) by euclid.
  rewrite (within_true 0xF0 0xF4) by euclid.
  rewrite (within_true 0x80 0xBF (0x80 + (c / 64) mod 64)) by euclid.
  rewrite (within_true 0x80 0xBF (0x80 + c mod 64)) by euclid.
  destruct (N.eqb_spec (0xF0 + c / 262144) 0xF0);
    destruct (N.eqb_spec (0xF0 + c / 262144) 0xF4);
    try (exfalso; euclid);
    rewrite within_true by euclid; cbn [andb];
    replace ((0xF0 + c / 262144 - 0xF0) * 262144
             + (0x80 + (c / 4096) mod 64 - 0x80) * 4096
             + (0x80 + (c / 64) mod 64 - 0x80) * 64
             + (0x80 + c mod 64 - 0x80)) with c by euclid;
    reflexivity.
Qed.

Lemma encode_point_bytes (c : N) (bs : list N) :
  Utf8.encode_point c = Some bs ->
  Forall (fun b => b < 256) bs /\ (c <> 10 -> ~ In 10 bs).
Proof.
  unfold Utf8.encode_point.
  destruct (N.ltb_spec c 0x80) as [H1|H1].
  { intros [= <-]. split; [repeat constructor; lia|].
    intros Hc [H|[]]. congruence. }
  destruct (N.ltb_spec c 0x800) as [H2|H2].
  { intros [= <-]. split; [repeat constructor; euclid|].
    intros _ [H|[H|[]]]; euclid. }
  destruct (N.ltb_spec c 0x10000) as [H3|H3].
  { destruct (Utf8.within 0xD800 0xDFFF c); [discriminate|].
    intros [= <-]. split; [repeat constructor; euclid|].
    intros _ [H|[H|[H|[]]]]; euclid. }
  destruct (N.ltb_spec c 0x110000) as [H4|H4]; [|discriminate].
  intros [= <-]. split; [repeat constructor; euclid|].
  intros _ [H|[H|[H|[H|[]]]]]; euclid.
Qed.

Lemma decode_encode_points (s : pystr) (bs : list N) :
  Utf8.encode_points s = Some bs ->
  Utf8.decode_points bs = Some s
  /\ Forall (fun b => b < 256) bs
  /\ (~ In 10 s -> ~ In 10 bs).
Proof.
  revert bs. induction s as [|c s IH]; intros bs; cbn [Utf8.encode_points].
  - intros [= <-]. repeat split; auto.
  - destruct (Utf8.encode_point c) as [b|] eqn:Hc; [|discriminate].
    destruct (Utf8.encode_points s) as [bs'|] eqn:Hs; [|discriminate].
    intros [= <-]. destruct (IH bs' eq_refl) as (Hd & Hb & Hn).
    destruct (encode_point_bytes c b Hc) as [Hb0 Hn0].
    rewrite (decode_encode_point c b bs' Hc), Hd.
    split; [reflexivity|]. split; [apply Forall_app; auto|].
    intros Hnot Hin. apply in_app_or in Hin as [Hin|Hin].
    + apply Hn0 in Hin; [exact Hin|]. intros ->. apply Hnot. left. reflexivity.
    + apply Hn in Hin; [exact Hin|]. intros H. apply Hnot. right. exact H.
Qed.

Lemma encode_points_app (s1 s2 : pystr) :
  Utf8.encode_points (s1 ++ s2)
  = match Utf8.encode_points s1, Utf8.encode_points s2 with
    | Some b1, Some b2 => Some (b1 ++ b2)
    | _, _ => None
    end.
Proof.
  induction s1 as [|c s1 IH]; cbn [app Utf8.encode_points].
  - destruct (Utf8.encode_points s2); reflexivity.
  - rewrite IH. destruct (Utf8.encode_point c); [|reflexivity].
    destruct (Utf8.encode_points s1); [|reflexivity].
    destruct (Utf8.encode_points s2); [|reflexivity].
    rewrite app_assoc. reflexivity.
Qed.

Lemma to_N_byte_of_N (bs : list N) :
  Forall (fun b => b < 256) bs ->
  map Byte.to_N (map Utf8.byte_of_N bs) = bs.
Proof.
  induction 1 as [|b bs Hb _ IH]; [reflexivity|]. cbn [map]. rewrite IH.
  f_equal. unfold Utf8.byte_of_N.
  destruct (Byte.of_N b) as [x|] eqn:Hx.
  - apply Byte.to_of_N. exact Hx.
  - apply Byte.of_N_None_iff in Hx. lia.
Qed.

(** Encoding then decoding gives the string back. *)
Lemma decode_encode (s : pystr) (data : list byte) :
  Utf8.encode s = Ok data -> Utf8.decode data = Ok s.
Proof.
  unfold Utf8.encode, Utf8.decode.
  destruct (Utf8.encode_points s) as [bs|] eqn:Hs; [|discriminate].
  intros [= <-]. destruct (decode_encode_points s bs Hs) as (Hd & Hb & _).
  rewrite to_N_byte_of_N by exact Hb. rewrite Hd. reflexivity.
Qed.

(** The bytes of a request line: the bytes of the preimage, which hold
    no line feed when the preimage has none, and the line feed. *)
Lemma encode_line (preimage : pystr) (data : list byte) :
  Utf8.encode (preimage ++ [10]) = Ok data ->
  exists body,
    Utf8.encode preimage = Ok body /\ data = body ++ [NEWLINE]
    /\ (~ In 10 preimage -> ~ In NEWLINE body).
Proof.
  unfold Utf8.encode. rewrite encode_points_app.
  destruct (Utf8.encode_points preimage) as [bs|] eqn:Hs; [|discriminate].
  change (Utf8.encode_points [10]) with (Some [10]).
  intros [= <-]. exists (map Utf8.byte_of_N bs).
  split; [reflexivity|]. split; [rewrite map_app; reflexivity|].
  intros Hnot Hin.
  destruct (decode_encode_points preimage bs Hs) as (_ & Hb & Hn).
  apply (Hn Hnot). rewrite <- (to_N_byte_of_N bs Hb).
  apply (in_map Byte.to_N) in Hin. exact Hin.
Qed.

Lemma before_newline_app (body tail : list byte) :
  ~ In NEWLINE body -> before_newline (body ++ NEWLINE :: tail) = body.
Proof.
  induction body as [|c body IH]; intros Hnot; cbn [app before_newline].
  - reflexivity.
  - destruct (Byte.eqb NEWLINE c) eqn:Hc.
    + exfalso. apply Hnot. left. symmetry.
      apply Byte.byte_dec_bl. exact Hc.
    + rewrite IH; [reflexivity|]. intros H. apply Hnot. right. exact H.
Qed.

Lemma has_newline_app (body tail : list byte) :
  has_newline (body ++ NEWLINE :: tail) = true.
Proof.
  unfold has_newline. rewrite existsb_app. cbn. apply orb_true_r.
Qed.

End Utf8RoundTrip.

(** X17.  The request line survives the wire.  The bytes sent for a preimage
    are its UTF-8 encoding followed by a line feed, and decoding them
    gives the preimage and the line feed back.  For a preimage without
    a line feed, a daemon that answers with those very bytes is read as
    the preimage, trimmed. *)
Theorem request_line_round_trip (preimage : pystr) (net : net_script)
    (st : wstate) (data : list byte) (rest : list recv_outcome) :
  Utf8.encode (preimage ++ [10%N]) = Ok data ->
  Utf8.decode data = Ok (preimage ++ [10%N])
  /\ (~ In 10%N preimage ->
      send_ok net = true ->
      recvs net = RecvBytes data :: rest ->
      is_Some (sock st) \/ connect_ok net = true ->
      snd (_send_pre_and_recv_hash preimage net st)
      = Ok (Some (strip preimage))).
Proof.
  intros He. split; [apply decode_encode, He|].
  intros Hnot Hsend Hrecv Hconn.
  destruct (encode_line preimage data He) as (body & Hbody & -> & Hnl).
  assert (Ha : answers preimage net (strip preimage)).
  { exists (body ++ [NEWLINE]), [], (body ++ [NEWLINE]), rest, preimage.
    split; [exact He|]. split; [exact Hsend|]. split; [exact Hrecv|].
    split; [constructor|]. split; [apply has_newline_app|].
    split; [|reflexivity].
    cbn [concat app]. rewrite before_newline_app by exact (Hnl Hnot).
    apply decode_encode, Hbody. }
  rewrite send_pre_eval. destruct (sock st) as [c|] eqn:Hsock.
  - destruct (try_query_spec preimage net st c Hsock) as (_ & Hiff & _).
    apply Hiff, Ha.
  - destruct Hconn as [[x Hx]|Hc]; [discriminate|]. rewrite Hc.
    destruct (try_query_spec preimage net (connected st) (opened st) eq_refl)
      as (_ & Hiff & _).
    apply Hiff, Ha.
Qed.

Lemma request_line_round_trip_witness :
  Utf8.decode [x68; xc3; xa9; x7c; x30; x0a]
  = Ok ([104; 233; 124; 48] ++ [10])%N.
Proof.
  apply (request_line_round_trip [104; 233; 124; 48]%N unreachable
           initial_state [x68; xc3; xa9; x7c; x30; x0a] []).
  vm_compute. reflexivity.
Defined.
